(** * documind: the page-processing orchestration of [core/src/index.ts]

    A shallow embedding of the [documind] function and of the closures it
    defines ([processPage], [processPagesInBatches]), followed by the
    properties of the page ordering, the page numbering, the token
    accounting, the failure policy, the temporary directory and the file
    name that the specification states.

    Conventions of the embedding:
    - a JavaScript string is a [string]; a character stands for one UTF-16
      code unit below 256 (the character classes [\w] and [\s] are the
      ECMAScript ones restricted to that range);
    - page numbers and token counts are integers ([Z]); [undefined] read
      from an array out of range is [None];
    - the caller's array lives in a heap and [documind] receives a reference
      to it;
    - the collaborators that are imported from other modules
      ([downloadFile], [convertFileToPdf], [convertPdfToImages],
      [formatMarkdown], [validateLLMParams], [getCompletion]) are section
      variables;
    - a run is a computation in a monad of state and exceptions; the state
      holds the disk, the heap, the variables the closures share and the
      trace of what the run has done (calls to the adapter and how they
      settled, files written, directories removed);
    - in parallel mode the order in which the event loop starts the tasks and
      in which their calls settle is an argument of the run, so that a
      property of the run is a property of every interleaving. *)

From Stdlib Require Import ZArith QArith List String Ascii Bool Lia Permutation Sorted.
From stdpp Require Import base option list gmap strings.

Import ListNotations.
Local Open Scope Z_scope.
Local Open Scope string_scope.
Local Open Scope list_scope.

(** ** JavaScript strings *)

Module JsString.

(** [\w] : [A-Za-z0-9_]. *)
Definition isWordChar (c : ascii) : bool :=
  let n := nat_of_ascii c in
  (((48 <=? n) && (n <=? 57)) || ((65 <=? n) && (n <=? 90))
   || (n =? 95) || ((97 <=? n) && (n <=? 122)))%nat.

(** [\s] below 256: TAB, LF, VT, FF, CR, space and the no-break space. *)
Definition isSpaceChar (c : ascii) : bool :=
  let n := nat_of_ascii c in
  (((9 <=? n) && (n <=? 13)) || (n =? 32) || (n =? 160))%nat.

(** The characters that remain after the two replacements and the
    lower-casing: [a-z0-9_]. *)
Definition isLowerWordChar (c : ascii) : bool :=
  let n := nat_of_ascii c in
  (((48 <=? n) && (n <=? 57)) || (n =? 95) || ((97 <=? n) && (n <=? 122)))%nat.

(** [s.split(sep)] for a separator of one character: never empty. *)
Fixpoint split (sep : ascii) (s : string) : list string :=
  match s with
  | EmptyString => [EmptyString]
  | String c s' =>
      if Ascii.eqb c sep then EmptyString :: split sep s'
      else match split sep s' with
           | h :: t => String c h :: t
           | [] => [String c EmptyString]
           end
  end.

(** [a[i]] on an array of strings whose index is in range. *)
Definition at_ (parts : list string) (i : nat) : string :=
  default EmptyString (parts !! i).

(** [s.replace(/[^\w\s]/g, "")]. *)
Fixpoint stripNonWordNonSpace (s : string) : string :=
  match s with
  | EmptyString => EmptyString
  | String c s' =>
      if isWordChar c || isSpaceChar c
      then String c (stripNonWordNonSpace s')
      else stripNonWordNonSpace s'
  end.

(** [s.replace(/\s+/g, "_")]: every maximal run of white space becomes one
    underscore. [inRun] tells that the previous character was white space. *)
Fixpoint replaceSpaceRuns (inRun : bool) (s : string) : string :=
  match s with
  | EmptyString => EmptyString
  | String c s' =>
      if isSpaceChar c
      then if inRun then replaceSpaceRuns true s'
           else String "_" (replaceSpaceRuns true s')
      else String c (replaceSpaceRuns false s')
  end.

Definition lowerChar (c : ascii) : ascii :=
  let n := nat_of_ascii c in
  if ((65 <=? n) && (n <=? 90))%nat then ascii_of_nat (n + 32) else c.

(** [s.toLowerCase()] on the characters that reach it here: the ASCII
    letters are lowered, nothing else changes. *)
Fixpoint toLowerCase (s : string) : string :=
  match s with
  | EmptyString => EmptyString
  | String c s' => String (lowerChar c) (toLowerCase s')
  end.

(** [s.endsWith(suffix)]. *)
Definition endsWith (s suffix : string) : bool :=
  let n := String.length s in
  let k := String.length suffix in
  (k <=? n)%nat && String.eqb (substring (n - k) k s) suffix.

Fixpoint allChars (p : ascii -> bool) (s : string) : bool :=
  match s with
  | EmptyString => true
  | String c s' => p c && allChars p s'
  end.

(** [parts.join(sep)]. *)
Fixpoint join (sep : string) (parts : list string) : string :=
  match parts with
  | [] => EmptyString
  | [p] => p
  | p :: rest => p ++ sep ++ join sep rest
  end.

End JsString.

(** Lines 92-98: the name of the result file. *)
Definition endOfPath (localPath : string) : string :=
  let parts := JsString.split "/" localPath in
  JsString.at_ parts (length parts - 1).

Definition rawFileName (localPath : string) : string :=
  JsString.at_ (JsString.split "." (endOfPath localPath)) 0.

Definition sanitize (raw : string) : string :=
  substring 0 255
    (JsString.toLowerCase
       (JsString.replaceSpaceRuns false
          (JsString.stripNonWordNonSpace raw))).

Definition fileNameOf (localPath : string) : string :=
  sanitize (rawFileName localPath).

(** ** The types of [types.ts] *)

Inductive ModelOptions :=
| gpt_o3_mini | gpt_4o | gpt_4o_mini | llava | llama3_2_vision.

(** The numbers of [LLMParams] are carried to the adapter and never
    computed with; a rational stands for each. *)
Record LLMParams := {
  frequencyPenalty : option Q;
  maxTokens : option Q;
  presencePenalty : option Q;
  temperature : option Q;
  topP : option Q
}.

Definition noLLMParams : LLMParams :=
  {| frequencyPenalty := None; maxTokens := None; presencePenalty := None;
     temperature := None; topP := None |}.

Module Page.
(** [page] is [None] when the source leaves it [undefined]. *)
Record t := mk { content : string; contentLength : nat; page : option Z }.
End Page.

Module DocumindOutput.
Record t := mk {
  completionTime : Z;
  fileName : string;
  inputTokens : Z;
  outputTokens : Z;
  pages : list Page.t
}.
End DocumindOutput.

Module CompletionResponse.
Record t := mk { content : string; inputTokens : Z; outputTokens : Z }.
End CompletionResponse.

Module CompletionArgs.
Record t := mk {
  apiKey : string;
  imagePath : string;
  llmParams : LLMParams;
  maintainFormat : bool;
  model : ModelOptions;
  priorPage : string
}.
End CompletionArgs.

(** A reference to an array of the caller. *)
Definition loc := positive.

(** [number | number[]]: the array is passed by reference. *)
Inductive PagesArg :=
| PNumber (n : Z)
| PArray (ref : loc).

Module DocumindArgs.
(** An absent optional field is [None]; the defaults of the parameter
    list of [documind] are applied by [documind]. *)
Record t := mk {
  cleanup : option bool;
  concurrency : option Z;
  filePath : string;
  llmParams : option LLMParams;
  maintainFormat : option bool;
  model : option ModelOptions;
  openaiAPIKey : option string;
  outputDir : option string;
  pagesToConvertAsImages : option PagesArg;
  tempDir : option string
}.
End DocumindArgs.

(** ** Thrown values, events and the state of a run *)

(** What a [throw] carries: an [Error] object or a bare string. *)
Inductive Thrown :=
| JsError (name message : string)
| JsStr (s : string).

(** What the run does to the outside, in the order it does it. [index] is
    the position of the image in [images]: the work unit. *)
Inductive Event :=
| EvCall (index : nat) (args : CompletionArgs.t)
| EvSettle (index : nat) (res : Thrown + CompletionResponse.t)
| EvConsoleError (image : string) (error : Thrown)
| EvWriteFile (path data : string)
| EvRemove (path : string).

(** A directory is mapped to its entries. *)
Abbreviation FS := (gmap string (list string)).
Abbreviation Heap := (gmap loc (list Z)).

(** What the caller owns before the call. *)
Record World := { w_fsys : FS; w_heap : Heap }.

(** The environment of the process: [process.env.BASE_URL], [os.tmpdir()],
    the four digits drawn for the directory name, the two readings of the
    clock, and what the system answers when a path is to be removed: nothing
    when it lets the path go, the error otherwise (a directory that is busy,
    or not the caller's to remove). *)
Record Env := {
  BASE_URL : option string;
  osTmpdir : string;
  rand : string;
  startTime : Z;
  endTime : Z;
  removeError : string -> option Thrown
}.

(** The file system, the heap, the events so far and the four variables of
    [documind] that its closures share (lines 35-38). *)
Record State := {
  fsys : FS;
  heap : Heap;
  trace : list Event;
  inputTokenCount : Z;
  outputTokenCount : Z;
  priorPage : string;
  aggregatedMarkdown : list string
}.

Definition initState (w : World) : State :=
  {| fsys := w_fsys w; heap := w_heap w; trace := [];
     inputTokenCount := 0; outputTokenCount := 0; priorPage := "";
     aggregatedMarkdown := [] |}.

Definition set_fsys (f : FS) (s : State) : State :=
  {| fsys := f; heap := heap s; trace := trace s;
     inputTokenCount := inputTokenCount s;
     outputTokenCount := outputTokenCount s; priorPage := priorPage s;
     aggregatedMarkdown := aggregatedMarkdown s |}.

Definition set_heap (h : Heap) (s : State) : State :=
  {| fsys := fsys s; heap := h; trace := trace s;
     inputTokenCount := inputTokenCount s;
     outputTokenCount := outputTokenCount s; priorPage := priorPage s;
     aggregatedMarkdown := aggregatedMarkdown s |}.

Definition emit (ev : Event) (s : State) : State :=
  {| fsys := fsys s; heap := heap s; trace := trace s ++ [ev];
     inputTokenCount := inputTokenCount s;
     outputTokenCount := outputTokenCount s; priorPage := priorPage s;
     aggregatedMarkdown := aggregatedMarkdown s |}.

(** [inputTokenCount += i; outputTokenCount += o; priorPage = md]. *)
Definition account (i o : Z) (md : string) (s : State) : State :=
  {| fsys := fsys s; heap := heap s; trace := trace s;
     inputTokenCount := inputTokenCount s + i;
     outputTokenCount := outputTokenCount s + o; priorPage := md;
     aggregatedMarkdown := aggregatedMarkdown s |}.

(** [aggregatedMarkdown.push(...mds)]. *)
Definition push (mds : list string) (s : State) : State :=
  {| fsys := fsys s; heap := heap s; trace := trace s;
     inputTokenCount := inputTokenCount s;
     outputTokenCount := outputTokenCount s; priorPage := priorPage s;
     aggregatedMarkdown := aggregatedMarkdown s ++ mds |}.

(** ** The monad of the run: state and exceptions

    [Stuck] is not an outcome of the program: it marks a schedule that does
    not describe an execution (see [promiseAll]). *)

Inductive Res (A : Type) :=
| Ok (a : A)
| Throw (e : Thrown)
| Stuck.
Arguments Ok {A} a.
Arguments Throw {A} e.
Arguments Stuck {A}.

Definition M (A : Type) : Type := State -> State * Res A.

Definition ret {A} (a : A) : M A := fun s => (s, Ok a).

Definition bind {A B} (m : M A) (k : A -> M B) : M B :=
  fun s =>
    match m s with
    | (s1, Ok a) => k a s1
    | (s1, Throw e) => (s1, Throw e)
    | (s1, Stuck) => (s1, Stuck)
    end.

Definition throw {A} (e : Thrown) : M A := fun s => (s, Throw e).
Definition stuck {A} : M A := fun s => (s, Stuck).
Definition gets {A} (f : State -> A) : M A := fun s => (s, Ok (f s)).
Definition modify (f : State -> State) : M unit := fun s => (f s, Ok tt).

(** An awaited collaborator that works on the file system. *)
Definition onFs {A} (f : FS -> FS * (Thrown + A)) : M A :=
  fun s =>
    match f (fsys s) with
    | (fs', inr a) => (set_fsys fs' s, Ok a)
    | (fs', inl e) => (set_fsys fs' s, Throw e)
    end.

Notation "'let!' x ':=' m 'in' k" := (bind m (fun x => k))
  (at level 10, x name, m at level 100, k at level 200).
Notation "'let!' ' pat ':=' m 'in' k" :=
  (bind m (fun x => match x with pat => k end))
  (at level 10, pat pattern, m at level 100, k at level 200).
Notation "'do!' m 'in' k" := (bind m (fun _ => k))
  (at level 10, m at level 100, k at level 200).

(** ** The library functions the run relies on *)

(** [path.join(a, b)], on two segments that need no normalisation. *)
Definition path_join (a b : string) : string := (a ++ "/" ++ b)%string.

(** [array.sort((a, b) => a - b)]: ascending and stable. *)
Fixpoint insertAsc (x : Z) (l : list Z) : list Z :=
  match l with
  | [] => [x]
  | y :: l' => if (x <=? y)%Z then x :: l else y :: insertAsc x l'
  end.

Definition sortAsc (l : list Z) : list Z := foldr insertAsc [] l.

(** [a[i] = v] on a JavaScript array with holes: an index past the end
    extends the array, the slots in between stay empty. *)
Definition jsArraySet {A} (a : list (option A)) (i : nat) (v : A)
  : list (option A) :=
  if decide (i < length a)%nat then <[i := Some v]> a
  else a ++ replicate (i - length a) None ++ [Some v].

(** [results.filter(isString)]: the holes are skipped, the strings kept. *)
Definition filterIsString (results : list (option string)) : list string :=
  omap id results.

Definition enoent : Thrown := JsError "Error" "ENOENT: no such file or directory".

(** [fs.ensureDir(p)]. *)
Definition ensureDirFs (p : string) (f : FS) : FS :=
  match f !! p with
  | Some _ => f
  | None => <[p := []]> f
  end.

Definition ensureDir (p : string) : M unit :=
  modify (fun s => set_fsys (ensureDirFs p (fsys s)) s).

(** [fs.readdir(p)]. *)
Definition readdir (p : string) : M (list string) :=
  fun s =>
    match fsys s !! p with
    | Some entries => (s, Ok entries)
    | None => (s, Throw enoent)
    end.

(** [fs.writeFile(path.join(dir, name), data)]: the directory must exist. *)
Definition writeFile (dir name data : string) : M unit :=
  fun s =>
    match fsys s !! dir with
    | Some entries =>
        let entries' :=
          if bool_decide (name ∈ entries) then entries else entries ++ [name] in
        (emit (EvWriteFile (path_join dir name) data)
              (set_fsys (<[dir := entries']> (fsys s)) s), Ok tt)
    | None => (s, Throw enoent)
    end.

(** [fs.remove(p)]: the path is gone when the promise resolves; when the
    system refuses, the promise rejects and the path is still there. *)
Definition remove (env : Env) (p : string) : M unit :=
  match removeError env p with
  | Some e => throw e
  | None => modify (fun s => emit (EvRemove p) (set_fsys (delete p (fsys s)) s))
  end.

(** [pLimit(concurrency)] of the p-limit package: a limit is a number of
    slots, and a number below one is refused. *)
Definition concurrencyError : Thrown :=
  JsError "TypeError" "Expected `concurrency` to be a number from 1 and up".

Definition pLimit (concurrency : Z) : M Z :=
  if (1 <=? concurrency)%Z then ret concurrency else throw concurrencyError.

(** What the closures of [documind] capture besides the shared variables. *)
Record Ctx := {
  c_apiKey : string;
  c_llmParams : LLMParams;
  c_maintainFormat : bool;
  c_model : ModelOptions;
  c_tempDirectory : string
}.

Definition completionArgs (c : Ctx) (image prior : string) : CompletionArgs.t :=
  {| CompletionArgs.apiKey := c_apiKey c;
     CompletionArgs.imagePath := path_join (c_tempDirectory c) image;
     CompletionArgs.llmParams := c_llmParams c;
     CompletionArgs.maintainFormat := c_maintainFormat c;
     CompletionArgs.model := c_model c;
     CompletionArgs.priorPage := prior |}.

(** A call to the adapter that has not settled yet. *)
Record Pending := {
  p_index : nat;
  p_image : string;
  p_result : Thrown + CompletionResponse.t
}.

(** The tasks handed to [limit]: those that wait, those that run, and the
    [results] array of [processPagesInBatches]. *)
Record Pool := {
  queue : list (nat * string);
  active : list Pending;
  results : list (option string)
}.

(** What the event loop does next: start the task at the head of the queue,
    or let the call of one running task settle. *)
Inductive SchedEvent :=
| Start
| Finish (index : nat).

(** All the tasks start, then their calls settle in the order [order]. *)
Definition startAllThenSettle (n : nat) (order : list nat) : list SchedEvent :=
  replicate n Start ++ (Finish <$> order).

Fixpoint takeActive (i : nat) (l : list Pending)
  : option (Pending * list Pending) :=
  match l with
  | [] => None
  | p :: l' =>
      if Nat.eqb (p_index p) i then Some (p, l')
      else match takeActive i l' with
           | Some (q, rest) => Some (q, p :: rest)
           | None => None
           end
  end.

(** Lines 193-209. *)
Definition pageNumber (pagesToConvertAsImages : PagesArg) (h : Heap) (i : nat)
  : option Z :=
  match pagesToConvertAsImages with
  | PNumber n =>
      if (n =? -1)%Z then Some (Z.of_nat i + 1)%Z else Some n
  | PArray ref => h !! ref ≫= fun a => a !! i
  end.

Definition formattedPages (pagesToConvertAsImages : PagesArg) (h : Heap)
    (aggregated : list string) : list Page.t :=
  imap (fun i el =>
          {| Page.content := el;
             Page.page := pageNumber pagesToConvertAsImages h i;
             Page.contentLength := String.length el |}) aggregated.

(** ** [documind] *)

Section Documind.

(** The collaborators: [utils] and [openAI]. Those that are awaited and
    touch the disk transform the file system and may reject. *)
Variable validateLLMParams : LLMParams -> Thrown + LLMParams.
Variable downloadFile :
  string -> string -> FS -> FS * (Thrown + (string * option string)).
Variable convertFileToPdf :
  string -> string -> string -> FS -> FS * (Thrown + string).
Variable convertPdfToImages :
  string -> Z + list Z -> string -> FS -> FS * (Thrown + unit).
Variable getCompletion :
  CompletionArgs.t -> Thrown + CompletionResponse.t.
Variable formatMarkdown : string -> string.

Definition openaiUrl : string := "https://api.openai.com/v1".

(** Line 28: an empty [BASE_URL] is falsy. *)
Definition baseUrlOf (env : Env) : string :=
  match BASE_URL env with
  | Some u => if String.eqb u "" then openaiUrl else u
  | None => openaiUrl
  end.

(** Lines 29-33. *)
Definition defaultModelOf (env : Env) (a : DocumindArgs.t) : ModelOptions :=
  match DocumindArgs.model a with
  | Some m => m
  | None =>
      if negb (String.eqb (baseUrlOf env) openaiUrl) then llava
      else gpt_4o_mini
  end.

(** Lines 52-56. *)
Definition tempDirectoryOf (env : Env) (a : DocumindArgs.t) : string :=
  let tempDir := default (osTmpdir env) (DocumindArgs.tempDir a) in
  path_join (if String.eqb tempDir "" then osTmpdir env else tempDir)
            ("documind-file-" ++ rand env).

Definition pagesOf (a : DocumindArgs.t) : PagesArg :=
  default (PNumber (-1)) (DocumindArgs.pagesToConvertAsImages a).

Definition ctxOf (env : Env) (a : DocumindArgs.t) (llmParams : LLMParams)
  : Ctx :=
  {| c_apiKey := default "" (DocumindArgs.openaiAPIKey a);
     c_llmParams := llmParams;
     c_maintainFormat := default false (DocumindArgs.maintainFormat a);
     c_model := defaultModelOf env a;
     c_tempDirectory := tempDirectoryOf env a |}.

(** Lines 68-70: the array the caller passed is sorted where it is. *)
Definition sortPages (p : PagesArg) : M unit :=
  match p with
  | PArray ref => modify (fun s => set_heap (alter sortAsc ref (heap s)) s)
  | PNumber _ => ret tt
  end.

(** The value [convertPdfToImages] reads through the argument. *)
Definition pagesValue (p : PagesArg) (h : Heap) : Z + list Z :=
  match p with
  | PNumber n => inl n
  | PArray ref => inr (default [] (h !! ref))
  end.

(** Lines 72-90. *)
Definition convertToImages (p : PagesArg) (tempDirectory extension
    localPath : string) : M unit :=
  if negb (String.eqb extension ".png") then
    let! pdfPath :=
      (if String.eqb extension ".pdf" then ret localPath
       else onFs (convertFileToPdf extension localPath tempDirectory)) in
    let! h := gets heap in
    onFs (convertPdfToImages pdfPath (pagesValue p h) tempDirectory)
  else ret tt.

(** Lines 106-130, the body of the loop. *)
Definition sequentialStep (c : Ctx) (index : nat) (image : string) : M unit :=
  let! prior := gets priorPage in
  let args := completionArgs c image prior in
  do! modify (emit (EvCall index args)) in
  let res := getCompletion args in
  do! modify (emit (EvSettle index res)) in
  match res with
  | inr r =>
      let formattedMarkdown := formatMarkdown (CompletionResponse.content r) in
      do! modify (account (CompletionResponse.inputTokens r)
                          (CompletionResponse.outputTokens r)
                          formattedMarkdown) in
      modify (push [formattedMarkdown])
  | inl error =>
      do! modify (emit (EvConsoleError image error)) in
      throw error
  end.

(** [for (const image of images)]; [index] counts the iterations. *)
Fixpoint forOf (index : nat) (images : list string)
    (body : nat -> string -> M unit) : M unit :=
  match images with
  | [] => ret tt
  | image :: rest => do! body index image in forOf (S index) rest body
  end.

(** Lines 133-143: [processPage] up to its [await]. The call is made with
    the [priorPage] of that moment. *)
Definition processPage_call (c : Ctx) (index : nat) (image : string)
  : M Pending :=
  let! prior := gets priorPage in
  let args := completionArgs c image prior in
  do! modify (emit (EvCall index args)) in
  ret {| p_index := index; p_image := image;
         p_result := getCompletion args |}.

(** Lines 144-156: [processPage] once the call has settled. *)
Definition processPage_resume (p : Pending) : M string :=
  do! modify (emit (EvSettle (p_index p) (p_result p))) in
  match p_result p with
  | inr r =>
      let formattedMarkdown := formatMarkdown (CompletionResponse.content r) in
      do! modify (account (CompletionResponse.inputTokens r)
                          (CompletionResponse.outputTokens r)
                          formattedMarkdown) in
      ret formattedMarkdown
  | inl error =>
      do! modify (emit (EvConsoleError (p_image p) error)) in
      throw error
  end.

(** [await Promise.all(promises)] under [limit], along a schedule. A task
    starts only while fewer than [limit] calls are running, and the tasks
    start in the order of the queue. When a call settles with a response,
    [processPage] resumes and [results[index] = result] runs; when it
    settles with a failure, [processPage] rethrows, the promise of the task
    rejects and so does [Promise.all]: the [await] throws, and what the
    other tasks still do is no longer seen by [documind]. The schedule ends
    when nothing waits and nothing runs; any other schedule is [Stuck]. *)
Fixpoint promiseAll (c : Ctx) (limit : Z) (sched : list SchedEvent)
    (pool : Pool) : M (list (option string)) :=
  match sched with
  | [] =>
      match queue pool, active pool with
      | [], [] => ret (results pool)
      | _, _ => stuck
      end
  | Start :: sched' =>
      match queue pool with
      | (index, image) :: waiting =>
          if (Z.of_nat (length (active pool)) <? limit)%Z then
            let! p := processPage_call c index image in
            promiseAll c limit sched'
              {| queue := waiting; active := active pool ++ [p];
                 results := results pool |}
          else stuck
      | [] => stuck
      end
  | Finish index :: sched' =>
      match takeActive index (active pool) with
      | Some (p, running) =>
          let! result := processPage_resume p in
          promiseAll c limit sched'
            {| queue := queue pool; active := running;
               results := jsArraySet (results pool) (p_index p) result |}
      | None => stuck
      end
  end.

(** Lines 160-173. *)
Definition processPagesInBatches (c : Ctx) (images : list string)
    (limit : Z) (sched : list SchedEvent) : M (list (option string)) :=
  promiseAll c limit sched
    {| queue := imap (fun index image => (index, image)) images;
       active := []; results := [] |}.

(** What the first part of [documind] leaves to the rest. *)
Record Prepared := {
  ctx : Ctx;
  localPath : string;
  images : list string
}.

(** Lines 41-102. *)
Definition prepare (env : Env) (a : DocumindArgs.t) : M Prepared :=
  let llmParams := default noLLMParams (DocumindArgs.llmParams a) in
  let openaiAPIKey := default "" (DocumindArgs.openaiAPIKey a) in
  let filePath := DocumindArgs.filePath a in
  match validateLLMParams llmParams with
  | inl e => throw e
  | inr llmParams =>
      if String.eqb openaiAPIKey "" then
        throw (JsError "Error" "Missing OpenAI API key")
      else if String.eqb filePath "" then
        throw (JsError "Error" "Missing file path")
      else
        let tempDirectory := tempDirectoryOf env a in
        do! ensureDir tempDirectory in
        let! '(extension, localPath) :=
          onFs (downloadFile filePath tempDirectory) in
        match localPath with
        | None => throw (JsStr "Failed to save file to local drive")
        | Some localPath =>
            if String.eqb localPath "" then
              throw (JsStr "Failed to save file to local drive")
            else
              do! sortPages (pagesOf a) in
              do! convertToImages (pagesOf a) tempDirectory extension
                    localPath in
              let! files := readdir tempDirectory in
              ret {| ctx := ctxOf env a llmParams;
                     localPath := localPath;
                     images :=
                       List.filter (fun file => JsString.endsWith file ".png")
                                   files |}
        end
  end.

(** Lines 104-179. *)
Definition execute (a : DocumindArgs.t) (sched : list SchedEvent)
    (p : Prepared) : M unit :=
  if c_maintainFormat (ctx p) then
    forOf 0 (images p) (sequentialStep (ctx p))
  else
    let! limit := pLimit (default 10%Z (DocumindArgs.concurrency a)) in
    let! results := processPagesInBatches (ctx p) (images p) limit sched in
    modify (push (filterIsString results)).

(** Lines 181-217. *)
Definition finish (env : Env) (a : DocumindArgs.t) (p : Prepared)
  : M DocumindOutput.t :=
  let fileName := fileNameOf (localPath p) in
  do! match DocumindArgs.outputDir a with
      | Some outputDir =>
          if String.eqb outputDir "" then ret tt
          else
            let! aggregated := gets aggregatedMarkdown in
            writeFile outputDir (fileName ++ ".md")
                      (JsString.join (String "010" (String "010" ""))
                                     aggregated)
      | None => ret tt
      end in
  do! (if default true (DocumindArgs.cleanup a)
       then remove env (c_tempDirectory (ctx p)) else ret tt) in
  let! s := gets (fun s => s) in
  ret {| DocumindOutput.completionTime := (endTime env - startTime env)%Z;
         DocumindOutput.fileName := fileName;
         DocumindOutput.inputTokens := inputTokenCount s;
         DocumindOutput.outputTokens := outputTokenCount s;
         DocumindOutput.pages :=
           formattedPages (pagesOf a) (heap s) (aggregatedMarkdown s) |}.

(** The whole call: the outcome and the state it leaves. In parallel mode
    [sched] is the order in which the event loop starts the tasks and
    settles their calls; in sequential mode it is not looked at. *)
Definition documind (env : Env) (a : DocumindArgs.t)
    (sched : list SchedEvent) (w : World) : State * Res DocumindOutput.t :=
  (let! p := prepare env a in
   do! execute a sched p in
   finish env a p) (initState w).

(** *** Reading the trace of a run *)

Definition calls (tr : list Event) : list (nat * CompletionArgs.t) :=
  omap (fun ev => match ev with EvCall i args => Some (i, args) | _ => None end)
       tr.

Definition settles (tr : list Event)
  : list (nat * (Thrown + CompletionResponse.t)) :=
  omap (fun ev => match ev with EvSettle i res => Some (i, res) | _ => None end)
       tr.

Definition failures (tr : list Event) : list (nat * Thrown) :=
  omap (fun ev =>
          match ev with EvSettle i (inl e) => Some (i, e) | _ => None end) tr.

Definition removals (tr : list Event) : list string :=
  omap (fun ev => match ev with EvRemove p => Some p | _ => None end) tr.

(** The sum of one of the token counts over the responses received. *)
Definition tokens (count : CompletionResponse.t -> Z) (tr : list Event) : Z :=
  foldr (fun ev acc =>
           match ev with
           | EvSettle _ (inr r) => (count r + acc)%Z
           | _ => acc
           end) 0%Z tr.

Definition formatted (r : CompletionResponse.t) : string :=
  formatMarkdown (CompletionResponse.content r).

(** The calls and the responses of a sequential run in which no call has
    failed, with the prior page the next call will be given. *)
Inductive SeqLog (c : Ctx)
  : list (nat * CompletionArgs.t) ->
    list (nat * (Thrown + CompletionResponse.t)) -> string -> Prop :=
| SeqLog_nil : SeqLog c [] [] ""
| SeqLog_snoc cs ss prior image r :
    SeqLog c cs ss prior ->
    getCompletion (completionArgs c image prior) = inr r ->
    SeqLog c (cs ++ [(length cs, completionArgs c image prior)])
           (ss ++ [(length cs, inr r)]) (formatted r).

(** The same, ended by a call that failed with [e]. *)
Inductive SeqFail (c : Ctx) (e : Thrown)
  : list (nat * CompletionArgs.t) ->
    list (nat * (Thrown + CompletionResponse.t)) -> Prop :=
| SeqFail_intro cs ss prior image :
    SeqLog c cs ss prior ->
    getCompletion (completionArgs c image prior) = inl e ->
    SeqFail c e (cs ++ [(length cs, completionArgs c image prior)])
            (ss ++ [(length cs, inl e)]).

(** The heap once lines 68-70 have run. *)
Definition heapAfterSort (a : DocumindArgs.t) (h : Heap) : Heap :=
  match pagesOf a with
  | PArray ref => alter sortAsc ref h
  | PNumber _ => h
  end.

(** The four shared variables are those of [s0]. *)
Definition sameLocals (s0 s : State) : Prop :=
  trace s = trace s0 /\ inputTokenCount s = inputTokenCount s0 /\
  outputTokenCount s = outputTokenCount s0 /\ priorPage s = priorPage s0 /\
  aggregatedMarkdown s = aggregatedMarkdown s0.

(** Every call carries the formatted response of the call before it, and
    the first one the empty string. *)
Definition Threaded (cs : list (nat * CompletionArgs.t))
    (ss : list (nat * (Thrown + CompletionResponse.t))) : Prop :=
  forall i j args,
    cs !! i = Some (j, args) ->
    j = i /\
    match i with
    | O => CompletionArgs.priorPage args = ""
    | S k => exists r, ss !! k = Some (k, inr r) /\
                       CompletionArgs.priorPage args = formatted r
    end.

(** The counters are the sums over the responses received, and nothing has
    been removed. *)
Definition Booked (s : State) : Prop :=
  inputTokenCount s = tokens CompletionResponse.inputTokens (trace s) /\
  outputTokenCount s = tokens CompletionResponse.outputTokens (trace s) /\
  removals (trace s) = [].

(** The disk and the heap are those of [s0]. *)
Definition sameStore (s0 s : State) : Prop :=
  fsys s = fsys s0 /\ heap s = heap s0.

(** A parallel run over [images] in which no call has failed yet: [d] tasks
    have started, in the order of [images]; each of them either still runs
    or has written its formatted response into its own slot. *)
Definition ParInv (c : Ctx) (images : list string) (pool : Pool) (s : State)
  : Prop :=
  exists d : nat,
    queue pool = drop d (imap (fun index image => (index, image)) images) /\
    (d <= length images)%nat /\
    (calls (trace s)).*1 = seq 0 d /\
    (length (settles (trace s)) + length (active pool) = d)%nat /\
    failures (trace s) = [] /\
    (forall i args, (i, args) ∈ calls (trace s) ->
       exists image prior, images !! i = Some image /\
                           args = completionArgs c image prior) /\
    (forall p, p ∈ active pool ->
       exists args, (p_index p, args) ∈ calls (trace s) /\
                    p_result p = getCompletion args) /\
    (forall i, (i < d)%nat ->
       (exists p, p ∈ active pool /\ p_index p = i) \/
       (exists args r, (i, args) ∈ calls (trace s) /\
                       getCompletion args = inr r /\
                       (i, inr r) ∈ settles (trace s) /\
                       results pool !! i = Some (Some (formatted r)))) /\
    (length (results pool) <= d)%nat.

(** The files a run has written, each with its content. *)
Definition writes (tr : list Event) : list (string * string) :=
  omap (fun ev =>
          match ev with EvWriteFile path data => Some (path, data) | _ => None end)
       tr.

(** What [priorPage] holds after the events [tr]: the formatted response of
    the last call that has succeeded, and the empty string before any has. *)
Definition lastFormatted (tr : list Event) : string :=
  foldl (fun prior ev =>
           match ev with
           | EvSettle _ (inr r) => formatted r
           | _ => prior
           end) "" tr.

(** Every call is for the image of its index, with the arguments the
    closures of [documind] build. *)
Definition CallsFrom (c : Ctx) (images : list string) (tr : list Event)
  : Prop :=
  forall i args,
    (i, args) ∈ calls tr ->
    exists image prior,
      images !! i = Some image /\ args = completionArgs c image prior.

(** [priorPage] and the prior page of every call made so far are those
    [lastFormatted] tells. *)
Definition PriorInv (s : State) : Prop :=
  priorPage s = lastFormatted (trace s) /\
  forall pre i args post,
    trace s = pre ++ EvCall i args :: post ->
    CompletionArgs.priorPage args = lastFormatted pre.

(** The sequential loop has gone through the images [done]: call, response
    and aggregated markdown number [i] are those of image [i]. *)
Definition SeqOut (c : Ctx) (done : list string) (s : State) : Prop :=
  length (calls (trace s)) = length done /\
  length (settles (trace s)) = length done /\
  length (aggregatedMarkdown s) = length done /\
  forall i image,
    done !! i = Some image ->
    exists prior r,
      calls (trace s) !! i = Some (i, completionArgs c image prior) /\
      getCompletion (completionArgs c image prior) = inr r /\
      settles (trace s) !! i = Some (i, inr r) /\
      aggregatedMarkdown s !! i = Some (formatted r).

End Documind.

(** The arguments [a] with another [concurrency]. *)
Definition withConcurrency (concurrency : option Z) (a : DocumindArgs.t)
  : DocumindArgs.t :=
  {| DocumindArgs.cleanup := DocumindArgs.cleanup a;
     DocumindArgs.concurrency := concurrency;
     DocumindArgs.filePath := DocumindArgs.filePath a;
     DocumindArgs.llmParams := DocumindArgs.llmParams a;
     DocumindArgs.maintainFormat := DocumindArgs.maintainFormat a;
     DocumindArgs.model := DocumindArgs.model a;
     DocumindArgs.openaiAPIKey := DocumindArgs.openaiAPIKey a;
     DocumindArgs.outputDir := DocumindArgs.outputDir a;
     DocumindArgs.pagesToConvertAsImages :=
       DocumindArgs.pagesToConvertAsImages a;
     DocumindArgs.tempDir := DocumindArgs.tempDir a |}.

(** ** A small concrete world to run the model on *)

Module Demo.

Definition digit (k : nat) : string := String (ascii_of_nat (48 + k)) "".

Definition validate (p : LLMParams) : Thrown + LLMParams := inr p.

(** The file lands in the temporary directory under its own name. *)
Definition download (filePath tempDir : string) (f : FS)
  : FS * (Thrown + (string * option string)) :=
  let name := endOfPath filePath in
  let extension :=
    if JsString.endsWith name ".png" then ".png" else ".pdf" in
  (alter (fun entries => entries ++ [name]) tempDir f,
   inr (extension, Some (path_join tempDir name))).

Definition toPdf (extension localPath tempDir : string) (f : FS)
  : FS * (Thrown + string) :=
  (f, inl (JsError "Error" "no converter")).

(** A document of [docPages] pages: one image for each requested page
    that the document has. *)
Definition toImages (docPages : nat) (localPath : string)
    (pages : Z + list Z) (tempDir : string) (f : FS)
  : FS * (Thrown + unit) :=
  let wanted :=
    match pages with
    | inl n => if (n =? -1)%Z then seq 1 docPages else [Z.to_nat n]
    | inr l => List.map Z.to_nat l
    end in
  let made :=
    List.map (fun k => ("page_" ++ digit k ++ ".png")%string)
             (List.filter (fun k => (1 <=? k)%nat && (k <=? docPages)%nat)
                          wanted) in
  (alter (fun entries => entries ++ made) tempDir f, inr tt).

(** The adapter fails on the images named in [bad]; otherwise it echoes the
    image and the prior page it was given. *)
Definition complete (bad : list string) (args : CompletionArgs.t)
  : Thrown + CompletionResponse.t :=
  let path := CompletionArgs.imagePath args in
  if existsb (fun b => JsString.endsWith path b) bad
  then inl (JsError "Error" ("provider failed on " ++ endOfPath path))
  else inr {| CompletionResponse.content :=
                (endOfPath path ++ "<" ++ CompletionArgs.priorPage args ++ ">")%string;
              CompletionResponse.inputTokens := Z.of_nat (String.length path);
              CompletionResponse.outputTokens := 7 |}.

Definition format (s : string) : string := ("md " ++ s)%string.

Definition env : Env :=
  {| BASE_URL := None; osTmpdir := "/tmp"; rand := "4821";
     startTime := 1000; endTime := 1750; removeError := fun _ => None |}.

Definition args (maintain : bool) (pages : option PagesArg)
    (file : string) : DocumindArgs.t :=
  {| DocumindArgs.cleanup := None;
     DocumindArgs.concurrency := Some 2%Z;
     DocumindArgs.filePath := file;
     DocumindArgs.llmParams := None;
     DocumindArgs.maintainFormat := Some maintain;
     DocumindArgs.model := None;
     DocumindArgs.openaiAPIKey := Some "sk-test";
     DocumindArgs.outputDir := None;
     DocumindArgs.pagesToConvertAsImages := pages;
     DocumindArgs.tempDir := None |}.

(** The caller holds the array [5; 2; 7] at reference 1 and an empty array
    at reference 2. *)
Definition world : World :=
  {| w_fsys := {[ "/tmp" := [] ]};
     w_heap := {[ 1%positive := [5; 2; 7]%Z; 2%positive := [] ]} |}.

Definition prep (docPages : nat) :=
  prepare validate download toPdf (toImages docPages) env.

Definition run (docPages : nat) (bad : list string) :=
  documind validate download toPdf (toImages docPages) (complete bad) format env.

Definition noOutput : DocumindOutput.t :=
  {| DocumindOutput.completionTime := 0; DocumindOutput.fileName := "";
     DocumindOutput.inputTokens := 0; DocumindOutput.outputTokens := 0;
     DocumindOutput.pages := [] |}.

Definition outputOf (r : Res DocumindOutput.t) : DocumindOutput.t :=
  match r with Ok out => out | _ => noOutput end.

Definition report : string := "/home/u/My Report (v2).pdf".
Definition tmp : string := "/tmp/documind-file-4821".

(** Three pages, two calls at a time; the calls settle in the order 1, 2, 0. *)
Definition outOfOrder : list SchedEvent :=
  [Start; Start; Finish 1; Start; Finish 2; Finish 0].

Definition parallel3 :=
  run 3 [] (args false None report) outOfOrder world.

(** The same document, one page after the other. *)
Definition sequential3 :=
  run 3 [] (args true None report) [] world.

(** Five pages of which the second makes the adapter fail. In parallel the
    four other calls settle first. *)
Definition failingLast : list SchedEvent :=
  [Start; Start; Finish 0; Start; Finish 2; Start; Finish 3; Start; Finish 4;
   Finish 1].

Definition parallel5 :=
  run 5 ["page_2.png"] (args false None report) failingLast world.

Definition sequential5 :=
  run 5 ["page_2.png"] (args true None report) [] world.

Definition page2Failed : Thrown :=
  JsError "Error" "provider failed on page_2.png".

Definition parallel3_state : State := fst parallel3.
Definition parallel3_output : DocumindOutput.t := outputOf (snd parallel3).
Definition sequential3_state : State := fst sequential3.
Definition parallel5_state : State := fst parallel5.
Definition sequential5_state : State := fst sequential5.

(** The pages 5, 2 and 7 of a document of nine pages, asked for through the
    array at reference 1. *)
Definition listed3 :=
  run 9 [] (args false (Some (PArray 1%positive)) "/home/u/a.pdf") outOfOrder
      world.

(** One image, processed as it is, with page lists of three numbers and of
    none. *)
Definition scan (ref : loc) :=
  run 0 [] (args false (Some (PArray ref)) "/home/u/scan.png") [Start; Finish 0]
      world.

Definition listed3_state : State := fst listed3.
Definition listed3_output : DocumindOutput.t := outputOf (snd listed3).
Definition scan_state (ref : loc) : State := fst (scan ref).
Definition scan_output (ref : loc) : DocumindOutput.t := outputOf (snd (scan ref)).

End Demo.


(** ** [extract]: the entry point that extracts data by a schema *)

Module Extract.

(** A value of JavaScript, as far as [extract] tells values apart. *)
Inductive JsValue :=
| JsUndefined
| JsNull
| JsBoolean (b : bool)
| JsNumber (n : Z)
| JsText (s : string)
| JsObject.

(** What [if (v)] and [v &&] test. *)
Definition truthy (v : JsValue) : bool :=
  match v with
  | JsUndefined | JsNull => false
  | JsBoolean b => b
  | JsNumber n => negb (n =? 0)%Z
  | JsText s => negb (String.eqb s "")
  | JsObject => true
  end.

(** [typeof v === "string"]. *)
Definition isText (v : JsValue) : bool :=
  match v with JsText _ => true | _ => false end.

(** A string that may be absent is truthy when it is there and not empty. *)
Definition present (s : option string) : bool :=
  match s with Some x => negb (String.eqb x "") | None => false end.

Module Options.
(** The object [extract] takes; an absent property is [None]. *)
Record t {Schema : Type} := mk {
  file : option string;
  schema : option Schema;
  template : option string;
  model : option string;
  parseModel : option string;
  autoSchema : option bool;
  additionalPrompt : JsValue
}.
Arguments t : clear implicits.
End Options.

Module Result.
(** What [extractData] resolves to. *)
Record t {Data : Type} := mk {
  totalPages : Z;
  event : Data;
  fileName : string
}.
Arguments t : clear implicits.
End Result.

Module Output.
Record t {Data : Type} := mk {
  success : bool;
  pages : Z;
  data : Data;
  fileName : string
}.
Arguments t : clear implicits.
End Output.

(** The arguments of [extractData], in their order. *)
Record DataArgs {Schema : Type} := {
  d_file : string;
  d_finalSchema : option Schema;
  d_model : option string;
  d_parseModel : option string;
  d_autoSchema : option bool;
  d_additionalPrompt : JsValue
}.
Arguments DataArgs : clear implicits.

(** What [extract] does besides returning. *)
Inductive Event {Schema : Type} :=
| ExtractData (args : DataArgs Schema)
| ConsoleError (error : Thrown).
Arguments Event : clear implicits.

(** [error.message]: a thrown string has none. *)
Definition messageOf (error : Thrown) : string :=
  match error with
  | JsError _ message => message
  | JsStr _ => "undefined"
  end.

Definition withSchema {Schema : Type} (sc : option Schema)
    (o : Options.t Schema) : Options.t Schema :=
  {| Options.file := Options.file o;
     Options.schema := sc;
     Options.template := Options.template o;
     Options.model := Options.model o;
     Options.parseModel := Options.parseModel o;
     Options.autoSchema := Options.autoSchema o;
     Options.additionalPrompt := Options.additionalPrompt o |}.

Section Extract.

Variable Schema : Type.
Variable Data : Type.

(** The collaborators, each of which may throw. [getTemplate] may return
    nothing, which is passed on as it is. *)
Variable isValidFile : string -> Thrown + bool.
Variable getTemplate : string -> Thrown + option Schema.
Variable validateSchema : Schema -> Thrown + (bool * list string).
Variable extractData : DataArgs Schema -> Thrown + Result.t Data.

(** Lines 38-52: the schema that is used. *)
Definition finalSchemaOf (o : Options.t Schema) : Thrown + option Schema :=
  if present (Options.template o) then
    getTemplate (default "" (Options.template o))
  else
    match Options.schema o with
    | Some schema =>
        match validateSchema schema with
        | inl e => inl e
        | inr (isValid, errors) =>
            if negb isValid then
              inl (JsError "Error"
                     ("Invalid schema format: " ++ JsString.join ", " errors))
            else inr (Some schema)
        end
    | None =>
        if negb (default false (Options.autoSchema o)) then
          inl (JsError "Error"
                 "You must provide a schema, template, or enable autoSchema.")
        else inr None
    end.

(** Lines 28-72: the body of the [try]. *)
Definition attempt (o : Options.t Schema)
  : list (Event Schema) * (Thrown + Output.t Data) :=
  if negb (present (Options.file o)) then
    ([], inl (JsError "Error" "File is required."))
  else
    let file := default "" (Options.file o) in
    match isValidFile file with
    | inl e => ([], inl e)
    | inr false =>
        ([], inl (JsError "Error"
                    "File must be a valid format: PDF, PNG, JPG, TXT, DOCX, or HTML."))
    | inr true =>
        match finalSchemaOf o with
        | inl e => ([], inl e)
        | inr finalSchema =>
            if truthy (Options.additionalPrompt o)
               && negb (isText (Options.additionalPrompt o))
            then ([], inl (JsError "Error" "Additional prompt must be a string."))
            else
              let args :=
                {| d_file := file; d_finalSchema := finalSchema;
                   d_model := Options.model o;
                   d_parseModel := Options.parseModel o;
                   d_autoSchema := Options.autoSchema o;
                   d_additionalPrompt := Options.additionalPrompt o |} in
              match extractData args with
              | inl e => ([ExtractData args], inl e)
              | inr result =>
                  ([ExtractData args],
                   inr {| Output.success := true;
                          Output.pages := Result.totalPages result;
                          Output.data := Result.event result;
                          Output.fileName := Result.fileName result |})
              end
        end
    end.

(** Lines 18-77: what is thrown in the body is logged and thrown again as an
    error that quotes its message. *)
Definition extract (o : Options.t Schema)
  : list (Event Schema) * (Thrown + Output.t Data) :=
  match attempt o with
  | (events, inr output) => (events, inr output)
  | (events, inl error) =>
      (events ++ [ConsoleError error],
       inl (JsError "Error"
              ("Failed to process document: " ++ messageOf error)))
  end.

End Extract.

End Extract.

(** Collaborators to run [extract] with: a schema is a list of field names,
    the files are PDF files, "invoice" is the one template. *)
Module ExtractDemo.

Definition isValidFile (file : string) : Thrown + bool :=
  inr (JsString.endsWith file ".pdf").

Definition getTemplate (name : string) : Thrown + option (list string) :=
  if String.eqb name "invoice" then inr (Some ["number"; "total"])
  else inl (JsError "Error" ("Template " ++ name ++ " not found")).

Definition validateSchema (schema : list string)
  : Thrown + (bool * list string) :=
  match schema with
  | [] => inr (false, ["schema is empty"; "no field to extract"])
  | _ => inr (true, [])
  end.

Definition extractData (args : Extract.DataArgs (list string))
  : Thrown + Extract.Result.t string :=
  inr {| Extract.Result.totalPages := 2;
         Extract.Result.event :=
           JsString.join "," (default [] (Extract.d_finalSchema args));
         Extract.Result.fileName := fileNameOf (Extract.d_file args) |}.

Definition extract :=
  Extract.extract (list string) string isValidFile getTemplate validateSchema
                  extractData.

Definition options (file : option string) (schema : option (list string))
    (template : option string) (autoSchema : option bool)
    (prompt : Extract.JsValue) : Extract.Options.t (list string) :=
  {| Extract.Options.file := file;
     Extract.Options.schema := schema;
     Extract.Options.template := template;
     Extract.Options.model := None;
     Extract.Options.parseModel := None;
     Extract.Options.autoSchema := autoSchema;
     Extract.Options.additionalPrompt := prompt |}.

(** An invoice read with the [invoice] template, and what [extractData]
    is given for it. *)

Definition invoiceOptions : Extract.Options.t (list string) :=
  options (Some "a.pdf") (Some []) (Some "invoice") None
          (Extract.JsText "amounts in euro").

Definition invoiceArgs : Extract.DataArgs (list string) :=
  {| Extract.d_file := "a.pdf";
     Extract.d_finalSchema := Some ["number"; "total"];
     Extract.d_model := None; Extract.d_parseModel := None;
     Extract.d_autoSchema := None;
     Extract.d_additionalPrompt := Extract.JsText "amounts in euro" |}.

(** A document with an empty schema and no template. *)

Definition emptySchemaOptions : Extract.Options.t (list string) :=
  options (Some "a.pdf") (Some []) None None Extract.JsUndefined.

End ExtractDemo.

(** More runs of [documind]: arguments that are refused, a download that
    loses the file, a run that writes its result, a run whose temporary
    directory cannot be removed. *)
Module DemoMore.

(** A [validateLLMParams] that refuses a temperature above 2. *)
Definition tooHot : Thrown := JsError "Error" "temperature must be at most 2".

Definition strictValidate (p : LLMParams) : Thrown + LLMParams :=
  match temperature p with
  | Some t => if Qle_bool t 2 then inr p else inl tooHot
  | None => inr p
  end.

Definition hot : LLMParams :=
  {| frequencyPenalty := None; maxTokens := None; presencePenalty := None;
     temperature := Some 3%Q; topP := None |}.

Definition args (key : option string) (file : string)
    (llm : option LLMParams) (outputDir : option string) (maintain : bool)
  : DocumindArgs.t :=
  {| DocumindArgs.cleanup := None;
     DocumindArgs.concurrency := None;
     DocumindArgs.filePath := file;
     DocumindArgs.llmParams := llm;
     DocumindArgs.maintainFormat := Some maintain;
     DocumindArgs.model := None;
     DocumindArgs.openaiAPIKey := key;
     DocumindArgs.outputDir := outputDir;
     DocumindArgs.pagesToConvertAsImages := None;
     DocumindArgs.tempDir := None |}.

(** A download that reports no local path. *)
Definition lostDownload (filePath tempDir : string) (f : FS)
  : FS * (Thrown + (string * option string)) :=
  (f, inr (".pdf", None)).

(** A disk with a directory for the results. *)
Definition world : World :=
  {| w_fsys := {[ "/tmp" := []; "/out" := ["old.md"] ]}; w_heap := ∅ |}.

Definition run (validate : LLMParams -> Thrown + LLMParams)
    (download : string -> string -> FS ->
                FS * (Thrown + (string * option string))) :=
  documind validate download Demo.toPdf (Demo.toImages 2) (Demo.complete [])
           Demo.format Demo.env.

(** Two pages, in sequence, written to "/out". *)
Definition writing : DocumindArgs.t :=
  args (Some "sk-test") Demo.report None (Some "/out") true.

Definition written := run Demo.validate Demo.download writing [] world.
Definition written_state : State := fst written.

(** The same run on a system that does not let the temporary directory
    go. *)
Definition ebusy : Thrown := JsError "Error" "EBUSY: resource busy or locked".

Definition busyEnv : Env :=
  {| BASE_URL := None; osTmpdir := "/tmp"; rand := "4821";
     startTime := 1000; endTime := 1750;
     removeError := fun p =>
       if String.eqb p "/tmp/documind-file-4821" then Some ebusy else None |}.

Definition kept :=
  documind Demo.validate Demo.download Demo.toPdf (Demo.toImages 2)
           (Demo.complete []) Demo.format busyEnv writing [] world.
Definition kept_state : State := fst kept.

(** What the preparation of [Demo.sequential3] leaves to the loop. *)
Definition sequential3_prepared : Prepared :=
  {| ctx := ctxOf Demo.env (Demo.args true None Demo.report) noLLMParams;
     localPath := "/tmp/documind-file-4821/My Report (v2).pdf";
     images := ["page_1.png"; "page_2.png"; "page_3.png"] |}.

(** The third call of [Demo.parallel3], made once the second had settled. *)
Definition thirdCall : CompletionArgs.t :=
  completionArgs
    (ctxOf Demo.env (Demo.args false None Demo.report) noLLMParams)
    "page_3.png" "md page_2.png<>".

End DemoMore.

(** * Properties *)

(** Splits a conjunction into its parts, and nothing else. *)
Ltac conjs := repeat match goal with |- _ /\ _ => split end.

(** ** The file name *)

Section FileName.

Import JsString.

Lemma substring_0_length (m : nat) (s : string) :
  (String.length (substring 0 m s) <= m)%nat.
Proof.
  revert s; induction m as [|m IH]; intros [|c s]; simpl; try lia.
  specialize (IH s); lia.
Qed.

Lemma allChars_substring_0 (p : ascii -> bool) (m : nat) (s : string) :
  allChars p s = true -> allChars p (substring 0 m s) = true.
Proof.
  revert s; induction m as [|m IH]; intros [|c s]; simpl; auto.
  intros [Hc Hs]%andb_true_iff. rewrite Hc; simpl; auto.
Qed.

Lemma lowerChar_word (c : ascii) :
  isWordChar c = true -> isLowerWordChar (lowerChar c) = true.
Proof.
  destruct c as [[] [] [] [] [] [] [] []]; vm_compute; congruence.
Qed.

Lemma lowerChar_lower (c : ascii) :
  isLowerWordChar c = true -> lowerChar c = c.
Proof.
  destruct c as [[] [] [] [] [] [] [] []]; vm_compute; congruence.
Qed.

Lemma strip_chars (s : string) :
  allChars (fun c => isWordChar c || isSpaceChar c)
           (stripNonWordNonSpace s) = true.
Proof.
  induction s as [|c s IH]; simpl; auto.
  destruct (isWordChar c || isSpaceChar c) eqn:E; simpl; auto.
  rewrite E; auto.
Qed.

Lemma replaceSpaceRuns_chars (b : bool) (s : string) :
  allChars (fun c => isWordChar c || isSpaceChar c) s = true ->
  allChars isWordChar (replaceSpaceRuns b s) = true.
Proof.
  revert b; induction s as [|c s IH]; intros b; simpl; auto.
  intros [Hc Hs]%andb_true_iff.
  destruct (isSpaceChar c) eqn:E.
  - destruct b; simpl; auto.
  - rewrite orb_false_r in Hc. simpl. rewrite Hc; simpl; auto.
Qed.

Lemma toLowerCase_chars (s : string) :
  allChars isWordChar s = true ->
  allChars isLowerWordChar (toLowerCase s) = true.
Proof.
  induction s as [|c s IH]; simpl; auto.
  intros [Hc Hs]%andb_true_iff. rewrite lowerChar_word; auto.
Qed.

(** A name without white space is only filtered, lowered and cut. *)
Lemma replaceSpaceRuns_no_space (b : bool) (s : string) :
  allChars (fun c => negb (isSpaceChar c)) s = true ->
  replaceSpaceRuns b s = s.
Proof.
  revert b; induction s as [|c s IH]; intros b; simpl; auto.
  intros [Hc Hs]%andb_true_iff.
  destruct (isSpaceChar c); [discriminate|]. now rewrite IH.
Qed.

Lemma sanitize_length (raw : string) :
  (String.length (sanitize raw) <= 255)%nat.
Proof. apply substring_0_length. Qed.

Lemma sanitize_chars (raw : string) :
  allChars isLowerWordChar (sanitize raw) = true.
Proof.
  unfold sanitize. apply allChars_substring_0, toLowerCase_chars,
    replaceSpaceRuns_chars, strip_chars.
Qed.

(** A name that is already clean and short comes out as it went in. *)
Lemma sanitize_clean (raw : string) :
  allChars isLowerWordChar raw = true ->
  (String.length raw <= 255)%nat ->
  sanitize raw = raw.
Proof.
  intros Hc Hl. unfold sanitize.
  assert (Hs : stripNonWordNonSpace raw = raw).
  { clear Hl. induction raw as [|c s IH]; simpl; auto.
    simpl in Hc. apply andb_true_iff in Hc as [Hc Hs].
    assert (isWordChar c = true) as ->.
    { revert Hc. destruct c as [[] [] [] [] [] [] [] []]; vm_compute; congruence. }
    simpl. now rewrite IH. }
  assert (Hr : replaceSpaceRuns false raw = raw).
  { apply replaceSpaceRuns_no_space. clear Hl Hs.
    induction raw as [|c s IH]; simpl; auto.
    simpl in Hc. apply andb_true_iff in Hc as [Hc Hs].
    rewrite IH by auto. rewrite andb_true_r.
    revert Hc. destruct c as [[] [] [] [] [] [] [] []]; vm_compute; congruence. }
  assert (Hl' : toLowerCase raw = raw).
  { clear Hl Hs Hr. induction raw as [|c s IH]; simpl; auto.
    simpl in Hc. apply andb_true_iff in Hc as [Hc Hs].
    now rewrite lowerChar_lower, IH. }
  rewrite Hs, Hr, Hl'. clear -Hl.
  revert Hl. generalize 255%nat as m.
  induction raw as [|c s IH]; intros [|m]; simpl; auto; try lia.
  intros H. rewrite IH; auto. lia.
Qed.

End FileName.

(** ** Sorting, arrays with holes *)

Lemma insertAsc_perm (x : Z) (l : list Z) : Permutation (x :: l) (insertAsc x l).
Proof.
  induction l as [|y l IH]; simpl; auto.
  destruct (x <=? y)%Z; auto.
  rewrite perm_swap. now constructor.
Qed.

Lemma sortAsc_perm (l : list Z) : Permutation l (sortAsc l).
Proof.
  induction l as [|x l IH]; simpl; auto.
  rewrite <- insertAsc_perm. now constructor.
Qed.

Lemma insertAsc_sorted (x : Z) (l : list Z) :
  Sorted Z.le l -> Sorted Z.le (insertAsc x l).
Proof.
  induction l as [|y l IH]; simpl; intros Hs.
  - repeat constructor.
  - destruct (x <=? y)%Z eqn:E.
    + constructor; auto. constructor. lia.
    + inversion Hs as [|? ? Hs' Hhd]; subst.
      constructor; auto.
      destruct l as [|z l]; simpl in *.
      * constructor. lia.
      * inversion Hhd; subst. destruct (x <=? z)%Z; constructor; lia.
Qed.

Lemma sortAsc_sorted (l : list Z) : Sorted Z.le (sortAsc l).
Proof.
  induction l as [|x l IH]; simpl; [constructor|].
  now apply insertAsc_sorted.
Qed.

Lemma sortAsc_of_sorted (l : list Z) : Sorted Z.le l -> sortAsc l = l.
Proof.
  induction l as [|x l IH]; simpl; auto.
  intros Hs. inversion Hs as [|? ? Hs' Hhd]; subst.
  rewrite IH by auto.
  destruct l as [|y l]; simpl; auto.
  inversion Hhd; subst.
  destruct (x <=? y)%Z eqn:E; auto. lia.
Qed.

Lemma sortAsc_length (l : list Z) : length (sortAsc l) = length l.
Proof. symmetry. apply Permutation_length, sortAsc_perm. Qed.

Lemma jsArraySet_lookup_eq {A} (a : list (option A)) (i : nat) (v : A) :
  jsArraySet a i v !! i = Some (Some v).
Proof.
  unfold jsArraySet. case_decide.
  - now apply list_lookup_insert_eq.
  - rewrite app_assoc, lookup_app_r; rewrite length_app, length_replicate.
    + replace (i - _)%nat with 0%nat by lia. reflexivity.
    + lia.
Qed.

Lemma jsArraySet_lookup_ne {A} (a : list (option A)) (i j : nat) (v w : A) :
  i <> j -> a !! j = Some (Some w) -> jsArraySet a i v !! j = Some (Some w).
Proof.
  intros Hne Hj. unfold jsArraySet. case_decide.
  - now rewrite list_lookup_insert_ne.
  - now apply lookup_app_l_Some.
Qed.

Lemma jsArraySet_length {A} (a : list (option A)) (i : nat) (v : A) :
  length (jsArraySet a i v) = Nat.max (length a) (S i).
Proof.
  unfold jsArraySet. case_decide.
  - rewrite length_insert. lia.
  - rewrite !length_app, length_replicate. simpl. lia.
Qed.

(** An array that has a string in every slot is filtered into those strings,
    in the order of the slots. *)
Lemma filterIsString_full (rs : list (option string)) :
  (forall i, (i < length rs)%nat -> exists v, rs !! i = Some (Some v)) ->
  rs = Some <$> filterIsString rs.
Proof.
  induction rs as [|r rs IH]; intros H; simpl; auto.
  destruct (H 0%nat ltac:(simpl; lia)) as [v Hv]. simpl in Hv.
  injection Hv as ->. unfold filterIsString in *. simpl. f_equal.
  apply IH. intros i Hi. apply (H (S i)). simpl. lia.
Qed.

(** ** The run *)

Section Run.

Variable validateLLMParams : LLMParams -> Thrown + LLMParams.
Variable downloadFile :
  string -> string -> FS -> FS * (Thrown + (string * option string)).
Variable convertFileToPdf :
  string -> string -> string -> FS -> FS * (Thrown + string).
Variable convertPdfToImages :
  string -> Z + list Z -> string -> FS -> FS * (Thrown + unit).
Variable getCompletion :
  CompletionArgs.t -> Thrown + CompletionResponse.t.
Variable formatMarkdown : string -> string.

Local Abbreviation fmt := (formatted formatMarkdown).
Local Abbreviation step := (sequentialStep getCompletion formatMarkdown).
Local Abbreviation call := (processPage_call getCompletion).
Local Abbreviation resume := (processPage_resume formatMarkdown).
Local Abbreviation all := (promiseAll getCompletion formatMarkdown).
Local Abbreviation batches := (processPagesInBatches getCompletion formatMarkdown).
Local Abbreviation prep :=
  (prepare validateLLMParams downloadFile convertFileToPdf convertPdfToImages).
Local Abbreviation exec := (execute getCompletion formatMarkdown).
Local Abbreviation run :=
  (documind validateLLMParams downloadFile convertFileToPdf
            convertPdfToImages getCompletion formatMarkdown).
Local Abbreviation seqLog := (SeqLog getCompletion formatMarkdown).
Local Abbreviation seqFail := (SeqFail getCompletion formatMarkdown).

(** *** The equations of the steps *)

Lemma sequentialStep_eq (c : Ctx) (i : nat) (image : string) (s : State) :
  step c i image s =
  let args := completionArgs c image (priorPage s) in
  let s1 := emit (EvSettle i (getCompletion args)) (emit (EvCall i args) s) in
  match getCompletion args with
  | inr r =>
      (push [fmt r]
            (account (CompletionResponse.inputTokens r)
                     (CompletionResponse.outputTokens r) (fmt r) s1), Ok tt)
  | inl e => (emit (EvConsoleError image e) s1, Throw e)
  end.
Proof.
  unfold sequentialStep, bind, gets, modify, throw. simpl.
  destruct (getCompletion _); reflexivity.
Qed.

Lemma processPage_call_eq (c : Ctx) (i : nat) (image : string) (s : State) :
  call c i image s =
  let args := completionArgs c image (priorPage s) in
  (emit (EvCall i args) s,
   Ok {| p_index := i; p_image := image; p_result := getCompletion args |}).
Proof. reflexivity. Qed.

Lemma processPage_resume_eq (p : Pending) (s : State) :
  resume p s =
  let s1 := emit (EvSettle (p_index p) (p_result p)) s in
  match p_result p with
  | inr r =>
      (account (CompletionResponse.inputTokens r)
               (CompletionResponse.outputTokens r) (fmt r) s1, Ok (fmt r))
  | inl e => (emit (EvConsoleError (p_image p) e) s1, Throw e)
  end.
Proof.
  unfold processPage_resume, bind, modify, throw, ret. simpl.
  destruct (p_result p); reflexivity.
Qed.

(** *** Traces *)

Lemma calls_app (a b : list Event) : calls (a ++ b) = calls a ++ calls b.
Proof. apply omap_app. Qed.

Lemma settles_app (a b : list Event) : settles (a ++ b) = settles a ++ settles b.
Proof. apply omap_app. Qed.

Lemma failures_app (a b : list Event) :
  failures (a ++ b) = failures a ++ failures b.
Proof. apply omap_app. Qed.

Lemma removals_app (a b : list Event) :
  removals (a ++ b) = removals a ++ removals b.
Proof. apply omap_app. Qed.

Lemma tokens_app (f : CompletionResponse.t -> Z) (a b : list Event) :
  tokens f (a ++ b) = (tokens f a + tokens f b)%Z.
Proof.
  induction a as [|ev a IH]; simpl; [lia|].
  destruct ev as [| ? [|] | | |]; lia.
Qed.

Lemma elem_of_calls (tr : list Event) (i : nat) (args : CompletionArgs.t) :
  (i, args) ∈ calls tr <-> EvCall i args ∈ tr.
Proof.
  unfold calls. rewrite list_elem_of_omap. split.
  - intros (ev & Hin & Hev). destruct ev; try discriminate.
    now injection Hev as -> ->.
  - intros Hin. now exists (EvCall i args).
Qed.

Lemma elem_of_settles (tr : list Event) (i : nat)
    (res : Thrown + CompletionResponse.t) :
  (i, res) ∈ settles tr <-> EvSettle i res ∈ tr.
Proof.
  unfold settles. rewrite list_elem_of_omap. split.
  - intros (ev & Hin & Hev). destruct ev; try discriminate.
    now injection Hev as -> ->.
  - intros Hin. now exists (EvSettle i res).
Qed.

Lemma elem_of_failures (tr : list Event) (i : nat) (e : Thrown) :
  (i, e) ∈ failures tr <-> EvSettle i (inl e) ∈ tr.
Proof.
  unfold failures. rewrite list_elem_of_omap. split.
  - intros (ev & Hin & Hev). destruct ev as [| ? [|] | | |]; try discriminate.
    now injection Hev as -> ->.
  - intros Hin. now exists (EvSettle i (inl e)).
Qed.

Lemma elem_of_removals (tr : list Event) (p : string) :
  p ∈ removals tr <-> EvRemove p ∈ tr.
Proof.
  unfold removals. rewrite list_elem_of_omap. split.
  - intros (ev & Hin & Hev). destruct ev; try discriminate.
    now injection Hev as ->.
  - intros Hin. now exists (EvRemove p).
Qed.

(** *** The monad *)

Lemma bind_inv {A B} (m : M A) (k : A -> M B) (s s' : State) (r : Res B) :
  bind m k s = (s', r) ->
  (exists s1 a, m s = (s1, Ok a) /\ k a s1 = (s', r)) \/
  (exists e, m s = (s', Throw e) /\ r = Throw e) \/
  (m s = (s', Stuck) /\ r = Stuck).
Proof.
  unfold bind. destruct (m s) as [s1 [a| |]]; intros H.
  - left; eauto.
  - injection H as <- <-. right; left; eauto.
  - injection H as <- <-. right; right; eauto.
Qed.

(** *** Taking a running task out of the pool *)

Lemma takeActive_spec (i : nat) (l : list Pending) (p : Pending)
    (rest : list Pending) :
  takeActive i l = Some (p, rest) ->
  p_index p = i /\ p ∈ l /\ length l = S (length rest) /\
  (forall q, q ∈ rest -> q ∈ l) /\
  (forall q, q ∈ l -> q = p \/ q ∈ rest).
Proof.
  revert rest; induction l as [|q l IH]; intros rest; simpl; [discriminate|].
  destruct (Nat.eqb_spec (p_index q) i) as [Heq|Hne].
  - intros [= <- <-]. repeat split; auto.
    + apply list_elem_of_here.
    + intros q' Hq'. now apply list_elem_of_further.
    + intros q' [->|Hq']%elem_of_cons; auto.
  - destruct (takeActive i l) as [[q' rest']|] eqn:E; [|discriminate].
    intros [= <- <-].
    destruct (IH rest' eq_refl) as (Hi & Hin & Hlen & Hsub & Hsup).
    repeat split; auto.
    + now apply list_elem_of_further.
    + intros x [->|Hx]%elem_of_cons.
      * apply list_elem_of_here.
      * apply list_elem_of_further; auto.
    + intros x [->|Hx]%elem_of_cons.
      * right; apply list_elem_of_here.
      * destruct (Hsup x Hx); auto. right. now apply list_elem_of_further.
Qed.

(** *** An invariant of the pool holds when [Promise.all] settles *)

Section PromiseAllRule.

Variable c : Ctx.
Variable limit : Z.
Variable P : Pool -> State -> Prop.
Variable Q : Thrown -> State -> Prop.

Hypothesis P_start :
  forall pool s index image waiting,
    P pool s -> queue pool = (index, image) :: waiting ->
    let args := completionArgs c image (priorPage s) in
    P {| queue := waiting;
         active := active pool ++
           [{| p_index := index; p_image := image;
               p_result := getCompletion args |}];
         results := results pool |}
      (emit (EvCall index args) s).

Hypothesis P_finish :
  forall pool s index p running r,
    P pool s -> takeActive index (active pool) = Some (p, running) ->
    p_result p = inr r ->
    P {| queue := queue pool; active := running;
         results := jsArraySet (results pool) (p_index p) (fmt r) |}
      (account (CompletionResponse.inputTokens r)
               (CompletionResponse.outputTokens r) (fmt r)
               (emit (EvSettle (p_index p) (inr r)) s)).

Hypothesis Q_fail :
  forall pool s index p running e,
    P pool s -> takeActive index (active pool) = Some (p, running) ->
    p_result p = inl e ->
    Q e (emit (EvConsoleError (p_image p) e)
              (emit (EvSettle (p_index p) (inl e)) s)).

Lemma promiseAll_rule (sched : list SchedEvent) :
  forall pool s s' res,
    P pool s -> all c limit sched pool s = (s', res) ->
    match res with
    | Ok rs => exists pool',
        P pool' s' /\ queue pool' = [] /\ active pool' = [] /\
        results pool' = rs
    | Throw e => Q e s'
    | Stuck => exists pool', P pool' s'
    end.
Proof.
  induction sched as [|ev sched IH]; intros pool s s' res HP; simpl.
  - destruct (queue pool) eqn:Eq, (active pool) eqn:Ea;
      intros [= <- <-]; eauto.
  - destruct ev as [|index].
    + destruct (queue pool) as [|[index image] waiting] eqn:Eq;
        [intros [= <- <-]; eauto|].
      destruct (_ <? _)%Z; [|intros [= <- <-]; eauto].
      unfold bind. rewrite processPage_call_eq. cbv zeta.
      apply IH. now apply P_start.
    + destruct (takeActive index (active pool)) as [[p running]|] eqn:Et;
        [|intros [= <- <-]; eauto].
      unfold bind. rewrite processPage_resume_eq. cbv zeta.
      destruct (p_result p) as [e|r] eqn:Er.
      * intros [= <- <-]. eapply Q_fail; eauto.
      * apply IH. eapply P_finish; eauto.
Qed.

End PromiseAllRule.

(** *** The parallel executor *)

Lemma drop_imap_head (images : list string) (d index : nat) (image : string)
    (waiting : list (nat * string)) :
  drop d (imap (fun index image => (index, image)) images)
  = (index, image) :: waiting ->
  index = d /\ images !! d = Some image /\
  waiting = drop (S d) (imap (fun index image => (index, image)) images).
Proof.
  intros H.
  assert (Hl : imap (fun index image => (index, image)) images !! d
               = Some (index, image)).
  { rewrite <- (Nat.add_0_r d), <- lookup_drop, H. reflexivity. }
  pose proof Hl as Hl'. rewrite list_lookup_imap in Hl'.
  destruct (images !! d) as [img|] eqn:E; [|discriminate].
  simpl in Hl'. injection Hl' as <- <-.
  rewrite (drop_S _ _ _ Hl) in H. injection H as <-. auto.
Qed.

Lemma ParInv_init (c : Ctx) (images : list string) (s : State) :
  trace s = [] ->
  ParInv getCompletion formatMarkdown c images
    {| queue := imap (fun index image => (index, image)) images;
       active := []; results := [] |} s.
Proof.
  intros Ht. exists 0%nat. rewrite Ht. simpl. conjs; auto; try lia.
  - intros i args Hin. now apply elem_of_nil in Hin.
  - intros p Hin. now apply elem_of_nil in Hin.
Qed.

Lemma ParInv_start (c : Ctx) (images : list string) (pool : Pool) (s : State)
    (index : nat) (image : string) (waiting : list (nat * string)) :
  ParInv getCompletion formatMarkdown c images pool s ->
  queue pool = (index, image) :: waiting ->
  let args := completionArgs c image (priorPage s) in
  ParInv getCompletion formatMarkdown c images
    {| queue := waiting;
       active := active pool ++
         [{| p_index := index; p_image := image;
             p_result := getCompletion args |}];
       results := results pool |}
    (emit (EvCall index args) s).
Proof.
  intros (d & Hq & Hd & Hc & Hn & Hf & HA & HB & HC & HD) Hqueue args.
  rewrite Hq in Hqueue.
  apply drop_imap_head in Hqueue as (-> & Himg & ->).
  assert (d < length images)%nat by (eapply lookup_lt_Some; eauto).
  exists (S d). simpl.
  rewrite calls_app, settles_app, failures_app. simpl.
  rewrite !app_nil_r, fmap_app, Hc, length_app. simpl.
  conjs; auto; try lia.
  - exact (eq_sym (seq_S d 0)).
  - intros i a [Hin| [= -> ->]%list_elem_of_singleton]%elem_of_app; eauto.
  - intros p [Hin| ->%list_elem_of_singleton]%elem_of_app.
    + destruct (HB p Hin) as (a & Ha & Hr). exists a. split; auto.
      apply elem_of_app; auto.
    + exists args. split; auto. apply elem_of_app. right.
      now apply list_elem_of_singleton.
  - intros i Hi. destruct (decide (i = d)) as [->|Hne].
    + left. eexists. split; [apply elem_of_app; right;
                             apply list_elem_of_singleton; reflexivity|].
      reflexivity.
    + destruct (HC i ltac:(lia)) as [(p & Hp & Hpi)|(a & r & Ha & Hg & Hs & Hr)].
      * left. exists p. split; auto. apply elem_of_app; auto.
      * right. exists a, r. conjs; auto. apply elem_of_app; auto.
Qed.

Lemma call_index_lt (tr : list Event) (d i : nat) (args : CompletionArgs.t) :
  (calls tr).*1 = seq 0 d -> (i, args) ∈ calls tr -> (i < d)%nat.
Proof.
  intros Hc Hin.
  assert (Hi : i ∈ (calls tr).*1).
  { apply list_elem_of_fmap. now exists (i, args). }
  rewrite Hc in Hi. apply elem_of_seq in Hi. lia.
Qed.

Lemma ParInv_finish (c : Ctx) (images : list string) (pool : Pool) (s : State)
    (index : nat) (p : Pending) (running : list Pending)
    (r : CompletionResponse.t) :
  ParInv getCompletion formatMarkdown c images pool s ->
  takeActive index (active pool) = Some (p, running) ->
  p_result p = inr r ->
  ParInv getCompletion formatMarkdown c images
    {| queue := queue pool; active := running;
       results := jsArraySet (results pool) (p_index p) (fmt r) |}
    (account (CompletionResponse.inputTokens r)
             (CompletionResponse.outputTokens r) (fmt r)
             (emit (EvSettle (p_index p) (inr r)) s)).
Proof.
  intros (d & Hq & Hd & Hc & Hn & Hf & HA & HB & HC & HD) Ht Hr.
  apply takeActive_spec in Ht as (Hi & Hin & Hlen & Hsub & Hsup).
  destruct (HB p Hin) as (a & Ha & Hres).
  pose proof (call_index_lt _ _ _ _ Hc Ha) as Hlt.
  exists d. simpl.
  rewrite calls_app, settles_app, failures_app. simpl.
  rewrite !app_nil_r, length_app. simpl.
  conjs; auto; try lia.
  - intros i Hid. destruct (decide (i = p_index p)) as [->|Hne].
    + right. exists a, r. conjs; auto.
      * congruence.
      * apply elem_of_app. right. now apply list_elem_of_singleton.
      * apply jsArraySet_lookup_eq.
    + destruct (HC i Hid) as [(q & Hq' & Hqi)|(a' & r' & Ha' & Hg & Hs & Hr')].
      * left. exists q. split; auto.
        destruct (Hsup q Hq') as [->|]; auto. congruence.
      * right. exists a', r'. conjs; auto.
        -- apply elem_of_app; auto.
        -- apply jsArraySet_lookup_ne; auto.
  - rewrite jsArraySet_length. lia.
Qed.

Lemma batches_spec (c : Ctx) (images : list string) (limit : Z)
    (sched : list SchedEvent) (s s' : State) (res : Res (list (option string))) :
  trace s = [] ->
  batches c images limit sched s = (s', res) ->
  match res with
  | Ok rs =>
      (calls (trace s')).*1 = seq 0 (length images) /\
      length (settles (trace s')) = length images /\
      failures (trace s') = [] /\
      length (filterIsString rs) = length images /\
      (forall i args, (i, args) ∈ calls (trace s') ->
         exists image prior, images !! i = Some image /\
                             args = completionArgs c image prior) /\
      (forall i, (i < length images)%nat ->
         exists args r, (i, args) ∈ calls (trace s') /\
                        getCompletion args = inr r /\
                        (i, inr r) ∈ settles (trace s') /\
                        filterIsString rs !! i = Some (fmt r))
  | Throw e => exists k, failures (trace s') = [(k, e)]
  | Stuck => failures (trace s') = []
  end.
Proof.
  intros Ht Hrun. unfold processPagesInBatches in Hrun.
  pose proof (promiseAll_rule c limit
                (ParInv getCompletion formatMarkdown c images)
                (fun e t => exists k, failures (trace t) = [(k, e)])) as Rule.
  eapply Rule in Hrun; clear Rule.
  - destruct res as [rs|e|]; auto.
    + destruct Hrun as (pool' & (d & Hq & Hd & Hc & Hn & Hf & HA & HB & HC & HD)
                        & Hq0 & Ha0 & <-).
      assert (d = length images) as ->.
      { rewrite Hq0 in Hq. apply (f_equal length) in Hq.
        rewrite length_drop, length_imap in Hq. simpl in Hq. lia. }
      rewrite Ha0 in Hn. simpl in Hn.
      assert (Hslot : forall i, (i < length images)%nat ->
                exists args r, (i, args) ∈ calls (trace s') /\
                  getCompletion args = inr r /\
                  (i, inr r) ∈ settles (trace s') /\
                  results pool' !! i = Some (Some (fmt r))).
      { intros i Hi. destruct (HC i Hi) as [(p & Hp & _)|H]; auto.
        rewrite Ha0 in Hp. now apply elem_of_nil in Hp. }
      assert (Hlen : length (results pool') = length images).
      { destruct (length images) as [|n] eqn:E; [lia|].
        destruct (Hslot n ltac:(lia)) as (a & r & _ & _ & _ & Hr).
        apply lookup_lt_Some in Hr. lia. }
      assert (Hfull : results pool' = Some <$> filterIsString (results pool')).
      { apply filterIsString_full. intros i Hi.
        destruct (Hslot i ltac:(lia)) as (a & r & _ & _ & _ & Hr). eauto. }
      conjs; auto; try lia.
      * rewrite <- Hlen. rewrite Hfull at 2. now rewrite length_fmap.
      * intros i Hi. destruct (Hslot i Hi) as (a & r & Ha & Hg & Hs & Hr).
        exists a, r. conjs; auto.
        rewrite Hfull, list_lookup_fmap in Hr.
        destruct (filterIsString (results pool') !! i); simpl in Hr; congruence.
    + destruct Hrun as (pool' & (d & _ & _ & _ & _ & Hf & _)). exact Hf.
  - intros. now apply ParInv_start.
  - intros. eapply ParInv_finish; eauto.
  - intros pool0 s0 index p running e (d & _ & _ & _ & _ & Hf & _) _ _.
    exists (p_index p). simpl. rewrite !failures_app, Hf. reflexivity.
  - now apply ParInv_init.
Qed.

(** *** The counters and the store *)

Lemma Booked_call (s : State) (i : nat) (args : CompletionArgs.t) :
  Booked s -> Booked (emit (EvCall i args) s).
Proof.
  unfold Booked. simpl. rewrite !tokens_app, removals_app. simpl.
  intros (-> & -> & ->). conjs; auto; lia.
Qed.

Lemma Booked_console (s : State) (image : string) (e : Thrown) :
  Booked s -> Booked (emit (EvConsoleError image e) s).
Proof.
  unfold Booked. simpl. rewrite !tokens_app, removals_app. simpl.
  intros (-> & -> & ->). conjs; auto; lia.
Qed.

Lemma Booked_fail (s : State) (i : nat) (e : Thrown) :
  Booked s -> Booked (emit (EvSettle i (inl e)) s).
Proof.
  unfold Booked. simpl. rewrite !tokens_app, removals_app. simpl.
  intros (-> & -> & ->). conjs; auto; lia.
Qed.

Lemma Booked_ok (s : State) (i : nat) (r : CompletionResponse.t) (md : string) :
  Booked s ->
  Booked (account (CompletionResponse.inputTokens r)
                  (CompletionResponse.outputTokens r) md
                  (emit (EvSettle i (inr r)) s)).
Proof.
  unfold Booked. simpl. rewrite !tokens_app, removals_app. simpl.
  intros (-> & -> & ->). conjs; auto; lia.
Qed.

Lemma Booked_push (s : State) (mds : list string) :
  Booked s -> Booked (push mds s).
Proof. auto. Qed.

Lemma promiseAll_books (c : Ctx) (limit : Z) (sched : list SchedEvent)
    (pool : Pool) (s s' : State) (res : Res (list (option string))) :
  Booked s ->
  all c limit sched pool s = (s', res) ->
  Booked s' /\ sameStore s s' /\ aggregatedMarkdown s' = aggregatedMarkdown s.
Proof.
  intros Hb Hrun.
  pose (I := fun t => Booked t /\ sameStore s t /\
                      aggregatedMarkdown t = aggregatedMarkdown s).
  pose proof (promiseAll_rule c limit (fun _ t => I t) (fun _ t => I t)) as Rule.
  eapply Rule in Hrun; clear Rule.
  - destruct res; [destruct Hrun as (? & ? & _)|auto|destruct Hrun]; auto.
  - intros ? ? ? ? ? (? & (? & ?) & ?) _ ?. subst I. simpl.
    conjs; auto using Booked_call. split; auto.
  - intros ? ? ? ? ? ? (? & (? & ?) & ?) _ _. subst I. simpl.
    conjs; auto using Booked_ok. split; auto.
  - intros ? ? ? ? ? ? (? & (? & ?) & ?) _ _. subst I. simpl.
    conjs; auto using Booked_console, Booked_fail. split; auto.
  - subst I. simpl. conjs; auto. split; auto.
Qed.

(** *** The sequential executor *)

Lemma forOf_seq (c : Ctx) (images : list string) :
  forall k s s' res,
    seqLog c (calls (trace s)) (settles (trace s)) (priorPage s) ->
    k = length (calls (trace s)) ->
    forOf k images (step c) s = (s', res) ->
    match res with
    | Ok _ =>
        seqLog c (calls (trace s')) (settles (trace s')) (priorPage s') /\
        length (calls (trace s')) = (k + length images)%nat /\
        length (aggregatedMarkdown s')
        = (length (aggregatedMarkdown s) + length images)%nat
    | Throw e => seqFail c e (calls (trace s')) (settles (trace s'))
    | Stuck => False
    end.
Proof.
  induction images as [|image images IH]; intros k s s' res Hlog ->; simpl.
  - intros [= <- <-]. conjs; auto; lia.
  - unfold bind. rewrite sequentialStep_eq. cbv zeta.
    destruct (getCompletion (completionArgs c image (priorPage s)))
      as [e|r] eqn:Eg.
    + intros [= <- <-]. simpl.
      rewrite !calls_app, !settles_app. simpl. rewrite !app_nil_r.
      now constructor.
    + intros Hrest. apply IH in Hrest.
      * destruct res; auto. simpl in Hrest. rewrite length_app in Hrest.
        simpl in Hrest. destruct Hrest as (? & ? & ?). conjs; auto; lia.
      * simpl. rewrite !calls_app, !settles_app. simpl. rewrite !app_nil_r.
        now constructor.
      * simpl. rewrite !calls_app, !length_app. simpl. lia.
Qed.

Lemma forOf_books (c : Ctx) (images : list string) :
  forall k s s' res,
    Booked s ->
    forOf k images (step c) s = (s', res) ->
    Booked s' /\ sameStore s s'.
Proof.
  induction images as [|image images IH]; intros k s s' res Hb; simpl.
  - intros [= <- <-]. split; [auto | split; reflexivity].
  - unfold bind. rewrite sequentialStep_eq. cbv zeta.
    destruct (getCompletion (completionArgs c image (priorPage s)))
      as [e|r] eqn:Eg.
    + intros [= <- <-]. split; [|split; reflexivity].
      auto using Booked_console, Booked_fail, Booked_call.
    + intros Hrest. apply IH in Hrest as (Hb' & Hf & Hh).
      * split; auto. split; [exact Hf | exact Hh].
      * auto using Booked_push, Booked_ok, Booked_call.
Qed.

Lemma SeqLog_facts (c : Ctx) cs ss (prior : string) :
  seqLog c cs ss prior ->
  length ss = length cs /\
  Threaded formatMarkdown cs ss /\
  match length cs with
  | O => prior = ""
  | S k => exists r, ss !! k = Some (k, inr r) /\ prior = fmt r
  end /\
  (forall i res, (i, res) ∈ ss -> exists r, res = inr r) /\
  (forall j a, (j, a) ∈ cs -> (j < length cs)%nat).
Proof.
  induction 1 as [|cs ss prior image r Hlog IH Hg].
  - conjs.
    + reflexivity.
    + intros i j args Hl. discriminate.
    + reflexivity.
    + intros i res Hin. now apply elem_of_nil in Hin.
    + intros j a Hin. now apply elem_of_nil in Hin.
  - destruct IH as (Hlen & Hthr & Hprior & Hok & Hlt).
    rewrite !length_app. simpl.
    replace (length cs + 1)%nat with (S (length cs)) by lia.
    conjs.
    + lia.
    + intros i j args Hl.
      destruct (decide (i < length cs)%nat) as [Hi|Hi].
      * rewrite lookup_app_l in Hl by auto.
        destruct (Hthr i j args Hl) as [-> Hp]. split; auto.
        destruct i; auto. destruct Hp as (r' & Hs & Hp). exists r'.
        split; auto. now apply lookup_app_l_Some.
      * rewrite lookup_app_r in Hl by lia.
        destruct (i - length cs)%nat eqn:E; [|now destruct n].
        injection Hl as <- <-. assert (i = length cs) as -> by lia.
        split; auto. simpl.
        destruct (length cs) as [|k] eqn:Ek; auto.
        destruct Hprior as (r' & Hs & ->). exists r'.
        split; auto. now apply lookup_app_l_Some.
    + exists r. split; auto. rewrite lookup_app_r by lia.
      now replace (length cs - length ss)%nat with 0%nat by lia.
    + intros i res [Hin|[= -> ->]%list_elem_of_singleton]%elem_of_app; eauto.
    + intros j a [Hin|[= -> ->]%list_elem_of_singleton]%elem_of_app.
      * specialize (Hlt _ _ Hin). lia.
      * lia.
Qed.

Lemma SeqFail_facts (c : Ctx) (e : Thrown) cs ss :
  seqFail c e cs ss ->
  Threaded formatMarkdown cs ss /\
  exists n, length cs = S n /\
    (forall k e', (k, inl e') ∈ ss -> k = n /\ e' = e) /\
    (forall j a, (j, a) ∈ cs -> (j <= n)%nat).
Proof.
  intros [cs0 ss0 prior image Hlog Hg].
  destruct (SeqLog_facts _ _ _ _ Hlog) as (Hlen & Hthr & Hprior & Hok & Hlt).
  split.
  - intros i j args Hl.
    destruct (decide (i < length cs0)%nat) as [Hi|Hi].
    + rewrite lookup_app_l in Hl by auto.
      destruct (Hthr i j args Hl) as [-> Hp]. split; auto.
      destruct i; auto. destruct Hp as (r' & Hs & Hp). exists r'.
      split; auto. now apply lookup_app_l_Some.
    + rewrite lookup_app_r in Hl by lia.
      destruct (i - length cs0)%nat eqn:E; [|now destruct n].
      injection Hl as <- <-. assert (i = length cs0) as -> by lia.
      split; auto. simpl.
      destruct (length cs0) as [|k] eqn:Ek; auto.
      destruct Hprior as (r' & Hs & ->). exists r'.
      split; auto. now apply lookup_app_l_Some.
  - exists (length cs0). rewrite length_app. simpl. conjs.
    + lia.
    + intros k e' [Hin|[= -> ->]%list_elem_of_singleton]%elem_of_app; auto.
      destruct (Hok _ _ Hin); discriminate.
    + intros j a [Hin|[= -> ->]%list_elem_of_singleton]%elem_of_app.
      * specialize (Hlt _ _ Hin). lia.
      * lia.
Qed.

(** *** Before and after the executors *)

(** Case analysis on what a run has looked at, innermost test first. *)
Ltac run_cases H :=
  repeat (match type of H with
          | context [match ?x with _ => _ end] =>
              lazymatch x with
              | context [match _ with _ => _ end] => fail
              | _ => destruct x eqn:?
              end
          end; simpl in H).

Lemma prepare_any (env : Env) (a : DocumindArgs.t) (s s1 : State)
    (r : Res Prepared) :
  prep env a s = (s1, r) ->
  r <> Stuck /\ sameLocals s s1 /\
  (heap s1 = heap s \/ heap s1 = heapAfterSort a (heap s)).
Proof.
  intros H. unfold heapAfterSort.
  unfold prepare, convertToImages, sortPages, ensureDir, readdir, onFs, bind,
    ret, throw, modify, gets in H. simpl in H.
  run_cases H; injection H as <- <-; simpl;
    (split; [discriminate | split; [repeat split | ]]);
    auto.
Qed.

Lemma prepare_Ok (env : Env) (a : DocumindArgs.t) (s s1 : State)
    (p : Prepared) :
  prep env a s = (s1, Ok p) ->
  exists llm fs2 ext files,
    validateLLMParams (default noLLMParams (DocumindArgs.llmParams a))
    = inr llm /\
    default "" (DocumindArgs.openaiAPIKey a) <> "" /\
    DocumindArgs.filePath a <> "" /\
    downloadFile (DocumindArgs.filePath a) (tempDirectoryOf env a)
                 (ensureDirFs (tempDirectoryOf env a) (fsys s))
    = (fs2, inr (ext, Some (localPath p))) /\
    localPath p <> "" /\
    ctx p = ctxOf env a llm /\
    heap s1 = heapAfterSort a (heap s) /\
    fsys s1 !! tempDirectoryOf env a = Some files /\
    images p = List.filter (fun file => JsString.endsWith file ".png") files /\
    sameLocals s s1.
Proof.
  intros H. unfold heapAfterSort.
  unfold prepare, convertToImages, sortPages, ensureDir, readdir, onFs, bind,
    ret, throw, modify, gets in H. simpl in H.
  run_cases H; try discriminate; injection H as <- <-; simpl;
    (eexists _, _, _, _; conjs;
     try reflexivity; try (now apply String.eqb_neq); try eassumption;
     repeat split).
Qed.

(** Once the file has been downloaded the array is sorted, whatever happens
    to the run afterwards. *)
Lemma prepare_sorts (env : Env) (a : DocumindArgs.t) (s s1 : State)
    (r : Res Prepared) (llm : LLMParams) (fs2 : FS) (ext lp : string) :
  validateLLMParams (default noLLMParams (DocumindArgs.llmParams a))
  = inr llm ->
  default "" (DocumindArgs.openaiAPIKey a) <> "" ->
  DocumindArgs.filePath a <> "" ->
  downloadFile (DocumindArgs.filePath a) (tempDirectoryOf env a)
               (ensureDirFs (tempDirectoryOf env a) (fsys s))
  = (fs2, inr (ext, Some lp)) ->
  lp <> "" ->
  prep env a s = (s1, r) ->
  heap s1 = heapAfterSort a (heap s).
Proof.
  intros Hv Hk%String.eqb_neq Hf%String.eqb_neq Hd Hl%String.eqb_neq H.
  unfold heapAfterSort.
  unfold prepare, convertToImages, sortPages, ensureDir, readdir, onFs, bind,
    ret, throw, modify, gets in H. simpl in H.
  rewrite Hv, Hk, Hf, Hd in H. simpl in H. rewrite Hl in H.
  run_cases H; injection H as <- <-; reflexivity.
Qed.

Lemma finish_spec (env : Env) (a : DocumindArgs.t) (p : Prepared)
    (s s' : State) (r : Res DocumindOutput.t) :
  finish env a p s = (s', r) ->
  heap s' = heap s /\
  calls (trace s') = calls (trace s) /\
  settles (trace s') = settles (trace s) /\
  failures (trace s') = failures (trace s) /\
  match r with
  | Ok out =>
      out = {| DocumindOutput.completionTime := (endTime env - startTime env)%Z;
               DocumindOutput.fileName := fileNameOf (localPath p);
               DocumindOutput.inputTokens := inputTokenCount s;
               DocumindOutput.outputTokens := outputTokenCount s;
               DocumindOutput.pages :=
                 formattedPages (pagesOf a) (heap s) (aggregatedMarkdown s) |} /\
      tokens CompletionResponse.inputTokens (trace s')
      = tokens CompletionResponse.inputTokens (trace s) /\
      tokens CompletionResponse.outputTokens (trace s')
      = tokens CompletionResponse.outputTokens (trace s) /\
      removals (trace s')
      = removals (trace s) ++
        (if default true (DocumindArgs.cleanup a)
         then [c_tempDirectory (ctx p)] else []) /\
      (default true (DocumindArgs.cleanup a) = true ->
       fsys s' !! c_tempDirectory (ctx p) = None)
  | Throw e => removals (trace s') = removals (trace s)
  | Stuck => False
  end.
Proof.
  intros H.
  unfold finish, writeFile, remove, bind, ret, throw, modify, gets in H.
  simpl in H.
  run_cases H; injection H as <- <-; simpl;
    rewrite ?calls_app, ?settles_app, ?failures_app, ?removals_app,
      ?tokens_app; simpl; rewrite ?app_nil_r;
    conjs; auto; try lia; try discriminate;
    intros _; apply lookup_delete_eq.
Qed.

Lemma indexed_functional {A} (l : list (nat * A)) (d i : nat) (x y : A) :
  l.*1 = seq 0 d -> (i, x) ∈ l -> (i, y) ∈ l -> x = y.
Proof.
  intros Hl [k1 H1]%list_elem_of_lookup_1 [k2 H2]%list_elem_of_lookup_1.
  assert (Hk : forall k z, l !! k = Some (i, z) -> k = i).
  { intros k z Hk.
    assert (Hf : l.*1 !! k = Some i) by now rewrite list_lookup_fmap, Hk.
    rewrite Hl in Hf. apply lookup_seq in Hf. lia. }
  rewrite (Hk _ _ H1) in H1. rewrite (Hk _ _ H2) in H2. congruence.
Qed.

Lemma formattedPages_lookup (pa : PagesArg) (h : Heap) (agg : list string)
    (i : nat) (pg : Page.t) :
  formattedPages pa h agg !! i = Some pg ->
  exists el, agg !! i = Some el /\
    pg = {| Page.content := el; Page.page := pageNumber pa h i;
            Page.contentLength := String.length el |}.
Proof.
  unfold formattedPages. rewrite list_lookup_imap.
  destruct (agg !! i) as [el|]; simpl; [|discriminate].
  intros [= <-]. eauto.
Qed.

Lemma formattedPages_length (pa : PagesArg) (h : Heap) (agg : list string) :
  length (formattedPages pa h agg) = length agg.
Proof. apply length_imap. Qed.

(** *** The two executors from the start of a run *)

Lemma exec_seq (a : DocumindArgs.t) (sched : list SchedEvent) (p : Prepared)
    (s s' : State) (r : Res unit) :
  c_maintainFormat (ctx p) = true ->
  trace s = [] -> priorPage s = "" -> aggregatedMarkdown s = [] -> Booked s ->
  exec a sched p s = (s', r) ->
  Booked s' /\ sameStore s s' /\
  match r with
  | Ok _ =>
      seqLog (ctx p) (calls (trace s')) (settles (trace s')) (priorPage s') /\
      length (calls (trace s')) = length (images p) /\
      length (aggregatedMarkdown s') = length (images p)
  | Throw e => seqFail (ctx p) e (calls (trace s')) (settles (trace s'))
  | Stuck => False
  end.
Proof.
  intros Hm Ht Hp Ha Hb H. unfold execute in H. rewrite Hm in H.
  pose proof (forOf_books _ _ _ _ _ _ Hb H) as (Hb' & Hst).
  split; auto. split; auto.
  apply forOf_seq in H.
  - destruct r; auto. rewrite Ha in H. exact H.
  - rewrite Ht, Hp. constructor.
  - now rewrite Ht.
Qed.

Lemma exec_par (a : DocumindArgs.t) (sched : list SchedEvent) (p : Prepared)
    (s s' : State) (r : Res unit) :
  c_maintainFormat (ctx p) = false ->
  trace s = [] -> aggregatedMarkdown s = [] -> Booked s ->
  exec a sched p s = (s', r) ->
  Booked s' /\ sameStore s s' /\
  match r with
  | Ok _ =>
      (calls (trace s')).*1 = seq 0 (length (images p)) /\
      length (settles (trace s')) = length (images p) /\
      failures (trace s') = [] /\
      length (aggregatedMarkdown s') = length (images p) /\
      (forall i args, (i, args) ∈ calls (trace s') ->
         exists image prior, images p !! i = Some image /\
                             args = completionArgs (ctx p) image prior) /\
      (forall i, (i < length (images p))%nat ->
         exists args r, (i, args) ∈ calls (trace s') /\
                        getCompletion args = inr r /\
                        (i, inr r) ∈ settles (trace s') /\
                        aggregatedMarkdown s' !! i = Some (fmt r))
  | Throw e =>
      (exists k, failures (trace s') = [(k, e)]) \/
      (trace s' = [] /\ e = concurrencyError)
  | Stuck => failures (trace s') = []
  end.
Proof.
  intros Hm Ht Ha Hb H. unfold execute in H. rewrite Hm in H.
  unfold bind, pLimit in H.
  destruct (1 <=? default 10 (DocumindArgs.concurrency a))%Z.
  - unfold ret in H.
    destruct (batches (ctx p) (images p) _ sched s) as [s2 res] eqn:Eb.
    pose proof Eb as Ebooks. unfold processPagesInBatches in Ebooks.
    apply promiseAll_books in Ebooks as (Hb2 & Hst & Hagg); auto.
    apply batches_spec in Eb; auto.
    destruct res as [rs|e|]; injection H as <- <-;
      (split; [exact Hb2|]; split; [exact Hst|]).
    + simpl. rewrite Hagg, Ha. simpl. exact Eb.
    + left. exact Eb.
    + exact Eb.
  - unfold throw in H. injection H as <- <-.
    split; [exact Hb|]. split; [split; reflexivity|]. right. auto.
Qed.

(** *** The three parts of a run *)

Lemma run_inv (env : Env) (a : DocumindArgs.t) (sched : list SchedEvent)
    (w : World) (s' : State) (r : Res DocumindOutput.t) :
  run env a sched w = (s', r) ->
  (exists e, prep env a (initState w) = (s', Throw e) /\ r = Throw e) \/
  (exists s1 p, prep env a (initState w) = (s1, Ok p) /\
     ((exists e, exec a sched p s1 = (s', Throw e) /\ r = Throw e) \/
      (exec a sched p s1 = (s', Stuck) /\ r = Stuck) \/
      (exists s2, exec a sched p s1 = (s2, Ok tt) /\
                  finish env a p s2 = (s', r)))).
Proof.
  unfold documind. intros H.
  apply bind_inv in H as [(s1 & p & Hp & H)|[(e & Hp & ->)|(Hp & ->)]].
  - right. exists s1, p. split; auto.
    apply bind_inv in H as [(s2 & [] & He & H)|[(e & He & ->)|(He & ->)]];
      eauto 10.
  - left. eauto.
  - apply prepare_any in Hp as (Hns & _). congruence.
Qed.

Lemma run_Ok (env : Env) (a : DocumindArgs.t) (sched : list SchedEvent)
    (w : World) (s' : State) (out : DocumindOutput.t) :
  run env a sched w = (s', Ok out) ->
  exists s1 p s2,
    prep env a (initState w) = (s1, Ok p) /\
    exec a sched p s1 = (s2, Ok tt) /\
    finish env a p s2 = (s', Ok out).
Proof.
  intros H. apply run_inv in H as [(e & _ & H)|(s1 & p & Hp & H)];
    [discriminate|].
  destruct H as [(e & _ & H)|[(_ & H)|(s2 & He & Hf)]]; try discriminate.
  exists s1, p, s2. auto.
Qed.

Lemma prepared_fresh (env : Env) (a : DocumindArgs.t) (w : World) (s1 : State)
    (r : Res Prepared) :
  prep env a (initState w) = (s1, r) ->
  trace s1 = [] /\ priorPage s1 = "" /\ aggregatedMarkdown s1 = [] /\
  Booked s1.
Proof.
  intros H. apply prepare_any in H as (_ & (Ht & Hi & Ho & Hp & Ha) & _).
  unfold Booked. rewrite Ht, Hi, Ho, Hp, Ha. repeat split.
Qed.

Lemma failures_nil (tr : list Event) :
  (forall i res, (i, res) ∈ settles tr -> exists r, res = inr r) ->
  failures tr = [].
Proof.
  intros H. apply elem_of_nil_inv. intros [i e] Hin.
  apply elem_of_failures, elem_of_settles, H in Hin as [r Hr]. discriminate.
Qed.

Lemma Threaded_indices cs ss :
  Threaded formatMarkdown cs ss -> cs.*1 = seq 0 (length cs).
Proof.
  intros Hthr. apply list_eq. intros i.
  rewrite list_lookup_fmap.
  destruct (cs !! i) as [[j args]|] eqn:E; simpl.
  - destruct (Hthr _ _ _ E) as [-> _].
    symmetry. apply lookup_seq. split; auto.
    now apply lookup_lt_Some in E.
  - symmetry. apply lookup_seq_ge. now apply lookup_ge_None in E.
Qed.

(** What both executors leave behind when they complete. *)
Lemma exec_Ok (a : DocumindArgs.t) (sched : list SchedEvent) (p : Prepared)
    (s s' : State) :
  trace s = [] -> priorPage s = "" -> aggregatedMarkdown s = [] -> Booked s ->
  exec a sched p s = (s', Ok tt) ->
  Booked s' /\ sameStore s s' /\
  failures (trace s') = [] /\
  (calls (trace s')).*1 = seq 0 (length (images p)) /\
  length (settles (trace s')) = length (images p) /\
  length (aggregatedMarkdown s') = length (images p).
Proof.
  intros Ht Hp Ha Hb H.
  destruct (c_maintainFormat (ctx p)) eqn:Hm.
  - apply exec_seq in H as (Hb' & Hst & Hlog & Hlc & Hla); auto.
    apply SeqLog_facts in Hlog as (Hlen & Hthr & _ & Hok & _).
    conjs; auto.
    + now apply failures_nil.
    + rewrite <- Hlc. eapply Threaded_indices; eauto.
    + congruence.
  - apply exec_par in H as (Hb' & Hst & Hc & Hs & Hf & Hl & _); auto.
    conjs; auto.
Qed.

(** A sequential run leaves the log of an unbroken chain of calls, or of
    such a chain ended by the failure the run is rejected with. *)
Lemma run_seq (env : Env) (a : DocumindArgs.t) (sched : list SchedEvent)
    (w : World) (s' : State) (r : Res DocumindOutput.t) :
  default false (DocumindArgs.maintainFormat a) = true ->
  run env a sched w = (s', r) ->
  (exists c prior, seqLog c (calls (trace s')) (settles (trace s')) prior) \/
  (exists c e, seqFail c e (calls (trace s')) (settles (trace s')) /\
               r = Throw e).
Proof.
  intros Hm H. apply run_inv in H as [(e & Hp & ->)|(s1 & p & Hp & H)].
  - left. exists (ctxOf env a noLLMParams), "".
    apply prepared_fresh in Hp as (-> & _). constructor.
  - pose proof (prepared_fresh _ _ _ _ _ Hp) as (Ht & Hpp & Ha & Hb).
    apply prepare_Ok in Hp
      as (llm & fs2 & ext & files & _ & _ & _ & _ & _ & Hctx & _).
    assert (Hmf : c_maintainFormat (ctx p) = true) by now rewrite Hctx.
    destruct H as [(e & He & ->)|[(He & ->)|(s2 & He & Hf)]];
      apply exec_seq in He as (_ & _ & He); auto.
    + right. eauto.
    + destruct He.
    + destruct He as (Hlog & _).
      apply finish_spec in Hf as (_ & -> & -> & _). left. eauto.
Qed.

(** A parallel run has seen no failure, or the one failure it is rejected
    with. *)
Lemma run_par (env : Env) (a : DocumindArgs.t) (sched : list SchedEvent)
    (w : World) (s' : State) (r : Res DocumindOutput.t) :
  default false (DocumindArgs.maintainFormat a) = false ->
  run env a sched w = (s', r) ->
  failures (trace s') = [] \/
  (exists k e, failures (trace s') = [(k, e)] /\ r = Throw e).
Proof.
  intros Hm H. apply run_inv in H as [(e & Hp & ->)|(s1 & p & Hp & H)].
  - left. now apply prepared_fresh in Hp as (-> & _).
  - pose proof (prepared_fresh _ _ _ _ _ Hp) as (Ht & Hpp & Ha & Hb).
    apply prepare_Ok in Hp
      as (llm & fs2 & ext & files & _ & _ & _ & _ & _ & Hctx & _).
    assert (Hmf : c_maintainFormat (ctx p) = false) by now rewrite Hctx.
    destruct H as [(e & He & ->)|[(He & ->)|(s2 & He & Hf)]];
      apply exec_par in He as (_ & _ & He); auto.
    + destruct He as [(k & Hk)|(-> & _)]; [right; eauto | left; reflexivity].
    + destruct He as (_ & _ & Hfail & _).
      apply finish_spec in Hf as (_ & _ & _ & -> & _). auto.
Qed.

Lemma exec_any (a : DocumindArgs.t) (sched : list SchedEvent) (p : Prepared)
    (s s' : State) (r : Res unit) :
  trace s = [] -> priorPage s = "" -> aggregatedMarkdown s = [] -> Booked s ->
  exec a sched p s = (s', r) ->
  Booked s' /\ sameStore s s'.
Proof.
  intros Ht Hp Ha Hb H. destruct (c_maintainFormat (ctx p)) eqn:Hm.
  - apply exec_seq in H as (? & ? & _); auto.
  - apply exec_par in H as (? & ? & _); auto.
Qed.

(** The heap of a run is the one its first part leaves, and nothing is
    removed from the disk unless the run completes with [cleanup] on. *)
Lemma run_store (env : Env) (a : DocumindArgs.t) (sched : list SchedEvent)
    (w : World) (s' : State) (r : Res DocumindOutput.t) :
  run env a sched w = (s', r) ->
  exists s1 rp,
    prep env a (initState w) = (s1, rp) /\
    heap s' = heap s1 /\
    (default true (DocumindArgs.cleanup a) = false ->
     removals (trace s') = []) /\
    (forall e, r = Throw e -> removals (trace s') = []).
Proof.
  intros H. apply run_inv in H as [(e & Hp & ->)|(s1 & p & Hp & H)].
  - exists s', (Throw e). split; auto. split; auto.
    apply prepared_fresh in Hp as (-> & _). auto.
  - exists s1, (Ok p). split; auto.
    pose proof (prepared_fresh _ _ _ _ _ Hp) as (Ht & Hpp & Ha & Hb).
    destruct H as [(e & He & ->)|[(He & ->)|(s2 & He & Hf)]];
      apply exec_any in He as ((_ & _ & Hrm) & _ & Hheap); auto.
    apply finish_spec in Hf as (Hh & _ & _ & _ & Hr).
    split; [congruence|].
    destruct r as [out|e|]; [|split; intros; congruence|destruct Hr].
    destruct Hr as (_ & _ & _ & Hrm' & _). split; [|discriminate].
    intros Hc. now rewrite Hrm', Hrm, Hc.
Qed.

(** The pages of an output are numbered from the heap as the sort left it. *)
Lemma run_Ok_pages (env : Env) (a : DocumindArgs.t) (sched : list SchedEvent)
    (w : World) (s' : State) (out : DocumindOutput.t) :
  run env a sched w = (s', Ok out) ->
  heap s' = heapAfterSort a (w_heap w) /\
  length (DocumindOutput.pages out) = length (calls (trace s')) /\
  forall i pg,
    DocumindOutput.pages out !! i = Some pg ->
    Page.page pg = pageNumber (pagesOf a) (heapAfterSort a (w_heap w)) i.
Proof.
  intros H. apply run_Ok in H as (s1 & p & s2 & Hp & He & Hf).
  pose proof (prepared_fresh _ _ _ _ _ Hp) as (Ht & Hpp & Ha & Hb).
  apply prepare_Ok in Hp
    as (llm & fs2 & ext & files & _ & _ & _ & _ & _ & _ & Hheap & _).
  apply exec_Ok in He as (_ & (_ & Hh2) & _ & Hc & _ & Hl); auto.
  apply finish_spec in Hf as (Hh' & Hcs & _ & _ & -> & _).
  simpl in *. rewrite formattedPages_length, Hcs.
  apply (f_equal length) in Hc. rewrite length_fmap, length_seq in Hc.
  conjs; try congruence.
  intros i pg (el & _ & ->)%formattedPages_lookup. simpl. congruence.
Qed.

Lemma pageNumber_array (a : DocumindArgs.t) (h : Heap) (ref : loc)
    (l : list Z) (i : nat) :
  DocumindArgs.pagesToConvertAsImages a = Some (PArray ref) ->
  h !! ref = Some l ->
  pageNumber (pagesOf a) (heapAfterSort a h) i = sortAsc l !! i.
Proof.
  intros Ha Hl. unfold heapAfterSort, pagesOf. rewrite Ha. simpl.
  now rewrite lookup_alter_eq, Hl.
Qed.

(** *** Every order of completion is an execution *)

Lemma starts_run (c : Ctx) (limit : Z) (sched : list SchedEvent)
    (waiting : list (nat * string)) :
  forall running rs s,
    (Z.of_nat (length running + length waiting) <= limit)%Z ->
    exists started s1,
      all c limit (replicate (length waiting) Start ++ sched)
          {| queue := waiting; active := running; results := rs |} s
      = all c limit sched
            {| queue := []; active := running ++ started; results := rs |} s1 /\
      p_index <$> started = waiting.*1.
Proof.
  induction waiting as [|[index image] waiting IH]; intros running rs s Hlim.
  - exists [], s. now rewrite app_nil_r.
  - simpl in *.
    destruct (Z.ltb_spec (Z.of_nat (length running)) limit) as [_|Hge]; [|lia].
    unfold bind. rewrite processPage_call_eq. cbv zeta.
    edestruct IH as (started & s1 & -> & Hidx).
    { rewrite length_app. simpl. lia. }
    eexists (_ :: started), s1. rewrite <- app_assoc. simpl.
    split; [reflexivity|]. simpl. f_equal. exact Hidx.
Qed.

Lemma takeActive_elem (i : nat) (l : list Pending) :
  i ∈ p_index <$> l ->
  exists p rest,
    takeActive i l = Some (p, rest) /\
    Permutation (p_index <$> l) (i :: (p_index <$> rest)).
Proof.
  induction l as [|q l IH]; simpl.
  - intros Hin. now apply elem_of_nil in Hin.
  - intros Hin. destruct (Nat.eqb_spec (p_index q) i) as [->|Hne].
    + exists q, l. split; reflexivity.
    + apply elem_of_cons in Hin as [Heq|Hin]; [congruence|].
      destruct (IH Hin) as (p & rest & -> & Hperm).
      exists p, (q :: rest). split; [reflexivity|]. simpl.
      rewrite Hperm. apply perm_swap.
Qed.

Lemma finishes_run (c : Ctx) (limit : Z) (order : list nat) :
  forall running rs s,
    Permutation (p_index <$> running) order ->
    exists s' res,
      all c limit (Finish <$> order)
          {| queue := []; active := running; results := rs |} s = (s', res) /\
      res <> Stuck.
Proof.
  induction order as [|i order IH]; intros running rs s Hperm; simpl.
  - apply Permutation_nil_r in Hperm. destruct running; [|discriminate].
    eexists _, _. split; [reflexivity|discriminate].
  - assert (Hin : i ∈ p_index <$> running).
    { rewrite Hperm. apply list_elem_of_here. }
    destruct (takeActive_elem _ _ Hin) as (p & rest & -> & Hp).
    unfold bind. rewrite processPage_resume_eq. cbv zeta.
    destruct (p_result p) as [e|r].
    + eexists _, _. split; [reflexivity|discriminate].
    + apply IH. apply (Permutation_cons_inv (a := i)).
      now rewrite <- Hp.
Qed.

Lemma indexed_fst (images : list string) :
  (imap (fun index image => (index, image)) images).*1 = seq 0 (length images).
Proof.
  apply list_eq. intros i.
  rewrite list_lookup_fmap, list_lookup_imap.
  destruct (images !! i) as [image|] eqn:E; simpl.
  - symmetry. apply lookup_seq. split; auto. now apply lookup_lt_Some in E.
  - symmetry. apply lookup_seq_ge. now apply lookup_ge_None in E.
Qed.

(** When the limit lets all the tasks run at once, the calls may settle in
    any order: each permutation of the work units is the order of completion
    of an execution. *)
Lemma every_order_is_an_execution (c : Ctx) (images : list string)
    (limit : Z) (order : list nat) (s : State) :
  Permutation order (seq 0 (length images)) ->
  (Z.of_nat (length images) <= limit)%Z ->
  exists s' res,
    batches c images limit (startAllThenSettle (length images) order) s
    = (s', res) /\
    res <> Stuck.
Proof.
  intros Hperm Hlim. unfold processPagesInBatches, startAllThenSettle.
  destruct (starts_run c limit (Finish <$> order)
              (imap (fun index image => (index, image)) images) [] [] s)
    as (started & s1 & Heq & Hidx).
  { rewrite length_imap. simpl. lia. }
  rewrite length_imap in Heq. rewrite Heq. simpl.
  apply finishes_run. now rewrite Hidx, indexed_fst.
Qed.

(** So a parallel run whose calls settle in a given order exists for every
    order: it completes or is rejected. *)
Lemma every_order_is_a_run (env : Env) (a : DocumindArgs.t) (w : World)
    (s1 : State) (p : Prepared) (order : list nat) :
  prep env a (initState w) = (s1, Ok p) ->
  default false (DocumindArgs.maintainFormat a) = false ->
  Permutation order (seq 0 (length (images p))) ->
  (Z.of_nat (length (images p)) <= default 10 (DocumindArgs.concurrency a))%Z ->
  exists s' r,
    run env a (startAllThenSettle (length (images p)) order) w = (s', r) /\
    r <> Stuck.
Proof.
  intros Hp Hm Hperm Hlim.
  pose proof Hp as Hctx. apply prepare_Ok in Hctx
    as (llm & fs2 & ext & files & _ & _ & _ & _ & _ & Hctx & _).
  assert (Hmf : c_maintainFormat (ctx p) = false) by now rewrite Hctx.
  unfold documind, bind. rewrite Hp. unfold execute. rewrite Hmf.
  unfold bind, pLimit.
  destruct (1 <=? default 10 (DocumindArgs.concurrency a))%Z.
  - unfold ret.
    destruct (every_order_is_an_execution (ctx p) (images p)
                (default 10 (DocumindArgs.concurrency a)) order s1 Hperm Hlim)
      as (s2 & res & -> & Hres).
    destruct res as [rs|e|]; [| |congruence].
    + unfold modify.
      destruct (finish env a p (push (filterIsString rs) s2)) as [s' r] eqn:Ef.
      exists s', r. split; [reflexivity|].
      apply finish_spec in Ef as (_ & _ & _ & _ & Hr).
      intros ->. exact Hr.
    + eexists _, _. split; [reflexivity|discriminate].
  - eexists _, _. split; [reflexivity|discriminate].
Qed.

(** * What the specification states *)

(** C8. When a run produces an output, its [inputTokens] and [outputTokens]
    are the sums of the counts that the adapter reported over the calls of
    the run; every call of such a run has succeeded, and there is one page
    for each of them, so the sums range over the units that contributed. *)
Theorem token_totals_are_sums (env : Env) (a : DocumindArgs.t)
    (sched : list SchedEvent) (w : World) (s' : State)
    (out : DocumindOutput.t) :
  run env a sched w = (s', Ok out) ->
  DocumindOutput.inputTokens out
  = tokens CompletionResponse.inputTokens (trace s') /\
  DocumindOutput.outputTokens out
  = tokens CompletionResponse.outputTokens (trace s') /\
  failures (trace s') = [] /\
  length (settles (trace s')) = length (DocumindOutput.pages out).
Proof.
  intros H. apply run_Ok in H as (s1 & p & s2 & Hp & He & Hf).
  apply prepared_fresh in Hp as (Ht & Hpp & Ha & Hb).
  apply exec_Ok in He as ((Hi & Ho & _) & _ & Hfail & _ & Hs & Hl); auto.
  apply finish_spec in Hf as (_ & _ & Hs' & Hf' & -> & Hti & Hto & _).
  simpl. rewrite formattedPages_length. conjs; congruence.
Qed.

(** C1. In parallel mode, whatever the order in which the calls settle, a
    run that produces an output has one page for each work unit, in the order
    of the work units: page [i] holds the formatted response of the one call
    made for image [i], with the page number resolved for index [i]. *)
Theorem parallel_pages_follow_unit_index (env : Env) (a : DocumindArgs.t)
    (sched : list SchedEvent) (w : World) (s' : State)
    (out : DocumindOutput.t) :
  default false (DocumindArgs.maintainFormat a) = false ->
  run env a sched w = (s', Ok out) ->
  exists s1 p,
    prep env a (initState w) = (s1, Ok p) /\
    length (DocumindOutput.pages out) = length (images p) /\
    (forall i a1 a2,
       EvCall i a1 ∈ trace s' -> EvCall i a2 ∈ trace s' -> a1 = a2) /\
    forall i image,
      images p !! i = Some image ->
      exists args r pg,
        EvCall i args ∈ trace s' /\
        CompletionArgs.imagePath args
        = path_join (tempDirectoryOf env a) image /\
        getCompletion args = inr r /\
        EvSettle i (inr r) ∈ trace s' /\
        DocumindOutput.pages out !! i = Some pg /\
        Page.content pg = formatMarkdown (CompletionResponse.content r) /\
        Page.page pg = pageNumber (pagesOf a) (heap s') i.
Proof.
  intros Hm H. apply run_Ok in H as (s1 & p & s2 & Hp & He & Hf).
  exists s1, p. split; [exact Hp|].
  pose proof (prepared_fresh _ _ _ _ _ Hp) as (Ht & Hpp & Ha & Hb).
  apply prepare_Ok in Hp
    as (llm & fs2 & ext & files & _ & _ & _ & _ & _ & Hctx & _).
  assert (Hmf : c_maintainFormat (ctx p) = false) by now rewrite Hctx.
  assert (Htmp : c_tempDirectory (ctx p) = tempDirectoryOf env a)
    by now rewrite Hctx.
  apply exec_par in He as (_ & _ & Hc & _ & _ & Hl & HA & HC); auto.
  apply finish_spec in Hf as (Hh & Hcs & Hss & _ & -> & _).
  simpl. rewrite formattedPages_length. conjs; auto.
  - intros i a1 a2 H1%elem_of_calls H2%elem_of_calls.
    rewrite Hcs in H1, H2. eapply indexed_functional; eauto.
  - intros i image Hi.
    destruct (HC i) as (args & r & Hcall & Hg & Hs & Hagg).
    { eapply lookup_lt_Some; eauto. }
    destruct (HA _ _ Hcall) as (image' & prior & Hi' & ->).
    assert (image' = image) as -> by congruence.
    exists (completionArgs (ctx p) image prior), r.
    eexists. conjs.
    + apply elem_of_calls. now rewrite Hcs.
    + simpl. now rewrite Htmp.
    + exact Hg.
    + apply elem_of_settles. now rewrite Hss.
    + unfold formattedPages. rewrite list_lookup_imap, Hagg. reflexivity.
    + reflexivity.
    + simpl. now rewrite Hh.
Qed.

(** C6. In sequential mode, when the call of work unit [k] fails with [e],
    the run is rejected with [e] itself, [k + 1] calls have been made in all
    and none of them is for a later unit. *)
Theorem sequential_failure_stops_the_run (env : Env) (a : DocumindArgs.t)
    (sched : list SchedEvent) (w : World) (s' : State)
    (r : Res DocumindOutput.t) (k : nat) (e : Thrown) :
  default false (DocumindArgs.maintainFormat a) = true ->
  run env a sched w = (s', r) ->
  EvSettle k (inl e) ∈ trace s' ->
  r = Throw e /\
  length (calls (trace s')) = S k /\
  forall j args, EvCall j args ∈ trace s' -> (j <= k)%nat.
Proof.
  intros Hm H Hin%elem_of_settles.
  apply run_seq in H as [(c & prior & Hlog)|(c & e' & Hfail & ->)]; auto.
  - apply SeqLog_facts in Hlog as (_ & _ & _ & Hok & _).
    destruct (Hok _ _ Hin). discriminate.
  - apply SeqFail_facts in Hfail as (_ & n & Hlen & Hone & Hle).
    destruct (Hone _ _ Hin) as [-> ->]. conjs; auto.
    intros j args Hc%elem_of_calls. eauto.
Qed.

(** C2, as the code has it. In parallel mode a call that fails rejects the
    whole run with its error, and it is the only failure the run has seen;
    a run that produces an output has seen no failure, and its output has
    one page for every call made: no slot is left out. *)
Theorem parallel_failure_rejects_the_run (env : Env) (a : DocumindArgs.t)
    (sched : list SchedEvent) (w : World) (s' : State)
    (r : Res DocumindOutput.t) :
  default false (DocumindArgs.maintainFormat a) = false ->
  run env a sched w = (s', r) ->
  (forall k e, EvSettle k (inl e) ∈ trace s' ->
     r = Throw e /\ failures (trace s') = [(k, e)]) /\
  (forall out, r = Ok out ->
     failures (trace s') = [] /\
     length (DocumindOutput.pages out) = length (calls (trace s'))).
Proof.
  intros Hm H. split.
  - intros k e Hin%elem_of_failures.
    apply run_par in H as [Hnil|(k' & e' & Hone & ->)]; auto.
    + rewrite Hnil in Hin. now apply elem_of_nil in Hin.
    + rewrite Hone in Hin. apply list_elem_of_singleton in Hin as [= -> ->].
      auto.
  - intros out ->. apply run_Ok in H as (s1 & p & s2 & Hp & He & Hf).
    apply prepared_fresh in Hp as (Ht & Hpp & Ha & Hb).
    apply exec_Ok in He as (_ & _ & Hfail & Hc & _ & Hl); auto.
    apply finish_spec in Hf as (_ & Hcs & _ & Hf' & -> & _).
    simpl. rewrite formattedPages_length, Hf', Hcs. split; auto.
    apply (f_equal length) in Hc.
    rewrite length_fmap, length_seq in Hc. congruence.
Qed.

(** C3, as the code has it. With [cleanup] on (the default) a run that
    completes removes its temporary directory; a run that is rejected removes
    nothing, and neither does any run with [cleanup] off. *)
Theorem temp_directory_removed_on_completion (env : Env) (a : DocumindArgs.t)
    (sched : list SchedEvent) (w : World) (s' : State)
    (r : Res DocumindOutput.t) :
  run env a sched w = (s', r) ->
  (forall out, r = Ok out ->
     default true (DocumindArgs.cleanup a) = true ->
     removals (trace s') = [tempDirectoryOf env a] /\
     fsys s' !! tempDirectoryOf env a = None) /\
  (default true (DocumindArgs.cleanup a) = false -> removals (trace s') = []) /\
  (forall e, r = Throw e -> removals (trace s') = []).
Proof.
  intros H. split.
  - intros out -> Hc. apply run_Ok in H as (s1 & p & s2 & Hp & He & Hf).
    pose proof (prepared_fresh _ _ _ _ _ Hp) as (Ht & Hpp & Ha & Hb).
    apply prepare_Ok in Hp
      as (llm & fs2 & ext & files & _ & _ & _ & _ & _ & Hctx & _).
    apply exec_any in He as ((_ & _ & Hrm) & _); auto.
    apply finish_spec in Hf as (_ & _ & _ & _ & _ & _ & _ & Hrm' & Hgone).
    rewrite Hctx, Hc in *. simpl in *. rewrite Hrm', Hrm. auto.
  - apply run_store in H as (s1 & rp & _ & _ & Hoff & Hrej). auto.
Qed.

(** C4, as the code has it. The length of an explicit page list is never
    compared with the number of images: a run that completes has made one
    call for each page of its output, page [i] has the [i]-th number of the
    sorted list when the list is that long and no number otherwise, and the
    numbers of the list past the last page are not used. *)
Theorem page_list_length_is_not_checked (env : Env) (a : DocumindArgs.t)
    (sched : list SchedEvent) (w : World) (s' : State)
    (out : DocumindOutput.t) (ref : loc) (l : list Z) :
  DocumindArgs.pagesToConvertAsImages a = Some (PArray ref) ->
  w_heap w !! ref = Some l ->
  run env a sched w = (s', Ok out) ->
  length (DocumindOutput.pages out) = length (calls (trace s')) /\
  forall i pg,
    DocumindOutput.pages out !! i = Some pg ->
    Page.page pg = sortAsc l !! i /\
    ((length l <= i)%nat -> Page.page pg = None).
Proof.
  intros Ha Hl H. apply run_Ok_pages in H as (_ & Hlen & Hpg).
  split; auto. intros i pg Hi.
  rewrite (Hpg _ _ Hi), (pageNumber_array _ _ _ _ _ Ha Hl). split; auto.
  intros Hle. apply lookup_ge_None. now rewrite sortAsc_length.
Qed.

(** C7. The page numbers of an output follow the page selection: without
    one, or with -1, page [i] (from 0) has number [i + 1]; with another
    number every page has that number; with a list, page [i] has the [i]-th
    number of the list sorted, which is the [i]-th number of the list when
    the caller passed it sorted. Three units give [1; 2; 3] for -1,
    [2; 5; 7] for the list [2; 5; 7] and [4; 4; 4] for 4. *)
Theorem page_numbers_follow_selection (env : Env) (a : DocumindArgs.t)
    (sched : list SchedEvent) (w : World) (s' : State)
    (out : DocumindOutput.t) :
  run env a sched w = (s', Ok out) ->
  (forall i pg,
     DocumindOutput.pages out !! i = Some pg ->
     match DocumindArgs.pagesToConvertAsImages a with
     | None => Page.page pg = Some (Z.of_nat i + 1)%Z
     | Some (PNumber n) =>
         Page.page pg = Some (if (n =? -1)%Z then (Z.of_nat i + 1)%Z else n)
     | Some (PArray ref) =>
         forall l, w_heap w !! ref = Some l ->
                   Page.page pg = sortAsc l !! i /\
                   (Sorted Z.le l -> Page.page pg = l !! i)
     end) /\
  Page.page <$> formattedPages (PNumber (-1)) ∅ ["a"; "b"; "c"]
  = [Some 1; Some 2; Some 3]%Z /\
  Page.page <$> formattedPages (PArray 1%positive)
                               {[ 1%positive := [2; 5; 7]%Z ]}
                               ["a"; "b"; "c"]
  = [Some 2; Some 5; Some 7]%Z /\
  Page.page <$> formattedPages (PNumber 4) ∅ ["a"; "b"; "c"]
  = [Some 4; Some 4; Some 4]%Z.
Proof.
  intros H. split; [|repeat split].
  intros i pg Hi. apply run_Ok_pages in H as (_ & _ & Hpg).
  rewrite (Hpg _ _ Hi).
  destruct (DocumindArgs.pagesToConvertAsImages a) as [[n|ref]|] eqn:Ha.
  - unfold pagesOf. rewrite Ha. simpl. now destruct (n =? -1)%Z.
  - intros l Hl. rewrite (pageNumber_array _ _ _ _ _ Ha Hl). split; auto.
    intros Hs. now rewrite sortAsc_of_sorted.
  - unfold pagesOf. rewrite Ha. reflexivity.
Qed.

(** C9. The [fileName] of an output is made from the part of the local
    path after its last slash and before the first dot that follows: the
    characters that are neither word characters nor white space are dropped,
    each run of white space becomes one underscore, the letters are lowered
    and the first 255 characters are kept. It is at most 255 characters of
    [a-z0-9_], and "My Report (v2).pdf" gives "my_report_v2". *)
Theorem file_name_is_sanitized_base_name (env : Env) (a : DocumindArgs.t)
    (sched : list SchedEvent) (w : World) (s' : State)
    (out : DocumindOutput.t) :
  run env a sched w = (s', Ok out) ->
  (exists fs2 ext lp,
     downloadFile (DocumindArgs.filePath a) (tempDirectoryOf env a)
                  (ensureDirFs (tempDirectoryOf env a) (w_fsys w))
     = (fs2, inr (ext, Some lp)) /\
     DocumindOutput.fileName out
     = substring 0 255
         (JsString.toLowerCase
            (JsString.replaceSpaceRuns false
               (JsString.stripNonWordNonSpace (rawFileName lp))))) /\
  (String.length (DocumindOutput.fileName out) <= 255)%nat /\
  JsString.allChars JsString.isLowerWordChar (DocumindOutput.fileName out)
  = true /\
  rawFileName "/tmp/documind-file-4821/My Report (v2).pdf" = "My Report (v2)" /\
  sanitize "My Report (v2)" = "my_report_v2".
Proof.
  intros H. apply run_Ok in H as (s1 & p & s2 & Hp & He & Hf).
  apply prepare_Ok in Hp as (llm & fs2 & ext & files & _ & _ & _ & Hd & _).
  apply finish_spec in Hf as (_ & _ & _ & _ & -> & _). simpl.
  split; [exists fs2, ext, (localPath p); split; [exact Hd | reflexivity]|].
  split; [apply sanitize_length|].
  split; [apply sanitize_chars|].
  split; vm_compute; reflexivity.
Qed.

(** C10. When [pagesToConvertAsImages] is an array, a run that gets past the
    download of the file leaves the caller's array sorted in ascending
    order, whether it then completes or not: the array holds the same numbers
    as before, in order, and no other array is touched. *)
Theorem caller_array_is_sorted_in_place (env : Env) (a : DocumindArgs.t)
    (sched : list SchedEvent) (w : World) (s' : State)
    (r : Res DocumindOutput.t) (ref : loc) (l : list Z) (llm : LLMParams)
    (fs2 : FS) (ext lp : string) :
  DocumindArgs.pagesToConvertAsImages a = Some (PArray ref) ->
  w_heap w !! ref = Some l ->
  validateLLMParams (default noLLMParams (DocumindArgs.llmParams a))
  = inr llm ->
  default "" (DocumindArgs.openaiAPIKey a) <> "" ->
  DocumindArgs.filePath a <> "" ->
  downloadFile (DocumindArgs.filePath a) (tempDirectoryOf env a)
               (ensureDirFs (tempDirectoryOf env a) (w_fsys w))
  = (fs2, inr (ext, Some lp)) ->
  lp <> "" ->
  run env a sched w = (s', r) ->
  heap s' !! ref = Some (sortAsc l) /\
  Sorted Z.le (sortAsc l) /\
  Permutation l (sortAsc l) /\
  forall ref', ref' <> ref -> heap s' !! ref' = w_heap w !! ref'.
Proof.
  intros Ha Hl Hv Hk Hf Hd Hlp H.
  apply run_store in H as (s1 & rp & Hp & -> & _).
  eapply prepare_sorts in Hp; eauto. rewrite Hp.
  unfold heapAfterSort, pagesOf. rewrite Ha. simpl.
  conjs.
  - now rewrite lookup_alter_eq, Hl.
  - apply sortAsc_sorted.
  - apply sortAsc_perm.
  - intros ref' Hne. now apply lookup_alter_ne.
Qed.

End Run.

(** * The statements on concrete runs *)

Lemma token_totals_are_sums_witness :
  Demo.parallel3 = (Demo.parallel3_state, Ok Demo.parallel3_output) /\
  DocumindOutput.inputTokens Demo.parallel3_output
  = tokens CompletionResponse.inputTokens (trace Demo.parallel3_state) /\
  DocumindOutput.outputTokens Demo.parallel3_output
  = tokens CompletionResponse.outputTokens (trace Demo.parallel3_state) /\
  failures (trace Demo.parallel3_state) = [] /\
  length (settles (trace Demo.parallel3_state))
  = length (DocumindOutput.pages Demo.parallel3_output).
Proof.
  assert (H : Demo.parallel3 = (Demo.parallel3_state, Ok Demo.parallel3_output))
    by (vm_compute; reflexivity).
  split; [exact H|].
  exact (token_totals_are_sums
           Demo.validate Demo.download Demo.toPdf (Demo.toImages 3)
           (Demo.complete []) Demo.format Demo.env
           (Demo.args false None Demo.report) Demo.outOfOrder Demo.world
           Demo.parallel3_state Demo.parallel3_output H).
Defined.

Lemma parallel_pages_follow_unit_index_witness :
  default false (DocumindArgs.maintainFormat (Demo.args false None Demo.report))
  = false /\
  Demo.parallel3 = (Demo.parallel3_state, Ok Demo.parallel3_output) /\
  exists s1 p,
    Demo.prep 3 (Demo.args false None Demo.report) (initState Demo.world)
    = (s1, Ok p) /\
    length (DocumindOutput.pages Demo.parallel3_output) = length (images p) /\
    (forall i a1 a2,
       EvCall i a1 ∈ trace Demo.parallel3_state ->
       EvCall i a2 ∈ trace Demo.parallel3_state -> a1 = a2) /\
    forall i image,
      images p !! i = Some image ->
      exists args r pg,
        EvCall i args ∈ trace Demo.parallel3_state /\
        CompletionArgs.imagePath args
        = path_join (tempDirectoryOf Demo.env
                       (Demo.args false None Demo.report)) image /\
        Demo.complete [] args = inr r /\
        EvSettle i (inr r) ∈ trace Demo.parallel3_state /\
        DocumindOutput.pages Demo.parallel3_output !! i = Some pg /\
        Page.content pg = Demo.format (CompletionResponse.content r) /\
        Page.page pg
        = pageNumber (pagesOf (Demo.args false None Demo.report))
                     (heap Demo.parallel3_state) i.
Proof.
  assert (H : Demo.parallel3 = (Demo.parallel3_state, Ok Demo.parallel3_output))
    by (vm_compute; reflexivity).
  split; [reflexivity|]. split; [exact H|].
  exact (parallel_pages_follow_unit_index
           Demo.validate Demo.download Demo.toPdf (Demo.toImages 3)
           (Demo.complete []) Demo.format Demo.env
           (Demo.args false None Demo.report) Demo.outOfOrder Demo.world
           Demo.parallel3_state Demo.parallel3_output eq_refl H).
Defined.

(** The pages of that run, whose calls settled in the order 1, 2, 0. *)
Example parallel3_pages :
  Page.content <$> DocumindOutput.pages Demo.parallel3_output
  = ["md page_1.png<>"; "md page_2.png<>"; "md page_3.png<md page_2.png<>>"].
Proof. vm_compute. reflexivity. Qed.

Example sequential3_prior_pages :
  (fun c => CompletionArgs.priorPage (snd c))
    <$> calls (trace Demo.sequential3_state)
  = [""; "md page_1.png<>"; "md page_2.png<md page_1.png<>>"].
Proof. vm_compute. reflexivity. Qed.

Lemma sequential_failure_stops_the_run_witness :
  default false (DocumindArgs.maintainFormat (Demo.args true None Demo.report))
  = true /\
  Demo.sequential5 = (Demo.sequential5_state, snd Demo.sequential5) /\
  EvSettle 1 (inl Demo.page2Failed) ∈ trace Demo.sequential5_state /\
  snd Demo.sequential5 = Throw Demo.page2Failed /\
  length (calls (trace Demo.sequential5_state)) = 2%nat /\
  forall j args,
    EvCall j args ∈ trace Demo.sequential5_state -> (j <= 1)%nat.
Proof.
  assert (H : Demo.sequential5 = (Demo.sequential5_state, snd Demo.sequential5))
    by (vm_compute; reflexivity).
  assert (Hin : EvSettle 1 (inl Demo.page2Failed)
                ∈ trace Demo.sequential5_state).
  { apply list_elem_of_lookup. exists 3%nat. vm_compute. reflexivity. }
  split; [reflexivity|]. split; [exact H|]. split; [exact Hin|].
  exact (sequential_failure_stops_the_run
           Demo.validate Demo.download Demo.toPdf (Demo.toImages 5)
           (Demo.complete ["page_2.png"]) Demo.format Demo.env
           (Demo.args true None Demo.report) [] Demo.world
           Demo.sequential5_state (snd Demo.sequential5) 1%nat
           Demo.page2Failed eq_refl H Hin).
Defined.

Lemma parallel_failure_rejects_the_run_witness :
  default false (DocumindArgs.maintainFormat (Demo.args false None Demo.report))
  = false /\
  Demo.parallel5 = (Demo.parallel5_state, snd Demo.parallel5) /\
  (forall k e,
     EvSettle k (inl e) ∈ trace Demo.parallel5_state ->
     snd Demo.parallel5 = Throw e /\
     failures (trace Demo.parallel5_state) = [(k, e)]) /\
  (forall out,
     snd Demo.parallel5 = Ok out ->
     failures (trace Demo.parallel5_state) = [] /\
     length (DocumindOutput.pages out)
     = length (calls (trace Demo.parallel5_state))).
Proof.
  assert (H : Demo.parallel5 = (Demo.parallel5_state, snd Demo.parallel5))
    by (vm_compute; reflexivity).
  split; [reflexivity|]. split; [exact H|].
  exact (parallel_failure_rejects_the_run
           Demo.validate Demo.download Demo.toPdf (Demo.toImages 5)
           (Demo.complete ["page_2.png"]) Demo.format Demo.env
           (Demo.args false None Demo.report) Demo.failingLast Demo.world
           Demo.parallel5_state (snd Demo.parallel5) eq_refl H).
Defined.

(** C2 fails on the code: units 1, 3, 4 and 5 of 5 have completed when
    unit 2 fails, and the run is rejected with the error of unit 2; there is
    no output. *)
Lemma parallel_failure_gives_no_output :
  (fun c => fst c) <$> settles (trace Demo.parallel5_state)
  = [0; 2; 3; 4; 1]%nat /\
  failures (trace Demo.parallel5_state) = [(1%nat, Demo.page2Failed)] /\
  snd Demo.parallel5 = Throw Demo.page2Failed /\
  forall out, snd Demo.parallel5 <> Ok out.
Proof.
  split; [vm_compute; reflexivity|]. split; [vm_compute; reflexivity|].
  assert (H : snd Demo.parallel5 = Throw Demo.page2Failed)
    by (vm_compute; reflexivity).
  split; [exact H|]. intros out. rewrite H. discriminate.
Qed.

Lemma temp_directory_removed_on_completion_witness :
  Demo.parallel3 = (Demo.parallel3_state, snd Demo.parallel3) /\
  (forall out,
     snd Demo.parallel3 = Ok out ->
     default true (DocumindArgs.cleanup (Demo.args false None Demo.report))
     = true ->
     removals (trace Demo.parallel3_state)
     = [tempDirectoryOf Demo.env (Demo.args false None Demo.report)] /\
     fsys Demo.parallel3_state
       !! tempDirectoryOf Demo.env (Demo.args false None Demo.report) = None) /\
  (default true (DocumindArgs.cleanup (Demo.args false None Demo.report))
   = false -> removals (trace Demo.parallel3_state) = []) /\
  (forall e, snd Demo.parallel3 = Throw e ->
             removals (trace Demo.parallel3_state) = []).
Proof.
  assert (H : Demo.parallel3 = (Demo.parallel3_state, snd Demo.parallel3))
    by (vm_compute; reflexivity).
  split; [exact H|].
  exact (temp_directory_removed_on_completion
           Demo.validate Demo.download Demo.toPdf (Demo.toImages 3)
           (Demo.complete []) Demo.format Demo.env
           (Demo.args false None Demo.report) Demo.outOfOrder Demo.world
           Demo.parallel3_state (snd Demo.parallel3) H).
Defined.

(** C3 fails on the code: with [cleanup] left to its default a run that is
    rejected leaves its temporary directory, and all that was put in it, on
    the disk. *)
Lemma failed_run_keeps_temp_directory :
  default true (DocumindArgs.cleanup (Demo.args true None Demo.report)) = true /\
  snd Demo.sequential5 = Throw Demo.page2Failed /\
  fsys Demo.sequential5_state !! Demo.tmp
  = Some ["My Report (v2).pdf"; "page_1.png"; "page_2.png"; "page_3.png";
          "page_4.png"; "page_5.png"] /\
  removals (trace Demo.sequential5_state) = [].
Proof. repeat split; vm_compute; reflexivity. Qed.

Lemma page_list_length_is_not_checked_witness :
  DocumindArgs.pagesToConvertAsImages
    (Demo.args false (Some (PArray 1%positive)) "/home/u/scan.png")
  = Some (PArray 1%positive) /\
  w_heap Demo.world !! 1%positive = Some [5; 2; 7]%Z /\
  Demo.scan 1%positive = (Demo.scan_state 1%positive, Ok (Demo.scan_output 1%positive)) /\
  length (DocumindOutput.pages (Demo.scan_output 1%positive))
  = length (calls (trace (Demo.scan_state 1%positive))) /\
  forall i pg,
    DocumindOutput.pages (Demo.scan_output 1%positive) !! i = Some pg ->
    Page.page pg = sortAsc [5; 2; 7]%Z !! i /\
    ((length [5; 2; 7]%Z <= i)%nat -> Page.page pg = None).
Proof.
  assert (H : Demo.scan 1%positive = (Demo.scan_state 1%positive, Ok (Demo.scan_output 1%positive)))
    by (vm_compute; reflexivity).
  assert (Hl : w_heap Demo.world !! 1%positive = Some [5; 2; 7]%Z)
    by (vm_compute; reflexivity).
  split; [reflexivity|]. split; [exact Hl|]. split; [exact H|].
  exact (page_list_length_is_not_checked
           Demo.validate Demo.download Demo.toPdf (Demo.toImages 0)
           (Demo.complete []) Demo.format Demo.env
           (Demo.args false (Some (PArray 1%positive)) "/home/u/scan.png")
           [Start; Finish 0] Demo.world (Demo.scan_state 1%positive)
           (Demo.scan_output 1%positive) 1%positive [5; 2; 7]%Z eq_refl Hl H).
Defined.

(** C4 fails on the code: with one image and a list of three page numbers
    the run completes, after one call to the adapter, with one page numbered
    with the smallest of the three; with one image and an empty list it
    completes with one page that has no number. *)
Lemma page_list_mismatch_is_accepted :
  (w_heap Demo.world !! 1%positive = Some [5; 2; 7]%Z /\
   snd (Demo.scan 1%positive) = Ok (Demo.scan_output 1%positive) /\
   length (calls (trace (Demo.scan_state 1%positive))) = 1%nat /\
   Page.page <$> DocumindOutput.pages (Demo.scan_output 1%positive) = [Some 2%Z]) /\
  (w_heap Demo.world !! 2%positive = Some [] /\
   snd (Demo.scan 2%positive) = Ok (Demo.scan_output 2%positive) /\
   length (calls (trace (Demo.scan_state 2%positive))) = 1%nat /\
   Page.page <$> DocumindOutput.pages (Demo.scan_output 2%positive) = [None]).
Proof. repeat split; vm_compute; reflexivity. Qed.

Lemma page_numbers_follow_selection_witness :
  Demo.listed3 = (Demo.listed3_state, Ok Demo.listed3_output) /\
  (forall i pg,
     DocumindOutput.pages Demo.listed3_output !! i = Some pg ->
     forall l, w_heap Demo.world !! 1%positive = Some l ->
               Page.page pg = sortAsc l !! i /\
               (Sorted Z.le l -> Page.page pg = l !! i)) /\
  Page.page <$> formattedPages (PNumber (-1)) ∅ ["a"; "b"; "c"]
  = [Some 1; Some 2; Some 3]%Z /\
  Page.page <$> formattedPages (PArray 1%positive)
                               {[ 1%positive := [2; 5; 7]%Z ]}
                               ["a"; "b"; "c"]
  = [Some 2; Some 5; Some 7]%Z /\
  Page.page <$> formattedPages (PNumber 4) ∅ ["a"; "b"; "c"]
  = [Some 4; Some 4; Some 4]%Z.
Proof.
  assert (H : Demo.listed3 = (Demo.listed3_state, Ok Demo.listed3_output))
    by (vm_compute; reflexivity).
  split; [exact H|].
  exact (page_numbers_follow_selection
           Demo.validate Demo.download Demo.toPdf (Demo.toImages 9)
           (Demo.complete []) Demo.format Demo.env
           (Demo.args false (Some (PArray 1%positive)) "/home/u/a.pdf")
           Demo.outOfOrder Demo.world Demo.listed3_state Demo.listed3_output
           H).
Defined.

(** The caller's list [5; 2; 7] gives the pages 2, 5 and 7, and a run with no
    selection the pages 1, 2 and 3. *)
Example listed3_page_numbers :
  Page.page <$> DocumindOutput.pages Demo.listed3_output
  = [Some 2; Some 5; Some 7]%Z /\
  Page.page <$> DocumindOutput.pages Demo.parallel3_output
  = [Some 1; Some 2; Some 3]%Z.
Proof. split; vm_compute; reflexivity. Qed.

Lemma file_name_is_sanitized_base_name_witness :
  Demo.parallel3 = (Demo.parallel3_state, Ok Demo.parallel3_output) /\
  (exists fs2 ext lp,
     Demo.download (DocumindArgs.filePath (Demo.args false None Demo.report))
       (tempDirectoryOf Demo.env (Demo.args false None Demo.report))
       (ensureDirFs (tempDirectoryOf Demo.env
                       (Demo.args false None Demo.report))
                    (w_fsys Demo.world))
     = (fs2, inr (ext, Some lp)) /\
     DocumindOutput.fileName Demo.parallel3_output
     = substring 0 255
         (JsString.toLowerCase
            (JsString.replaceSpaceRuns false
               (JsString.stripNonWordNonSpace (rawFileName lp))))) /\
  (String.length (DocumindOutput.fileName Demo.parallel3_output) <= 255)%nat /\
  JsString.allChars JsString.isLowerWordChar
    (DocumindOutput.fileName Demo.parallel3_output) = true /\
  rawFileName "/tmp/documind-file-4821/My Report (v2).pdf" = "My Report (v2)" /\
  sanitize "My Report (v2)" = "my_report_v2".
Proof.
  assert (H : Demo.parallel3 = (Demo.parallel3_state, Ok Demo.parallel3_output))
    by (vm_compute; reflexivity).
  split; [exact H|].
  exact (file_name_is_sanitized_base_name
           Demo.validate Demo.download Demo.toPdf (Demo.toImages 3)
           (Demo.complete []) Demo.format Demo.env
           (Demo.args false None Demo.report) Demo.outOfOrder Demo.world
           Demo.parallel3_state Demo.parallel3_output H).
Defined.

Example parallel3_file_name :
  DocumindOutput.fileName Demo.parallel3_output = "my_report_v2".
Proof. vm_compute. reflexivity. Qed.

(** White space in runs, more than one dot, and a name that is too long. *)
Example sanitize_examples :
  fileNameOf "/data/Q3   Sales\Report.final.v2.docx" = "q3_salesreport" /\
  fileNameOf "notes" = "notes" /\
  String.length (sanitize (JsString.join "" (repeat "Ab" 200))) = 255%nat.
Proof. repeat split; vm_compute; reflexivity. Qed.

Lemma caller_array_is_sorted_in_place_witness :
  DocumindArgs.pagesToConvertAsImages
    (Demo.args false (Some (PArray 1%positive)) "/home/u/a.pdf")
  = Some (PArray 1%positive) /\
  w_heap Demo.world !! 1%positive = Some [5; 2; 7]%Z /\
  Demo.listed3 = (Demo.listed3_state, snd Demo.listed3) /\
  heap Demo.listed3_state !! 1%positive = Some (sortAsc [5; 2; 7]%Z) /\
  Sorted Z.le (sortAsc [5; 2; 7]%Z) /\
  Permutation [5; 2; 7]%Z (sortAsc [5; 2; 7]%Z) /\
  forall ref', ref' <> 1%positive ->
               heap Demo.listed3_state !! ref' = w_heap Demo.world !! ref'.
Proof.
  assert (H : Demo.listed3 = (Demo.listed3_state, snd Demo.listed3))
    by (vm_compute; reflexivity).
  assert (Hl : w_heap Demo.world !! 1%positive = Some [5; 2; 7]%Z)
    by (vm_compute; reflexivity).
  split; [reflexivity|]. split; [exact Hl|]. split; [exact H|].
  refine (caller_array_is_sorted_in_place
            Demo.validate Demo.download Demo.toPdf (Demo.toImages 9)
            (Demo.complete []) Demo.format Demo.env
            (Demo.args false (Some (PArray 1%positive)) "/home/u/a.pdf")
            Demo.outOfOrder Demo.world Demo.listed3_state (snd Demo.listed3)
            1%positive [5; 2; 7]%Z noLLMParams
            (fst (Demo.download "/home/u/a.pdf" Demo.tmp
                    (ensureDirFs Demo.tmp (w_fsys Demo.world))))
            ".pdf" "/tmp/documind-file-4821/a.pdf"
            eq_refl Hl eq_refl _ _ _ _ H).
  - discriminate.
  - discriminate.
  - vm_compute. reflexivity.
  - discriminate.
Defined.

(** The array the caller still holds after the call. *)
Example listed3_heap :
  w_heap Demo.world !! 1%positive = Some [5; 2; 7]%Z /\
  heap Demo.listed3_state !! 1%positive = Some [2; 5; 7]%Z.
Proof. split; vm_compute; reflexivity. Qed.

(** * More of the run *)

Section RunMore.

Variable validateLLMParams : LLMParams -> Thrown + LLMParams.
Variable downloadFile :
  string -> string -> FS -> FS * (Thrown + (string * option string)).
Variable convertFileToPdf :
  string -> string -> string -> FS -> FS * (Thrown + string).
Variable convertPdfToImages :
  string -> Z + list Z -> string -> FS -> FS * (Thrown + unit).
Variable getCompletion :
  CompletionArgs.t -> Thrown + CompletionResponse.t.
Variable formatMarkdown : string -> string.

Local Abbreviation fmt := (formatted formatMarkdown).
Local Abbreviation step := (sequentialStep getCompletion formatMarkdown).
Local Abbreviation all := (promiseAll getCompletion formatMarkdown).
Local Abbreviation batches := (processPagesInBatches getCompletion formatMarkdown).
Local Abbreviation prep :=
  (prepare validateLLMParams downloadFile convertFileToPdf convertPdfToImages).
Local Abbreviation exec := (execute getCompletion formatMarkdown).
Local Abbreviation run :=
  (documind validateLLMParams downloadFile convertFileToPdf
            convertPdfToImages getCompletion formatMarkdown).
Local Abbreviation lastFmt := (lastFormatted formatMarkdown).
Local Abbreviation priorInv := (PriorInv formatMarkdown).
Local Abbreviation seqOut := (SeqOut getCompletion formatMarkdown).

(** *** The prior page *)

Lemma writes_app (a b : list Event) : writes (a ++ b) = writes a ++ writes b.
Proof. apply omap_app. Qed.

Lemma lastFormatted_snoc (tr : list Event) (ev : Event) :
  lastFmt (tr ++ [ev])
  = match ev with
    | EvSettle _ (inr r) => fmt r
    | _ => lastFmt tr
    end.
Proof. unfold lastFormatted. now rewrite foldl_app. Qed.

(** Where an event sits in a list that has grown by one. *)
Lemma snoc_split {A} (pre post l : list A) (x y : A) :
  pre ++ x :: post = l ++ [y] ->
  (post = [] /\ pre = l /\ x = y) \/
  (exists post', post = post' ++ [y] /\ l = pre ++ x :: post').
Proof.
  destruct post as [|z post _] using rev_ind; intros H.
  - left. apply app_inj_tail in H as [-> ->]. auto.
  - right. exists post.
    rewrite app_comm_cons, app_assoc in H.
    apply app_inj_tail in H as [<- ->]. auto.
Qed.

Lemma PriorInv_step (s s' : State) (ev : Event) :
  priorInv s ->
  trace s' = trace s ++ [ev] ->
  priorPage s'
  = match ev with
    | EvSettle _ (inr r) => fmt r
    | _ => priorPage s
    end ->
  (forall i args, ev = EvCall i args ->
                  CompletionArgs.priorPage args = priorPage s) ->
  priorInv s'.
Proof.
  intros [Hp Hcalls] Ht Hp' Hev. split.
  - rewrite Ht, lastFormatted_snoc, Hp'. rewrite Hp.
    destruct ev as [| ? [|] | | |]; reflexivity.
  - intros pre i args post Hsplit. rewrite Ht in Hsplit. symmetry in Hsplit.
    apply snoc_split in Hsplit as [(_ & -> & <-)|(post' & _ & Hold)].
    + rewrite (Hev _ _ eq_refl). exact Hp.
    + eauto.
Qed.

Lemma PriorInv_same (s s' : State) :
  priorPage s' = priorPage s -> trace s' = trace s ->
  priorInv s -> priorInv s'.
Proof. unfold PriorInv. intros -> ->. auto. Qed.

Lemma PriorInv_fresh (s : State) :
  trace s = [] -> priorPage s = "" -> priorInv s.
Proof.
  intros Ht Hp. split.
  - now rewrite Ht, Hp.
  - intros pre i args post H. rewrite Ht in H. now destruct pre.
Qed.

(** A state that keeps the prior page right and has written no file. *)
Local Abbreviation tidy := (fun s => priorInv s /\ writes (trace s) = []).

Lemma tidy_call (c : Ctx) (s : State) (i : nat) (image : string) :
  tidy s -> tidy (emit (EvCall i (completionArgs c image (priorPage s))) s).
Proof.
  intros [Hp Hw]. split.
  - apply (PriorInv_step s _
             (EvCall i (completionArgs c image (priorPage s))) Hp);
      [reflexivity | reflexivity | now intros ? ? [= <- <-]].
  - simpl. now rewrite writes_app, Hw.
Qed.

Lemma tidy_ok (s : State) (i : nat) (r : CompletionResponse.t) :
  tidy s ->
  tidy (account (CompletionResponse.inputTokens r)
                (CompletionResponse.outputTokens r) (fmt r)
                (emit (EvSettle i (inr r)) s)).
Proof.
  intros [Hp Hw]. split.
  - apply (PriorInv_step s _ (EvSettle i (inr r)) Hp);
      [reflexivity | reflexivity | discriminate].
  - simpl. now rewrite writes_app, Hw.
Qed.

Lemma tidy_fail (s : State) (i : nat) (image : string) (e : Thrown) :
  tidy s ->
  tidy (emit (EvConsoleError image e) (emit (EvSettle i (inl e)) s)).
Proof.
  intros [Hp Hw]. split.
  - apply (PriorInv_step (emit (EvSettle i (inl e)) s) _
             (EvConsoleError image e));
      [|reflexivity|reflexivity|discriminate].
    apply (PriorInv_step s _ (EvSettle i (inl e)) Hp);
      [reflexivity | reflexivity | discriminate].
  - simpl. now rewrite !writes_app, Hw.
Qed.

Lemma forOf_tidy (c : Ctx) (images : list string) :
  forall k s s' r,
    tidy s -> forOf k images (step c) s = (s', r) -> tidy s'.
Proof.
  induction images as [|image images IH]; intros k s s' r Ht; simpl.
  - now intros [= <- <-].
  - unfold bind. rewrite sequentialStep_eq. cbv zeta.
    destruct (getCompletion (completionArgs c image (priorPage s)))
      as [e|resp] eqn:Eg.
    + intros [= <- <-]. now apply tidy_fail, tidy_call.
    + intros Hrest. eapply IH; [|exact Hrest].
      exact (tidy_ok _ k resp (tidy_call c s k image Ht)).
Qed.

Lemma promiseAll_tidy (c : Ctx) (limit : Z) (sched : list SchedEvent)
    (pool : Pool) (s s' : State) (r : Res (list (option string))) :
  tidy s -> all c limit sched pool s = (s', r) -> tidy s'.
Proof.
  intros Ht H.
  pose proof (promiseAll_rule getCompletion formatMarkdown c limit
                (fun _ t => tidy t) (fun _ t => tidy t)) as Rule.
  eapply Rule in H; clear Rule.
  - destruct r; [destruct H as (? & ? & _)|auto|destruct H]; auto.
  - intros ? ? ? ? ? Hs _ ?. now apply tidy_call.
  - intros ? ? ? ? ? ? Hs _ _. now apply tidy_ok.
  - intros ? ? ? ? ? ? Hs _ _. now apply tidy_fail.
  - exact Ht.
Qed.

(** *** The arguments of the calls *)

Lemma forOf_calls (c : Ctx) (rest : list string) :
  forall done s s' r,
    CallsFrom c (done ++ rest) (trace s) ->
    forOf (length done) rest (step c) s = (s', r) ->
    CallsFrom c (done ++ rest) (trace s').
Proof.
  induction rest as [|image rest IH]; intros done s s' r Hc; simpl.
  - now intros [= <- <-].
  - unfold bind. rewrite sequentialStep_eq. cbv zeta.
    assert (Hnew : CallsFrom c (done ++ image :: rest)
                     (trace s ++
                      [EvCall (length done)
                         (completionArgs c image (priorPage s))])).
    { intros i args. rewrite calls_app. simpl.
      intros [Hin|[= -> ->]%list_elem_of_singleton]%elem_of_app; [eauto|].
      exists image, (priorPage s). split; [|reflexivity].
      now rewrite list_lookup_middle. }
    destruct (getCompletion (completionArgs c image (priorPage s)))
      as [e|resp] eqn:Eg.
    + intros [= <- <-]. intros i args. simpl.
      rewrite !calls_app. simpl. rewrite !app_nil_r.
      intros Hin. apply Hnew. now rewrite calls_app.
    + intros Hrest.
      replace (done ++ image :: rest) with ((done ++ [image]) ++ rest) in *
        by now rewrite <- app_assoc.
      eapply IH; [|rewrite length_app; simpl;
                   rewrite Nat.add_1_r; exact Hrest].
      intros i args. simpl. rewrite !calls_app. simpl. rewrite !app_nil_r.
      intros Hin. apply Hnew. now rewrite calls_app.
Qed.

Lemma promiseAll_calls (c : Ctx) (images : list string) (limit : Z)
    (sched : list SchedEvent) (s s' : State)
    (r : Res (list (option string))) :
  trace s = [] ->
  batches c images limit sched s = (s', r) ->
  CallsFrom c images (trace s').
Proof.
  intros Ht H. unfold processPagesInBatches in H.
  pose proof (promiseAll_rule getCompletion formatMarkdown c limit
                (fun pool t =>
                   (forall index image, (index, image) ∈ queue pool ->
                                        images !! index = Some image) /\
                   CallsFrom c images (trace t))
                (fun _ t => CallsFrom c images (trace t))) as Rule.
  eapply Rule in H; clear Rule.
  - destruct r; [destruct H as (? & (_ & ?) & _)|auto|destruct H as (? & _ & ?)];
      auto.
  - intros pool t index image waiting [Hq Hc] Hqueue. simpl. split.
    + intros i img Hin. apply Hq. rewrite Hqueue.
      now apply list_elem_of_further.
    + intros i args. rewrite calls_app. simpl.
      intros [Hin|[= -> ->]%list_elem_of_singleton]%elem_of_app; [eauto|].
      exists image, (priorPage t). split; [|reflexivity].
      apply Hq. rewrite Hqueue. apply list_elem_of_here.
  - intros pool t index p running resp [Hq Hc] _ _. simpl. split; auto.
    intros i args. rewrite calls_app. simpl. rewrite app_nil_r. auto.
  - intros pool t index p running e [Hq Hc] _ _. simpl.
    intros i args. rewrite !calls_app. simpl. rewrite !app_nil_r. auto.
  - simpl. split.
    + intros index image [k Hk]%list_elem_of_lookup_1.
      rewrite list_lookup_imap in Hk.
      destruct (images !! k) as [img|] eqn:E; [|discriminate].
      simpl in Hk. now injection Hk as <- <-.
    + intros i args. rewrite Ht. intros Hin. now apply elem_of_nil in Hin.
Qed.

(** What either executor leaves, however it ends. *)
Lemma exec_more (a : DocumindArgs.t) (sched : list SchedEvent) (p : Prepared)
    (s s' : State) (r : Res unit) :
  trace s = [] -> priorPage s = "" ->
  exec a sched p s = (s', r) ->
  CallsFrom (ctx p) (images p) (trace s') /\
  priorInv s' /\ writes (trace s') = [].
Proof.
  intros Ht Hp H.
  assert (Htidy : tidy s).
  { split; [now apply PriorInv_fresh | now rewrite Ht]. }
  assert (Hc0 : CallsFrom (ctx p) (images p) (trace s)).
  { intros i args. rewrite Ht. intros Hin. now apply elem_of_nil in Hin. }
  unfold execute in H. destruct (c_maintainFormat (ctx p)).
  - split.
    + apply (forOf_calls (ctx p) (images p) [] s s' r Hc0 H).
    + exact (forOf_tidy (ctx p) (images p) 0%nat s s' r Htidy H).
  - unfold bind, pLimit in H.
    destruct (1 <=? default 10 (DocumindArgs.concurrency a))%Z.
    + unfold ret in H.
      destruct (batches (ctx p) (images p) _ sched s) as [s2 res] eqn:Eb.
      pose proof (promiseAll_calls _ _ _ _ _ _ _ Ht Eb) as Hc.
      unfold processPagesInBatches in Eb.
      apply (promiseAll_tidy _ _ _ _ _ _ _ Htidy) in Eb.
      destruct res; injection H as <- <-; auto.
    + injection H as <- <-. auto.
Qed.

(** *** The end of a run *)

(** Case analysis on what a run has looked at, innermost test first. *)
Ltac run_paths H :=
  repeat (match type of H with
          | context [match ?x with _ => _ end] =>
              lazymatch x with
              | context [match _ with _ => _ end] => fail
              | _ => destruct x eqn:?
              end
          end; simpl in H).

Lemma finish_trace (env : Env) (a : DocumindArgs.t) (p : Prepared)
    (s s' : State) (r : Res DocumindOutput.t) :
  finish env a p s = (s', r) ->
  priorPage s' = priorPage s /\
  aggregatedMarkdown s' = aggregatedMarkdown s /\
  trace s'
  = trace s ++
    match r with
    | Ok _ =>
        match DocumindArgs.outputDir a with
        | Some outputDir =>
            if String.eqb outputDir "" then []
            else [EvWriteFile
                    (path_join outputDir (fileNameOf (localPath p) ++ ".md"))
                    (JsString.join (String "010" (String "010" ""))
                                   (aggregatedMarkdown s))]
        | None => []
        end ++
        (if default true (DocumindArgs.cleanup a)
         then [EvRemove (c_tempDirectory (ctx p))] else [])
    | Throw e =>
        match DocumindArgs.outputDir a with
        | Some outputDir =>
            if String.eqb outputDir "" then []
            else match fsys s !! outputDir with
                 | Some _ =>
                     [EvWriteFile
                        (path_join outputDir
                                   (fileNameOf (localPath p) ++ ".md"))
                        (JsString.join (String "010" (String "010" ""))
                                       (aggregatedMarkdown s))]
                 | None => []
                 end
        | None => []
        end
    | Stuck => []
    end /\
  (forall e, r = Throw e ->
     (exists outputDir,
        DocumindArgs.outputDir a = Some outputDir /\
        String.eqb outputDir "" = false /\
        fsys s !! outputDir = None /\ e = enoent) \/
     (default true (DocumindArgs.cleanup a) = true /\
      removeError env (c_tempDirectory (ctx p)) = Some e)).
Proof.
  intros H.
  unfold finish, writeFile, remove, bind, ret, throw, modify, gets in H.
  simpl in H.
  run_paths H; injection H as <- <-; simpl;
    rewrite <- ?app_assoc, ?app_nil_r; conjs; try reflexivity;
    try discriminate; intros e' [= <-]; eauto 10.
Qed.

Lemma lastFormatted_quiet (tr extra : list Event) :
  settles extra = [] -> lastFmt (tr ++ extra) = lastFmt tr.
Proof.
  unfold lastFormatted. rewrite foldl_app. generalize (foldl
    (fun prior ev => match ev with
                     | EvSettle _ (inr r) => fmt r
                     | _ => prior
                     end) "" tr) as acc.
  induction extra as [|ev extra IH]; intros acc Hs; simpl; auto.
  destruct ev; simpl in Hs; try discriminate; now apply IH.
Qed.

(** Events that are neither calls nor responses leave the prior pages as
    they are. *)
Lemma PriorInv_extend (s s' : State) (extra : list Event) :
  priorInv s ->
  priorPage s' = priorPage s ->
  trace s' = trace s ++ extra ->
  calls extra = [] -> settles extra = [] ->
  priorInv s'.
Proof.
  intros [Hp Hcalls] Hp' Ht Hc Hs. split.
  - now rewrite Ht, Hp', lastFormatted_quiet.
  - intros pre i args post Hsplit. rewrite Ht in Hsplit.
    apply List.app_eq_app in Hsplit as [l [[Hl Hr]|[Hl Hr]]].
    + destruct l as [|x l].
      * simpl in Hr. rewrite <- Hr in Hc. discriminate.
      * injection Hr as <- _. eapply Hcalls. exact Hl.
    + rewrite Hr, calls_app in Hc. simpl in Hc.
      now destruct (calls l).
Qed.

Lemma finish_prior (env : Env) (a : DocumindArgs.t) (p : Prepared)
    (s s' : State) (r : Res DocumindOutput.t) :
  finish env a p s = (s', r) -> priorInv s -> priorInv s'.
Proof.
  intros H Hp. apply finish_trace in H as (Hprior & _ & Ht & _).
  eapply PriorInv_extend; eauto; destruct r;
    repeat match goal with
           | |- context [match ?x with _ => _ end] => destruct x
           end; reflexivity.
Qed.

(** What holds of every run, however it ends: the prior pages are right, and
    the calls are those of the images found once the file was prepared. *)
Lemma run_more (env : Env) (a : DocumindArgs.t) (sched : list SchedEvent)
    (w : World) (s' : State) (r : Res DocumindOutput.t) :
  run env a sched w = (s', r) ->
  priorInv s' /\
  (trace s' = [] \/
   exists s1 p llm files,
     prep env a (initState w) = (s1, Ok p) /\
     validateLLMParams (default noLLMParams (DocumindArgs.llmParams a))
     = inr llm /\
     ctx p = ctxOf env a llm /\
     fsys s1 !! tempDirectoryOf env a = Some files /\
     images p = List.filter (fun file => JsString.endsWith file ".png") files /\
     CallsFrom (ctx p) (images p) (trace s')).
Proof.
  intros H. apply run_inv in H as [(e & Hp & ->)|(s1 & p & Hp & H)].
  - apply prepared_fresh in Hp as (Ht & Hpp & _).
    split; [now apply PriorInv_fresh | now left].
  - pose proof (prepared_fresh _ _ _ _ _ _ _ _ _ Hp) as (Ht & Hpp & _).
    pose proof Hp as Hok. apply prepare_Ok in Hok
      as (llm & fs2 & ext & files & Hv & _ & _ & _ & _ & Hctx & _ & Hfs & Himg & _).
    assert (Hgoal : forall s2 rr, exec a sched p s1 = (s2, rr) ->
              priorInv s2 /\ CallsFrom (ctx p) (images p) (trace s2)).
    { intros s2 rr He. apply exec_more in He as (? & ? & _); auto. }
    destruct H as [(e & He & ->)|[(He & ->)|(s2 & He & Hf)]].
    + destruct (Hgoal _ _ He). split; auto. right. exists s1, p, llm, files. auto 10.
    + destruct (Hgoal _ _ He). split; auto. right. exists s1, p, llm, files. auto 10.
    + destruct (Hgoal _ _ He) as [Hpi Hcf]. split.
      * eapply finish_prior; eauto.
      * right. exists s1, p, llm, files. conjs; auto.
        apply finish_spec in Hf as (_ & Hcs & _).
        intros i args. rewrite Hcs. apply Hcf.
Qed.

(** *** The sequential loop, image by image *)

Lemma forOf_out (c : Ctx) (rest : list string) :
  forall done s s',
    seqOut c done s ->
    forOf (length done) rest (step c) s = (s', Ok tt) ->
    seqOut c (done ++ rest) s'.
Proof.
  induction rest as [|image rest IH]; intros done s s' Hout; simpl.
  - intros [= <-]. now rewrite app_nil_r.
  - unfold bind. rewrite sequentialStep_eq. cbv zeta.
    destruct (getCompletion (completionArgs c image (priorPage s)))
      as [e|resp] eqn:Eg; [discriminate|].
    intros Hrest.
    replace (done ++ image :: rest) with ((done ++ [image]) ++ rest)
      by now rewrite <- app_assoc.
    eapply IH; [|rewrite length_app; simpl; rewrite Nat.add_1_r; exact Hrest].
    destruct Hout as (Hlc & Hls & Hla & Hall).
    unfold SeqOut. simpl.
    rewrite !calls_app, !settles_app. simpl. rewrite !app_nil_r.
    rewrite !length_app. simpl. conjs; try lia.
    intros i img Hi.
    destruct (decide (i < length done)%nat) as [Hlt|Hge].
    + rewrite lookup_app_l in Hi by auto.
      destruct (Hall _ _ Hi) as (prior & r0 & H1 & H2 & H3 & H4).
      exists prior, r0. conjs; auto; now apply lookup_app_l_Some.
    + rewrite lookup_app_r in Hi by lia.
      destruct (i - length done)%nat eqn:E; [|now destruct n].
      injection Hi as <-. assert (i = length done) as -> by lia.
      exists (priorPage s), resp. conjs; auto.
      * rewrite lookup_app_r by lia. rewrite Hlc, Nat.sub_diag. reflexivity.
      * rewrite lookup_app_r by lia. rewrite Hls, Nat.sub_diag. reflexivity.
      * rewrite lookup_app_r by lia. rewrite Hla, Nat.sub_diag. reflexivity.
Qed.

(** * More properties of [documind] *)

(** X1. [llmParams] is validated before anything else: when
    [validateLLMParams] throws, the run is rejected with what it threw, also
    when the API key or the file path is missing, and nothing has been done:
    the disk and the heap are the caller's and no call has been made. *)
Theorem invalid_llm_params_reject_first (env : Env) (a : DocumindArgs.t)
    (sched : list SchedEvent) (w : World) (e : Thrown) :
  validateLLMParams (default noLLMParams (DocumindArgs.llmParams a)) = inl e ->
  run env a sched w = (initState w, Throw e).
Proof.
  intros Hv. unfold documind, bind, prepare. now rewrite Hv.
Qed.

(** X2. With valid [llmParams] and an API key that is absent or empty, the
    run is rejected with the error "Missing OpenAI API key" before it touches
    the disk, the caller's array or the adapter. *)
Theorem missing_api_key_rejects (env : Env) (a : DocumindArgs.t)
    (sched : list SchedEvent) (w : World) (llm : LLMParams) :
  validateLLMParams (default noLLMParams (DocumindArgs.llmParams a))
  = inr llm ->
  default "" (DocumindArgs.openaiAPIKey a) = "" ->
  run env a sched w
  = (initState w, Throw (JsError "Error" "Missing OpenAI API key")).
Proof.
  intros Hv Hk. unfold documind, bind, prepare. now rewrite Hv, Hk.
Qed.

(** X3. With valid [llmParams], an API key and an empty file path, the run
    is rejected with the error "Missing file path" before it touches the
    disk, the caller's array or the adapter. *)
Theorem missing_file_path_rejects (env : Env) (a : DocumindArgs.t)
    (sched : list SchedEvent) (w : World) (llm : LLMParams) :
  validateLLMParams (default noLLMParams (DocumindArgs.llmParams a))
  = inr llm ->
  default "" (DocumindArgs.openaiAPIKey a) <> "" ->
  DocumindArgs.filePath a = "" ->
  run env a sched w = (initState w, Throw (JsError "Error" "Missing file path")).
Proof.
  intros Hv Hk%String.eqb_neq Hf. unfold documind, bind, prepare.
  now rewrite Hv, Hk, Hf.
Qed.

(** X4. When [downloadFile] returns no local path, or an empty one, the run
    is rejected with the string "Failed to save file to local drive": the
    disk is as the download left it, with the temporary directory made, the
    caller's array has not been sorted and no call has been made. *)
Theorem download_without_path_rejects (env : Env) (a : DocumindArgs.t)
    (sched : list SchedEvent) (w : World) (s' : State)
    (r : Res DocumindOutput.t) (llm : LLMParams) (fs2 : FS) (ext : string)
    (lp : option string) :
  validateLLMParams (default noLLMParams (DocumindArgs.llmParams a))
  = inr llm ->
  default "" (DocumindArgs.openaiAPIKey a) <> "" ->
  DocumindArgs.filePath a <> "" ->
  downloadFile (DocumindArgs.filePath a) (tempDirectoryOf env a)
               (ensureDirFs (tempDirectoryOf env a) (w_fsys w))
  = (fs2, inr (ext, lp)) ->
  lp = None \/ lp = Some "" ->
  run env a sched w = (s', r) ->
  r = Throw (JsStr "Failed to save file to local drive") /\
  fsys s' = fs2 /\ heap s' = w_heap w /\ trace s' = [].
Proof.
  intros Hv Hk%String.eqb_neq Hf%String.eqb_neq Hd Hlp H.
  unfold documind, prepare, ensureDir, onFs, modify, throw, bind in H.
  rewrite Hv, Hk, Hf in H. simpl in H. rewrite Hd in H.
  destruct Hlp as [-> | ->]; simpl in H; injection H as <- <-; auto.
Qed.

(** X5. Whatever the mode and however the run ends, each call to the
    adapter is for the image of its index among the entries of the temporary
    directory whose name ends in ".png", by its path in that directory, and
    carries the caller's API key and [maintainFormat], the validated
    [llmParams] and the model the run has settled on. *)
Theorem every_call_is_for_a_png_of_the_run (env : Env) (a : DocumindArgs.t)
    (sched : list SchedEvent) (w : World) (s' : State)
    (r : Res DocumindOutput.t) (i : nat) (args : CompletionArgs.t) :
  run env a sched w = (s', r) ->
  EvCall i args ∈ trace s' ->
  exists s1 p image,
    prep env a (initState w) = (s1, Ok p) /\
    images p !! i = Some image /\
    JsString.endsWith image ".png" = true /\
    CompletionArgs.imagePath args = path_join (tempDirectoryOf env a) image /\
    CompletionArgs.apiKey args = default "" (DocumindArgs.openaiAPIKey a) /\
    CompletionArgs.maintainFormat args
    = default false (DocumindArgs.maintainFormat a) /\
    CompletionArgs.model args = defaultModelOf env a /\
    validateLLMParams (default noLLMParams (DocumindArgs.llmParams a))
    = inr (CompletionArgs.llmParams args).
Proof.
  intros H Hin. apply run_more in H as (_ & [Hnil|H]).
  - rewrite Hnil in Hin. now apply elem_of_nil in Hin.
  - destruct H as (s1 & p & llm & files & Hp & Hv & Hctx & _ & Himg & Hcalls).
    apply elem_of_calls, Hcalls in Hin as (image & prior & Hi & ->).
    exists s1, p, image. rewrite Hctx. simpl. conjs; auto.
    assert (Hmem : In image (images p)).
    { apply list_elem_of_In, list_elem_of_lookup. eauto. }
    rewrite Himg in Hmem. now apply List.filter_In in Hmem.
Qed.

(** X6. The model of every call is the caller's when one is given;
    otherwise it is gpt-4o-mini when [BASE_URL] is unset, empty or the OpenAI
    address, and llava for any other address. *)
Theorem calls_use_the_default_model_of_the_base_url (env : Env)
    (a : DocumindArgs.t) (sched : list SchedEvent) (w : World) (s' : State)
    (r : Res DocumindOutput.t) (i : nat) (args : CompletionArgs.t) :
  run env a sched w = (s', r) ->
  EvCall i args ∈ trace s' ->
  CompletionArgs.model args
  = match DocumindArgs.model a, BASE_URL env with
    | Some m, _ => m
    | None, None => gpt_4o_mini
    | None, Some url =>
        if String.eqb url "" || String.eqb url "https://api.openai.com/v1"
        then gpt_4o_mini else llava
    end.
Proof.
  intros H Hin. apply run_more in H as (_ & [Hnil|H]).
  - rewrite Hnil in Hin. now apply elem_of_nil in Hin.
  - destruct H as (s1 & p & llm & files & Hp & Hv & Hctx & _ & Himg & Hcalls).
    apply elem_of_calls, Hcalls in Hin as (image & prior & Hi & ->).
    rewrite Hctx. simpl. unfold defaultModelOf, baseUrlOf, openaiUrl.
    destruct (DocumindArgs.model a); [reflexivity|].
    destruct (BASE_URL env) as [url|]; [|reflexivity].
    destruct (String.eqb url "") eqn:E; [reflexivity|]. simpl.
    now destruct (String.eqb url "https://api.openai.com/v1").
Qed.

(** X7. In both modes the prior page given to a call is the formatted
    response of the last call that had succeeded when the call was made,
    whichever work unit that was, and the empty string when none had. *)
Theorem prior_page_is_the_last_formatted_response (env : Env)
    (a : DocumindArgs.t) (sched : list SchedEvent) (w : World) (s' : State)
    (r : Res DocumindOutput.t) (pre post : list Event) (i : nat)
    (args : CompletionArgs.t) :
  run env a sched w = (s', r) ->
  trace s' = pre ++ EvCall i args :: post ->
  CompletionArgs.priorPage args = lastFmt pre.
Proof.
  intros H Ht. apply run_more in H as ((_ & Hcalls) & _). eauto.
Qed.

Lemma formattedPages_contents (pa : PagesArg) (h : Heap) (agg : list string) :
  Page.content <$> formattedPages pa h agg = agg.
Proof.
  apply list_eq. intros i. unfold formattedPages.
  rewrite list_lookup_fmap, list_lookup_imap.
  now destruct (agg !! i).
Qed.

(** X8. In sequential mode a run that produces an output has made call [i]
    for image [i] and received response [i] for it, and page [i] holds that
    response formatted, with its length and the page number of index [i]:
    the pages are in the order of the images. *)
Theorem sequential_pages_follow_unit_index (env : Env) (a : DocumindArgs.t)
    (sched : list SchedEvent) (w : World) (s' : State)
    (out : DocumindOutput.t) :
  default false (DocumindArgs.maintainFormat a) = true ->
  run env a sched w = (s', Ok out) ->
  exists s1 p,
    prep env a (initState w) = (s1, Ok p) /\
    length (DocumindOutput.pages out) = length (images p) /\
    forall i image,
      images p !! i = Some image ->
      exists args r pg,
        calls (trace s') !! i = Some (i, args) /\
        CompletionArgs.imagePath args
        = path_join (tempDirectoryOf env a) image /\
        getCompletion args = inr r /\
        settles (trace s') !! i = Some (i, inr r) /\
        DocumindOutput.pages out !! i = Some pg /\
        Page.content pg = formatMarkdown (CompletionResponse.content r) /\
        Page.contentLength pg = String.length (Page.content pg) /\
        Page.page pg = pageNumber (pagesOf a) (heap s') i.
Proof.
  intros Hm H. apply run_Ok in H as (s1 & p & s2 & Hp & He & Hf).
  exists s1, p. split; [exact Hp|].
  pose proof (prepared_fresh _ _ _ _ _ _ _ _ _ Hp) as (Ht & Hpp & Ha & Hb).
  apply prepare_Ok in Hp
    as (llm & fs2 & ext & files & _ & _ & _ & _ & _ & Hctx & _).
  assert (Hmf : c_maintainFormat (ctx p) = true) by now rewrite Hctx.
  assert (Htmp : c_tempDirectory (ctx p) = tempDirectoryOf env a)
    by now rewrite Hctx.
  unfold execute in He. rewrite Hmf in He.
  apply (forOf_out (ctx p) (images p) [] s1 s2) in He.
  - destruct He as (_ & _ & Hla & Hall). simpl in Hla, Hall.
    apply finish_spec in Hf as (Hh & Hcs & Hss & _ & -> & _).
    simpl. rewrite formattedPages_length. split; [exact Hla|].
    intros i image Hi.
    destruct (Hall _ _ Hi) as (prior & r & Hc & Hg & Hs & Hagg).
    exists (completionArgs (ctx p) image prior), r. eexists. conjs.
    + now rewrite Hcs.
    + simpl. now rewrite Htmp.
    + exact Hg.
    + now rewrite Hss.
    + unfold formattedPages. rewrite list_lookup_imap, Hagg. reflexivity.
    + reflexivity.
    + reflexivity.
    + simpl. now rewrite Hh.
  - unfold SeqOut. rewrite Ht, Ha. simpl. conjs; auto.
    intros i image Hi. discriminate.
Qed.

(** *** The sequential loop, when a call fails *)

(** A loop that is rejected has made the calls of the units up to the one
    that failed, each for its own image, and that one has failed with the
    error of the rejection. *)
Lemma forOf_fail (c : Ctx) (rest : list string) :
  forall done s s' e,
    seqOut c done s ->
    forOf (length done) rest (step c) s = (s', Throw e) ->
    exists pre image post,
      rest = pre ++ image :: post /\
      (length (done ++ pre), e) ∈ failures (trace s') /\
      forall i img,
        (done ++ pre ++ [image]) !! i = Some img ->
        exists prior,
          calls (trace s') !! i = Some (i, completionArgs c img prior).
Proof.
  induction rest as [|image rest IH]; intros done s s' e Hout; simpl.
  - discriminate.
  - unfold bind.
    destruct (step c (length done) image s) as [s1 r1] eqn:Estep.
    pose proof Estep as Eq. rewrite sequentialStep_eq in Eq. cbv zeta in Eq.
    destruct (getCompletion (completionArgs c image (priorPage s)))
      as [e0|resp] eqn:Eg; injection Eq as <- <-.
    + intros [= <- <-]. exists [], image, rest. conjs.
      * reflexivity.
      * rewrite app_nil_r. apply elem_of_failures. simpl.
        rewrite !elem_of_app, !list_elem_of_singleton. auto.
      * destruct Hout as (Hlc & _ & _ & Hall). intros i img Hi. simpl in *.
        rewrite !calls_app. simpl. rewrite !app_nil_r.
        destruct (decide (i < length done)%nat) as [Hlt|Hge].
        -- rewrite lookup_app_l in Hi by auto.
           destruct (Hall _ _ Hi) as (prior & r0 & H1 & _).
           exists prior. now apply lookup_app_l_Some.
        -- rewrite lookup_app_r in Hi by lia.
           destruct (i - length done)%nat eqn:E; [|now destruct n].
           injection Hi as <-. assert (i = length done) as -> by lia.
           exists (priorPage s).
           rewrite lookup_app_r by lia. rewrite Hlc, Nat.sub_diag. reflexivity.
    + intros Hrest.
      assert (Hmid : seqOut c (done ++ [image])
                (push [fmt resp]
                   (account (CompletionResponse.inputTokens resp)
                      (CompletionResponse.outputTokens resp) (fmt resp)
                      (emit (EvSettle (length done) (inr resp))
                         (emit (EvCall (length done)
                                  (completionArgs c image (priorPage s)))
                               s))))).
      { apply (forOf_out c [image] done s); [exact Hout|].
        simpl. unfold bind. rewrite Estep. reflexivity. }
      replace (S (length done)) with (length (done ++ [image])) in Hrest
        by (rewrite length_app; simpl; lia).
      destruct (IH _ _ _ _ Hmid Hrest) as (pre & img & post & -> & Hf & Hall).
      exists (image :: pre), img, post.
      rewrite <- !app_assoc in Hf, Hall. simpl in Hf, Hall. auto.
Qed.

(** * What the specification states of the prior page *)

(** C5. In sequential mode the calls are made in the order of the work
    units, one for each unit until a call fails: the call of unit [i] is
    made for image [i] as long as no call of an earlier unit has failed, so
    for every unit when none fails. The first call is given the empty string
    as prior page, and each later one the formatted response of the call of
    the unit before it. *)
Theorem sequential_prior_page_is_previous_output (env : Env)
    (a : DocumindArgs.t) (sched : list SchedEvent) (w : World) (s' : State)
    (r : Res DocumindOutput.t) :
  default false (DocumindArgs.maintainFormat a) = true ->
  run env a sched w = (s', r) ->
  (forall i j args,
     calls (trace s') !! i = Some (j, args) ->
     j = i /\
     match i with
     | O => CompletionArgs.priorPage args = ""
     | S k =>
         exists resp,
           settles (trace s') !! k = Some (k, inr resp) /\
           CompletionArgs.priorPage args
           = formatMarkdown (CompletionResponse.content resp)
     end) /\
  (forall s1 p i image,
     prep env a (initState w) = (s1, Ok p) ->
     images p !! i = Some image ->
     (forall k e, (k, e) ∈ failures (trace s') -> (i <= k)%nat) ->
     exists args,
       calls (trace s') !! i = Some (i, args) /\
       CompletionArgs.imagePath args
       = path_join (tempDirectoryOf env a) image /\
       match i with
       | O => CompletionArgs.priorPage args = ""
       | S k =>
           exists resp,
             settles (trace s') !! k = Some (k, inr resp) /\
             CompletionArgs.priorPage args
             = formatMarkdown (CompletionResponse.content resp)
       end).
Proof.
  intros Hm H.
  assert (Hthr : Threaded formatMarkdown (calls (trace s'))
                          (settles (trace s'))).
  { pose proof H as Hrun.
    apply (run_seq validateLLMParams downloadFile convertFileToPdf
             convertPdfToImages getCompletion formatMarkdown) in Hrun
      as [(c & prior & Hlog)|(c & e & Hfail & _)]; auto.
    - now apply SeqLog_facts in Hlog as (_ & Hthr & _).
    - now apply SeqFail_facts in Hfail as (Hthr & _). }
  split; [exact Hthr|].
  intros s1 p i image Hp Hi Hnone.
  assert (Hcall : exists prior,
             calls (trace s') !! i
             = Some (i, completionArgs (ctx p) image prior)).
  { apply run_inv in H as [(e & Hp' & ->)|(s0 & p0 & Hp' & H)];
      rewrite Hp in Hp'; [discriminate|]. injection Hp' as <- <-.
    pose proof (prepared_fresh _ _ _ _ _ _ _ _ _ Hp) as (Ht & Hpp & Ha & Hb).
    pose proof Hp as Hok. apply prepare_Ok in Hok
      as (llm & fs2 & ext & files & _ & _ & _ & _ & _ & Hctx & _).
    assert (Hmf : c_maintainFormat (ctx p) = true) by now rewrite Hctx.
    assert (H0 : seqOut (ctx p) [] s1).
    { unfold SeqOut. rewrite Ht, Ha. simpl. conjs; auto.
      intros i0 image0 Hi0. discriminate. }
    unfold execute in H. rewrite Hmf in H.
    destruct H as [(e & He & ->)|[(He & ->)|(s2 & He & Hf)]].
    - apply (forOf_fail (ctx p) (images p) [] s1) in He
        as (pre & img & post & Himg & Hf & Hall); [|exact H0].
      simpl in Hf, Hall. apply Hnone in Hf. apply Hall.
      rewrite Himg in Hi.
      destruct (decide (i < length pre)%nat) as [Hlt|Hge].
      + rewrite lookup_app_l in Hi by auto.
        now apply lookup_app_l_Some.
      + assert (i = length pre) as -> by lia.
        rewrite list_lookup_middle in Hi by reflexivity.
        now rewrite list_lookup_middle.
    - exfalso. revert He. generalize (images p) 0%nat s1.
      intros l. induction l as [|x l IH]; intros n s0; simpl.
      + discriminate.
      + unfold bind. rewrite sequentialStep_eq. cbv zeta.
        destruct (getCompletion _); [discriminate|]. apply IH.
    - apply (forOf_out (ctx p) (images p) [] s1 s2) in He; [|exact H0].
      destruct He as (_ & _ & _ & Hall). simpl in Hall.
      destruct (Hall _ _ Hi) as (prior & r0 & Hc & _).
      apply finish_spec in Hf as (_ & Hcs & _).
      exists prior. now rewrite Hcs. }
  destruct Hcall as (prior & Hcall).
  exists (completionArgs (ctx p) image prior). split; [exact Hcall|].
  split.
  - apply prepare_Ok in Hp
      as (llm & fs2 & ext & files & _ & _ & _ & _ & _ & Hctx & _).
    simpl. now rewrite Hctx.
  - now destruct (Hthr _ _ _ Hcall) as (_ & Hprior).
Qed.

(** X9. A run that produces an output has written exactly one file when
    [outputDir] is given and not empty: the file [fileName].md of that
    directory, holding the contents of the pages of the output in order,
    separated by an empty line. Without [outputDir], or with an empty one, no
    run writes any file. A run that is rejected has written no file, with one
    exception: when it is the removal of the temporary directory that
    fails, the file has been written before, it stays, and the run is
    rejected with the error of the removal. *)
Theorem output_file_holds_the_pages (env : Env) (a : DocumindArgs.t)
    (sched : list SchedEvent) (w : World) (s' : State)
    (r : Res DocumindOutput.t) :
  run env a sched w = (s', r) ->
  (forall out, r = Ok out ->
     writes (trace s')
     = match DocumindArgs.outputDir a with
       | Some outputDir =>
           if String.eqb outputDir "" then []
           else [(path_join outputDir (DocumindOutput.fileName out ++ ".md"),
                  JsString.join (String "010" (String "010" ""))
                    (Page.content <$> DocumindOutput.pages out))]
       | None => []
       end) /\
  (DocumindArgs.outputDir a = None \/ DocumindArgs.outputDir a = Some "" ->
   writes (trace s') = []) /\
  (forall e, r = Throw e ->
     writes (trace s') = [] \/
     (default true (DocumindArgs.cleanup a) = true /\
      removeError env (tempDirectoryOf env a) = Some e /\
      exists outputDir s1 p,
        DocumindArgs.outputDir a = Some outputDir /\
        prep env a (initState w) = (s1, Ok p) /\
        writes (trace s')
        = [(path_join outputDir (fileNameOf (localPath p) ++ ".md"),
            JsString.join (String "010" (String "010" ""))
                          (aggregatedMarkdown s'))])).
Proof.
  intros H. apply run_inv in H as [(e & Hp & ->)|(s1 & p & Hp & H)].
  - apply prepared_fresh in Hp as (-> & _).
    split; [discriminate|]. split; auto.
  - pose proof (prepared_fresh _ _ _ _ _ _ _ _ _ Hp) as (Ht & Hpp & _).
    assert (Hex : forall s2 rr, exec a sched p s1 = (s2, rr) ->
                                writes (trace s2) = []).
    { intros s2 rr He. now apply exec_more in He as (_ & _ & ?). }
    destruct H as [(e & He & ->)|[(He & ->)|(s2 & He & Hf)]];
      try (split; [discriminate | split; intros; [|left]; eapply Hex; eauto]).
    pose proof (Hex _ _ He) as Hw.
    pose proof Hf as Hout. apply finish_spec in Hout as (_ & _ & _ & _ & Hout).
    apply finish_trace in Hf as (_ & Hagg & Htr & Hwhy). split; [|split].
    + intros out ->. destruct Hout as (-> & _). simpl.
      rewrite formattedPages_contents, Htr, writes_app, Hw. simpl.
      destruct (DocumindArgs.outputDir a) as [d|];
        [destruct (String.eqb d "")|];
        destruct (default true (DocumindArgs.cleanup a)); reflexivity.
    + intros Hno. rewrite Htr, writes_app, Hw. simpl.
      destruct r as [out|e|]; try reflexivity;
        destruct Hno as [-> | ->]; simpl;
        try destruct (default true (DocumindArgs.cleanup a)); reflexivity.
    + intros e ->. rewrite Htr, writes_app, Hw, Hagg. simpl.
      destruct (Hwhy e eq_refl) as [(d & Hd & Hne & Hnone & _)|[Hc Hrm]].
      * left. now rewrite Hd, Hne, Hnone.
      * destruct (DocumindArgs.outputDir a) as [d|] eqn:Hd; [|now left].
        destruct (String.eqb d ""); [now left|].
        destruct (fsys s2 !! d); [|now left].
        right. split; [exact Hc|].
        pose proof Hp as Hok. apply prepare_Ok in Hok
          as (llm & fs2 & ext & files & _ & _ & _ & _ & _ & Hctx & _).
        rewrite Hctx in Hrm. split; [exact Hrm|].
        exists d, s1, p. conjs; auto.
Qed.

(** X10. In sequential mode neither [concurrency] nor the order in which
    calls could settle plays any part: the run is the same for every value
    of [concurrency], also one below 1, and for every schedule. *)
Theorem sequential_run_ignores_concurrency (env : Env) (a : DocumindArgs.t)
    (sched sched' : list SchedEvent) (w : World) (concurrency : option Z) :
  default false (DocumindArgs.maintainFormat a) = true ->
  run env (withConcurrency concurrency a) sched' w = run env a sched w.
Proof.
  intros Hm. unfold documind, bind.
  change (prep env (withConcurrency concurrency a))
    with (prep env a).
  destruct (prep env a (initState w)) as [s1 [p| |]] eqn:Hp; try reflexivity.
  apply prepare_Ok in Hp
    as (llm & fs2 & ext & files & _ & _ & _ & _ & _ & Hctx & _).
  assert (Hmf : c_maintainFormat (ctx p) = true) by now rewrite Hctx.
  unfold execute. rewrite Hmf. reflexivity.
Qed.

(** X19. The effects of a run that produces an output come in the order of
    the code: first the calls, none of which has failed and as many as the
    output has pages, with nothing written or removed meanwhile; then the
    output file, when [outputDir] is given; last the removal of the
    temporary directory, unless [cleanup] is off. *)
Theorem completed_run_writes_then_removes (env : Env) (a : DocumindArgs.t)
    (sched : list SchedEvent) (w : World) (s' : State)
    (out : DocumindOutput.t) :
  run env a sched w = (s', Ok out) ->
  exists body,
    trace s'
    = body ++
      match DocumindArgs.outputDir a with
      | Some outputDir =>
          if String.eqb outputDir "" then []
          else [EvWriteFile
                  (path_join outputDir (DocumindOutput.fileName out ++ ".md"))
                  (JsString.join (String "010" (String "010" ""))
                     (Page.content <$> DocumindOutput.pages out))]
      | None => []
      end ++
      (if default true (DocumindArgs.cleanup a)
       then [EvRemove (tempDirectoryOf env a)] else []) /\
    writes body = [] /\ removals body = [] /\ failures body = [] /\
    length (calls body) = length (DocumindOutput.pages out) /\
    length (settles body) = length (DocumindOutput.pages out).
Proof.
  intros H. apply run_Ok in H as (s1 & p & s2 & Hp & He & Hf).
  pose proof (prepared_fresh _ _ _ _ _ _ _ _ _ Hp) as (Ht & Hpp & Ha & Hb).
  apply prepare_Ok in Hp
    as (llm & fs2 & ext & files & _ & _ & _ & _ & _ & Hctx & _).
  pose proof (exec_more _ _ _ _ _ _ Ht Hpp He) as (_ & _ & Hw).
  apply exec_Ok in He as ((_ & _ & Hrm) & _ & Hfail & Hc & Hs & Hl); auto.
  pose proof Hf as Hout. apply finish_spec in Hout as (_ & _ & _ & _ & -> & _).
  apply finish_trace in Hf as (_ & _ & Htr & _).
  exists (trace s2). simpl.
  rewrite formattedPages_contents, formattedPages_length, Htr, Hctx. simpl.
  apply (f_equal length) in Hc. rewrite length_fmap, length_seq in Hc.
  conjs; auto; congruence.
Qed.

End RunMore.

(** * More properties of the file name *)

Section FileNameMore.

Import JsString.

Lemma split_nonempty (sep : ascii) (s : string) : split sep s <> [].
Proof.
  destruct s as [|c s]; simpl; [discriminate|].
  destruct (Ascii.eqb c sep); [discriminate|].
  destruct (split sep s); discriminate.
Qed.

(** A string without the separator is its own single part. *)
Lemma split_without (sep : ascii) (s : string) :
  allChars (fun c => negb (Ascii.eqb c sep)) s = true ->
  split sep s = [s].
Proof.
  induction s as [|c s IH]; simpl; auto.
  intros [Hc Hs]%andb_true_iff.
  destruct (Ascii.eqb c sep); [discriminate|].
  now rewrite IH.
Qed.

(** Splitting at a separator that is there splits both sides. *)
Lemma split_app (sep : ascii) (a b : string) :
  split sep (a ++ String sep b) = split sep a ++ split sep b.
Proof.
  induction a as [|c a IH]; simpl.
  - now rewrite Ascii.eqb_refl.
  - destruct (Ascii.eqb c sep); [now rewrite IH|].
    rewrite IH.
    pose proof (split_nonempty sep a) as Hne.
    now destruct (split sep a).
Qed.

Lemma at_last_app (l1 l2 : list string) :
  l2 <> [] ->
  at_ (l1 ++ l2) (length (l1 ++ l2) - 1) = at_ l2 (length l2 - 1).
Proof.
  intros Hne. unfold at_. rewrite length_app.
  destruct l2 as [|x l2]; [congruence|]. simpl.
  rewrite lookup_app_r by lia. f_equal. f_equal. lia.
Qed.

Lemma endOfPath_join (dir name : string) :
  allChars (fun c => negb (Ascii.eqb c "/")) name = true ->
  endOfPath (path_join dir name) = name.
Proof.
  intros Hn. unfold endOfPath, path_join. cbv zeta.
  change (dir ++ "/" ++ name)%string with (dir ++ String "/" name)%string.
  rewrite split_app, at_last_app by apply split_nonempty.
  now rewrite split_without.
Qed.

Lemma allChars_app (p : ascii -> bool) (a b : string) :
  allChars p (a ++ b) = allChars p a && allChars p b.
Proof.
  induction a as [|c a IH]; simpl; auto. now rewrite IH, andb_assoc.
Qed.

Lemma rawFileName_join_ext (dir name rest : string) :
  allChars (fun c => negb (Ascii.eqb c "/")) name = true ->
  allChars (fun c => negb (Ascii.eqb c ".")) name = true ->
  allChars (fun c => negb (Ascii.eqb c "/")) rest = true ->
  rawFileName (path_join dir (name ++ "." ++ rest)) = name.
Proof.
  intros Hs Hd Hr. unfold rawFileName.
  rewrite endOfPath_join.
  - change (name ++ "." ++ rest)%string with (name ++ String "." rest)%string.
    rewrite split_app, split_without by auto. reflexivity.
  - rewrite allChars_app, Hs. simpl. exact Hr.
Qed.

Lemma rawFileName_join_plain (dir name : string) :
  allChars (fun c => negb (Ascii.eqb c "/")) name = true ->
  allChars (fun c => negb (Ascii.eqb c ".")) name = true ->
  rawFileName (path_join dir name) = name.
Proof.
  intros Hs Hd. unfold rawFileName.
  rewrite endOfPath_join by auto. now rewrite split_without.
Qed.

Lemma lower_word_no (sep : ascii) (s : string) :
  isLowerWordChar sep = false ->
  allChars isLowerWordChar s = true ->
  allChars (fun c => negb (Ascii.eqb c sep)) s = true.
Proof.
  intros Hsep. induction s as [|c s IH]; simpl; auto.
  intros [Hc Hs]%andb_true_iff. rewrite IH by auto. rewrite andb_true_r.
  destruct (Ascii.eqb_spec c sep) as [->|]; [congruence|reflexivity].
Qed.

(** X11. The file name comes from the last segment of the local path, up to
    its first dot: for a local path that reads [dir/name.rest], and for one
    that reads [dir/name], where [name] has no slash and no dot and [rest]
    no slash, it is the sanitized [name], whatever the directory and
    whatever follows the first dot. *)
Theorem file_name_of_a_path (dir name rest : string) :
  allChars (fun c => negb (Ascii.eqb c "/")) name = true ->
  allChars (fun c => negb (Ascii.eqb c ".")) name = true ->
  allChars (fun c => negb (Ascii.eqb c "/")) rest = true ->
  fileNameOf (dir ++ "/" ++ name ++ "." ++ rest) = sanitize name /\
  fileNameOf (dir ++ "/" ++ name) = sanitize name.
Proof.
  intros Hs Hd Hr.
  change (dir ++ "/" ++ name ++ "." ++ rest)%string
    with (path_join dir (name ++ "." ++ rest)).
  change (dir ++ "/" ++ name)%string with (path_join dir name).
  unfold fileNameOf.
  now rewrite rawFileName_join_ext, rawFileName_join_plain.
Qed.

(** X12. The name of the file a run writes leads back to itself: the
    markdown file [fileName].md, in any directory, given as the input of
    another run, has the same [fileName]. In particular a sanitized name is
    left as it is by the sanitizing. *)
Theorem written_file_name_round_trip (dir localPath : string) :
  fileNameOf (path_join dir (fileNameOf localPath ++ ".md"))
  = fileNameOf localPath /\
  sanitize (fileNameOf localPath) = fileNameOf localPath.
Proof.
  assert (Hclean : sanitize (fileNameOf localPath) = fileNameOf localPath).
  { apply sanitize_clean; [apply sanitize_chars | apply sanitize_length]. }
  split; [|exact Hclean].
  unfold fileNameOf at 1.
  change (fileNameOf localPath ++ ".md")%string
    with (fileNameOf localPath ++ "." ++ "md")%string.
  rewrite rawFileName_join_ext; auto;
    apply lower_word_no; try reflexivity; apply sanitize_chars.
Qed.

End FileNameMore.

(** * Properties of [extract] *)

(** Case analysis on every test a computation has made, innermost first. *)
Ltac tests_of H :=
  repeat (match type of H with
          | context [match ?x with _ => _ end] =>
              lazymatch x with
              | context [match _ with _ => _ end] => fail
              | _ => destruct x eqn:?
              end
          end; simpl in H).

Section ExtractMore.

Import Extract.

Variable Schema : Type.
Variable Data : Type.
Variable isValidFile : string -> Thrown + bool.
Variable getTemplate : string -> Thrown + option Schema.
Variable validateSchema : Schema -> Thrown + (bool * list string).
Variable extractData : DataArgs Schema -> Thrown + Result.t Data.

Local Abbreviation extract :=
  (Extract.extract Schema Data isValidFile getTemplate validateSchema
                   extractData).
Local Abbreviation attempt :=
  (Extract.attempt Schema Data isValidFile getTemplate validateSchema
                   extractData).
Local Abbreviation finalSchemaOf :=
  (Extract.finalSchemaOf Schema getTemplate validateSchema).

(** X13. Without a file, or with an empty file name, [extract] is rejected
    with "Failed to process document: File is required.", having logged the
    error and consulted none of its collaborators. *)
Theorem extract_requires_a_file (o : Options.t Schema) :
  present (Options.file o) = false ->
  extract o
  = ([ConsoleError (JsError "Error" "File is required.")],
     inl (JsError "Error" "Failed to process document: File is required.")).
Proof.
  intros Hf. unfold Extract.extract, Extract.attempt. now rewrite Hf.
Qed.

(** What is thrown in the body of [extract]. *)
Lemma extract_inv (o : Options.t Schema) (events : list (Event Schema))
    (r : Thrown + Output.t Data) :
  extract o = (events, r) ->
  (exists output, attempt o = (events, inr output) /\ r = inr output) \/
  (exists before cause,
     attempt o = (before, inl cause) /\
     events = before ++ [ConsoleError cause] /\
     r = inl (JsError "Error"
                ("Failed to process document: " ++ messageOf cause))).
Proof.
  unfold Extract.extract.
  destruct (attempt o) as [before [cause|output]]; intros [= <- <-]; eauto 10.
Qed.

(** The body logs nothing itself and calls [extractData] at most once, as
    the last thing it does. *)
Lemma attempt_events (o : Options.t Schema) (events : list (Event Schema))
    (r : Thrown + Output.t Data) :
  attempt o = (events, r) ->
  events = [] /\ (exists e, r = inl e) \/
  exists args,
    events = [ExtractData args] /\
    present (Options.file o) = true /\
    d_file args = default "" (Options.file o) /\
    isValidFile (d_file args) = inr true /\
    finalSchemaOf o = inr (d_finalSchema args) /\
    (truthy (Options.additionalPrompt o) = false \/
     isText (Options.additionalPrompt o) = true) /\
    d_model args = Options.model o /\
    d_parseModel args = Options.parseModel o /\
    d_autoSchema args = Options.autoSchema o /\
    d_additionalPrompt args = Options.additionalPrompt o /\
    match r with
    | inl e => extractData args = inl e
    | inr output =>
        exists result,
          extractData args = inr result /\
          output = {| Output.success := true;
                      Output.pages := Result.totalPages result;
                      Output.data := Result.event result;
                      Output.fileName := Result.fileName result |}
    end.
Proof.
  unfold Extract.attempt. intros H.
  destruct (present (Options.file o)) eqn:Hf; simpl in H;
    [|injection H as <- <-; left; eauto].
  destruct (isValidFile (default "" (Options.file o))) as [e|[|]] eqn:Hv;
    try (injection H as <- <-; left; now eauto).
  destruct (finalSchemaOf o) as [e|fs] eqn:Hs;
    [injection H as <- <-; left; now eauto|].
  destruct (truthy (Options.additionalPrompt o)
            && negb (isText (Options.additionalPrompt o))) eqn:Hp;
    [injection H as <- <-; left; now eauto|].
  right. eexists.
  destruct (extractData _) as [e|result] eqn:Hd; injection H as <- <-;
    (conjs; try reflexivity; eauto);
    apply andb_false_iff in Hp as [Hp|Hp]; auto;
    right; now apply negb_false_iff in Hp.
Qed.

(** X14. Every rejection of [extract] is an [Error] whose message is
    "Failed to process document: " followed by the message of what was
    thrown inside, and that cause is the one thing logged, last of all; a
    call that returns has logged nothing. *)
Theorem extract_wraps_and_logs_every_failure (o : Options.t Schema)
    (events : list (Event Schema)) (r : Thrown + Output.t Data) :
  extract o = (events, r) ->
  match r with
  | inl e =>
      exists before cause,
        e = JsError "Error" ("Failed to process document: " ++ messageOf cause) /\
        events = before ++ [ConsoleError cause] /\
        forall c, ConsoleError c ∈ events -> c = cause
  | inr _ => forall c, ConsoleError c ∉ events
  end.
Proof.
  intros H. apply extract_inv in H
    as [(output & Ha & ->)|(before & cause & Ha & -> & ->)];
    apply attempt_events in Ha as [(-> & _)|(args & -> & _)].
  - intros c Hin. now apply elem_of_nil in Hin.
  - intros c [[=]| Hin]%elem_of_cons. now apply elem_of_nil in Hin.
  - exists [], cause. conjs; auto.
    now intros c [= ->]%list_elem_of_singleton.
  - exists [ExtractData args], cause. conjs; auto.
    intros c [[=]| [= ->]%list_elem_of_singleton]%elem_of_cons. reflexivity.
Qed.

(** X15. [extractData] is called at most once, and only with checked
    input: a file name that is there and that [isValidFile] accepts, the
    schema of the template when a template is named, else the caller's
    schema once [validateSchema] has accepted it, else no schema under
    [autoSchema]; and an additional prompt that is a string or falsy. The
    other options are passed on as they are. *)
Theorem extractData_gets_checked_input (o : Options.t Schema)
    (events : list (Event Schema)) (r : Thrown + Output.t Data)
    (args : DataArgs Schema) :
  extract o = (events, r) ->
  ExtractData args ∈ events ->
  (exists rest, events = ExtractData args :: rest /\
                forall other, ExtractData other ∉ rest) /\
  present (Options.file o) = true /\
  Some (d_file args) = Options.file o /\
  isValidFile (d_file args) = inr true /\
  (present (Options.template o) = true /\
   getTemplate (default "" (Options.template o)) = inr (d_finalSchema args) \/
   present (Options.template o) = false /\
   (exists schema errors,
      Options.schema o = Some schema /\
      validateSchema schema = inr (true, errors) /\
      d_finalSchema args = Some schema) \/
   present (Options.template o) = false /\
   Options.schema o = None /\
   Options.autoSchema o = Some true /\
   d_finalSchema args = None) /\
  (truthy (Options.additionalPrompt o) = false \/
   isText (Options.additionalPrompt o) = true) /\
  d_model args = Options.model o /\
  d_parseModel args = Options.parseModel o /\
  d_autoSchema args = Options.autoSchema o /\
  d_additionalPrompt args = Options.additionalPrompt o.
Proof.
  intros H Hin.
  assert (Hatt : exists before rr,
             attempt o = (before, rr) /\
             (events = before \/ exists c, events = before ++ [ConsoleError c])).
  { apply extract_inv in H
      as [(output & Ha & ->)|(before & cause & Ha & -> & ->)]; eauto 10. }
  destruct Hatt as (before & rr & Ha & Hev).
  apply attempt_events in Ha
    as [(-> & _)|(args' & -> & Hf & Hfile & Hv & Hs & Hp & Hm & Hpm & Hau & Hap & _)].
  { destruct Hev as [->|(c & ->)].
    - now apply elem_of_nil in Hin.
    - now apply list_elem_of_singleton in Hin. }
  assert (args = args') as ->.
  { destruct Hev as [->|(c & ->)].
    - now apply list_elem_of_singleton in Hin as [= ->].
    - apply elem_of_cons in Hin as [[= ->]|Hin]; auto.
      now apply list_elem_of_singleton in Hin. }
  conjs; auto.
  - destruct Hev as [->|(c & ->)]; eexists; (split; [reflexivity|]).
    + intros other Hin'. now apply elem_of_nil in Hin'.
    + intros other Hin'. now apply list_elem_of_singleton in Hin'.
  - rewrite Hfile. unfold present in Hf.
    now destruct (Options.file o).
  - unfold Extract.finalSchemaOf in Hs.
    destruct (present (Options.template o)); [left; auto|right].
    destruct (Options.schema o) as [schema|].
    + left. split; auto.
      destruct (validateSchema schema) as [e|[[|] errors]] eqn:Ev;
        try discriminate.
      injection Hs as <-. exists schema, errors. auto.
    + right. destruct (Options.autoSchema o) as [[|]|]; try discriminate.
      injection Hs as <-. auto.
Qed.

(** X16. A template that is named takes precedence over the schema: with
    a template the caller's schema is neither validated nor used, and the
    call is the same whatever the schema. *)
Theorem template_takes_precedence_over_schema (o : Options.t Schema)
    (schema : option Schema) :
  present (Options.template o) = true ->
  extract (withSchema schema o) = extract o.
Proof.
  intros Ht. unfold Extract.extract, Extract.attempt, Extract.finalSchemaOf.
  simpl. now rewrite Ht.
Qed.

(** X17. A schema that [validateSchema] does not accept is reported with
    all its errors, separated by commas, and [extractData] is not called;
    with neither a template nor a schema nor [autoSchema] the caller is told
    to provide one of them. *)
Theorem unusable_schema_is_reported (o : Options.t Schema) :
  present (Options.file o) = true ->
  isValidFile (default "" (Options.file o)) = inr true ->
  present (Options.template o) = false ->
  (forall schema errors,
     Options.schema o = Some schema ->
     validateSchema schema = inr (false, errors) ->
     extract o
     = ([ConsoleError
           (JsError "Error"
              ("Invalid schema format: " ++ JsString.join ", " errors))],
        inl (JsError "Error"
               ("Failed to process document: Invalid schema format: "
                ++ JsString.join ", " errors)))) /\
  (Options.schema o = None ->
   default false (Options.autoSchema o) = false ->
   extract o
   = ([ConsoleError
         (JsError "Error"
            "You must provide a schema, template, or enable autoSchema.")],
      inl (JsError "Error"
             "Failed to process document: You must provide a schema, template, or enable autoSchema."))).
Proof.
  intros Hf Hv Ht. split.
  - intros schema errors Hs Hbad.
    unfold Extract.extract, Extract.attempt, Extract.finalSchemaOf.
    now rewrite Hf, Hv, Ht, Hs, Hbad.
  - intros Hs Hau.
    unfold Extract.extract, Extract.attempt, Extract.finalSchemaOf.
    now rewrite Hf, Hv, Ht, Hs, Hau.
Qed.

(** X18. When [extract] returns, it has called [extractData] once and done
    nothing else, and its result is made of what that call resolved to:
    [success] is true, [pages] is the total of the pages, [data] the event
    and [fileName] the file name. *)
Theorem extract_returns_what_extractData_found (o : Options.t Schema)
    (events : list (Event Schema)) (output : Output.t Data) :
  extract o = (events, inr output) ->
  exists args result,
    events = [ExtractData args] /\
    extractData args = inr result /\
    Output.success output = true /\
    Output.pages output = Result.totalPages result /\
    Output.data output = Result.event result /\
    Output.fileName output = Result.fileName result.
Proof.
  intros H. apply extract_inv in H
    as [(output' & Ha & [= <-])|(before & cause & _ & _ & [=])].
  apply attempt_events in Ha as [(_ & e & [=])|(args & -> & Hrest)].
  destruct Hrest as (_ & _ & _ & _ & _ & _ & _ & _ & _ & result & Hd & ->).
  exists args, result. conjs; auto.
Qed.

End ExtractMore.

(** * The further statements on concrete runs *)

Lemma invalid_llm_params_reject_first_witness :
  DemoMore.strictValidate
    (default noLLMParams
       (DocumindArgs.llmParams
          (DemoMore.args None "" (Some DemoMore.hot) None false)))
  = inl DemoMore.tooHot /\
  DemoMore.run DemoMore.strictValidate Demo.download
    (DemoMore.args None "" (Some DemoMore.hot) None false) [] DemoMore.world
  = (initState DemoMore.world, Throw DemoMore.tooHot).
Proof.
  split; [reflexivity|].
  exact (invalid_llm_params_reject_first
           DemoMore.strictValidate Demo.download Demo.toPdf (Demo.toImages 2)
           (Demo.complete []) Demo.format Demo.env
           (DemoMore.args None "" (Some DemoMore.hot) None false) []
           DemoMore.world DemoMore.tooHot eq_refl).
Defined.

Lemma missing_api_key_rejects_witness :
  Demo.validate
    (default noLLMParams
       (DocumindArgs.llmParams
          (DemoMore.args (Some "") Demo.report None None false)))
  = inr noLLMParams /\
  default "" (DocumindArgs.openaiAPIKey
                (DemoMore.args (Some "") Demo.report None None false)) = "" /\
  DemoMore.run Demo.validate Demo.download
    (DemoMore.args (Some "") Demo.report None None false) [] DemoMore.world
  = (initState DemoMore.world,
     Throw (JsError "Error" "Missing OpenAI API key")).
Proof.
  split; [reflexivity|]. split; [reflexivity|].
  exact (missing_api_key_rejects
           Demo.validate Demo.download Demo.toPdf (Demo.toImages 2)
           (Demo.complete []) Demo.format Demo.env
           (DemoMore.args (Some "") Demo.report None None false) []
           DemoMore.world noLLMParams eq_refl eq_refl).
Defined.

Lemma missing_file_path_rejects_witness :
  default "" (DocumindArgs.openaiAPIKey
                (DemoMore.args (Some "sk-test") "" None None false)) <> "" /\
  DocumindArgs.filePath (DemoMore.args (Some "sk-test") "" None None false)
  = "" /\
  DemoMore.run Demo.validate Demo.download
    (DemoMore.args (Some "sk-test") "" None None false) [] DemoMore.world
  = (initState DemoMore.world, Throw (JsError "Error" "Missing file path")).
Proof.
  assert (Hk : default "" (DocumindArgs.openaiAPIKey
                 (DemoMore.args (Some "sk-test") "" None None false)) <> "")
    by discriminate.
  split; [exact Hk|]. split; [reflexivity|].
  exact (missing_file_path_rejects
           Demo.validate Demo.download Demo.toPdf (Demo.toImages 2)
           (Demo.complete []) Demo.format Demo.env
           (DemoMore.args (Some "sk-test") "" None None false) []
           DemoMore.world noLLMParams eq_refl Hk eq_refl).
Defined.

Lemma download_without_path_rejects_witness :
  DemoMore.lostDownload Demo.report Demo.tmp
    (ensureDirFs Demo.tmp (w_fsys DemoMore.world))
  = (ensureDirFs Demo.tmp (w_fsys DemoMore.world), inr (".pdf", None)) /\
  snd (DemoMore.run Demo.validate DemoMore.lostDownload
         (DemoMore.args (Some "sk-test") Demo.report None None false) []
         DemoMore.world)
  = Throw (JsStr "Failed to save file to local drive") /\
  fsys (fst (DemoMore.run Demo.validate DemoMore.lostDownload
               (DemoMore.args (Some "sk-test") Demo.report None None false) []
               DemoMore.world))
  = ensureDirFs Demo.tmp (w_fsys DemoMore.world) /\
  heap (fst (DemoMore.run Demo.validate DemoMore.lostDownload
               (DemoMore.args (Some "sk-test") Demo.report None None false) []
               DemoMore.world))
  = w_heap DemoMore.world /\
  trace (fst (DemoMore.run Demo.validate DemoMore.lostDownload
                (DemoMore.args (Some "sk-test") Demo.report None None false) []
                DemoMore.world)) = [].
Proof.
  split; [reflexivity|].
  refine (download_without_path_rejects
            Demo.validate DemoMore.lostDownload Demo.toPdf (Demo.toImages 2)
            (Demo.complete []) Demo.format Demo.env
            (DemoMore.args (Some "sk-test") Demo.report None None false) []
            DemoMore.world _ _ noLLMParams
            (ensureDirFs Demo.tmp (w_fsys DemoMore.world)) ".pdf" None
            eq_refl _ _ eq_refl (or_introl eq_refl) _).
  - discriminate.
  - discriminate.
  - apply surjective_pairing.
Defined.

Lemma every_call_is_for_a_png_of_the_run_witness :
  Demo.parallel3 = (Demo.parallel3_state, snd Demo.parallel3) /\
  EvCall 2 DemoMore.thirdCall ∈ trace Demo.parallel3_state /\
  exists s1 p image,
    Demo.prep 3 (Demo.args false None Demo.report) (initState Demo.world)
    = (s1, Ok p) /\
    images p !! 2%nat = Some image /\
    JsString.endsWith image ".png" = true /\
    CompletionArgs.imagePath DemoMore.thirdCall
    = path_join (tempDirectoryOf Demo.env (Demo.args false None Demo.report))
                image /\
    CompletionArgs.apiKey DemoMore.thirdCall
    = default "" (DocumindArgs.openaiAPIKey
                    (Demo.args false None Demo.report)) /\
    CompletionArgs.maintainFormat DemoMore.thirdCall
    = default false (DocumindArgs.maintainFormat
                       (Demo.args false None Demo.report)) /\
    CompletionArgs.model DemoMore.thirdCall
    = defaultModelOf Demo.env (Demo.args false None Demo.report) /\
    Demo.validate
      (default noLLMParams
         (DocumindArgs.llmParams (Demo.args false None Demo.report)))
    = inr (CompletionArgs.llmParams DemoMore.thirdCall).
Proof.
  assert (H : Demo.parallel3 = (Demo.parallel3_state, snd Demo.parallel3))
    by (vm_compute; reflexivity).
  assert (Hin : EvCall 2 DemoMore.thirdCall ∈ trace Demo.parallel3_state).
  { apply list_elem_of_lookup. exists 3%nat. vm_compute. reflexivity. }
  split; [exact H|]. split; [exact Hin|].
  exact (every_call_is_for_a_png_of_the_run
           Demo.validate Demo.download Demo.toPdf (Demo.toImages 3)
           (Demo.complete []) Demo.format Demo.env
           (Demo.args false None Demo.report) Demo.outOfOrder Demo.world
           Demo.parallel3_state (snd Demo.parallel3) 2%nat DemoMore.thirdCall
           H Hin).
Defined.

Lemma calls_use_the_default_model_of_the_base_url_witness :
  Demo.parallel3 = (Demo.parallel3_state, snd Demo.parallel3) /\
  EvCall 2 DemoMore.thirdCall ∈ trace Demo.parallel3_state /\
  CompletionArgs.model DemoMore.thirdCall
  = match DocumindArgs.model (Demo.args false None Demo.report),
          BASE_URL Demo.env with
    | Some m, _ => m
    | None, None => gpt_4o_mini
    | None, Some url =>
        if String.eqb url "" || String.eqb url "https://api.openai.com/v1"
        then gpt_4o_mini else llava
    end.
Proof.
  assert (H : Demo.parallel3 = (Demo.parallel3_state, snd Demo.parallel3))
    by (vm_compute; reflexivity).
  assert (Hin : EvCall 2 DemoMore.thirdCall ∈ trace Demo.parallel3_state).
  { apply list_elem_of_lookup. exists 3%nat. vm_compute. reflexivity. }
  split; [exact H|]. split; [exact Hin|].
  exact (calls_use_the_default_model_of_the_base_url
           Demo.validate Demo.download Demo.toPdf (Demo.toImages 3)
           (Demo.complete []) Demo.format Demo.env
           (Demo.args false None Demo.report) Demo.outOfOrder Demo.world
           Demo.parallel3_state (snd Demo.parallel3) 2%nat DemoMore.thirdCall
           H Hin).
Defined.

Lemma prior_page_is_the_last_formatted_response_witness :
  Demo.parallel3 = (Demo.parallel3_state, snd Demo.parallel3) /\
  trace Demo.parallel3_state
  = take 3 (trace Demo.parallel3_state) ++
    EvCall 2 DemoMore.thirdCall :: drop 4 (trace Demo.parallel3_state) /\
  CompletionArgs.priorPage DemoMore.thirdCall
  = lastFormatted Demo.format (take 3 (trace Demo.parallel3_state)).
Proof.
  assert (H : Demo.parallel3 = (Demo.parallel3_state, snd Demo.parallel3))
    by (vm_compute; reflexivity).
  assert (Ht : trace Demo.parallel3_state
               = take 3 (trace Demo.parallel3_state) ++
                 EvCall 2 DemoMore.thirdCall
                 :: drop 4 (trace Demo.parallel3_state))
    by (vm_compute; reflexivity).
  split; [exact H|]. split; [exact Ht|].
  exact (prior_page_is_the_last_formatted_response
           Demo.validate Demo.download Demo.toPdf (Demo.toImages 3)
           (Demo.complete []) Demo.format Demo.env
           (Demo.args false None Demo.report) Demo.outOfOrder Demo.world
           Demo.parallel3_state (snd Demo.parallel3)
           (take 3 (trace Demo.parallel3_state))
           (drop 4 (trace Demo.parallel3_state)) 2%nat DemoMore.thirdCall
           H Ht).
Defined.

(** In the run whose calls settled in the order 1, 2, 0, the call for the
    third page was given the second page, and the first two nothing. *)
Example parallel3_prior_pages :
  (fun c => CompletionArgs.priorPage (snd c))
    <$> calls (trace Demo.parallel3_state)
  = [""; ""; "md page_2.png<>"].
Proof. vm_compute. reflexivity. Qed.

Lemma sequential_pages_follow_unit_index_witness :
  default false (DocumindArgs.maintainFormat (Demo.args true None Demo.report))
  = true /\
  Demo.sequential3
  = (Demo.sequential3_state, Ok (Demo.outputOf (snd Demo.sequential3))) /\
  exists s1 p,
    Demo.prep 3 (Demo.args true None Demo.report) (initState Demo.world)
    = (s1, Ok p) /\
    length (DocumindOutput.pages (Demo.outputOf (snd Demo.sequential3)))
    = length (images p) /\
    forall i image,
      images p !! i = Some image ->
      exists args r pg,
        calls (trace Demo.sequential3_state) !! i = Some (i, args) /\
        CompletionArgs.imagePath args
        = path_join (tempDirectoryOf Demo.env
                       (Demo.args true None Demo.report)) image /\
        Demo.complete [] args = inr r /\
        settles (trace Demo.sequential3_state) !! i = Some (i, inr r) /\
        DocumindOutput.pages (Demo.outputOf (snd Demo.sequential3)) !! i
        = Some pg /\
        Page.content pg = Demo.format (CompletionResponse.content r) /\
        Page.contentLength pg = String.length (Page.content pg) /\
        Page.page pg
        = pageNumber (pagesOf (Demo.args true None Demo.report))
                     (heap Demo.sequential3_state) i.
Proof.
  assert (H : Demo.sequential3
              = (Demo.sequential3_state,
                 Ok (Demo.outputOf (snd Demo.sequential3))))
    by (vm_compute; reflexivity).
  split; [reflexivity|]. split; [exact H|].
  exact (sequential_pages_follow_unit_index
           Demo.validate Demo.download Demo.toPdf (Demo.toImages 3)
           (Demo.complete []) Demo.format Demo.env
           (Demo.args true None Demo.report) [] Demo.world
           Demo.sequential3_state (Demo.outputOf (snd Demo.sequential3))
           eq_refl H).
Defined.

Lemma output_file_holds_the_pages_witness :
  DemoMore.kept = (DemoMore.kept_state, Throw DemoMore.ebusy) /\
  (forall out, @Throw DocumindOutput.t DemoMore.ebusy = Ok out ->
     writes (trace DemoMore.kept_state)
     = match DocumindArgs.outputDir DemoMore.writing with
       | Some outputDir =>
           if String.eqb outputDir "" then []
           else [(path_join outputDir (DocumindOutput.fileName out ++ ".md"),
                  JsString.join (String "010" (String "010" ""))
                    (Page.content <$> DocumindOutput.pages out))]
       | None => []
       end) /\
  (DocumindArgs.outputDir DemoMore.writing = None \/
   DocumindArgs.outputDir DemoMore.writing = Some "" ->
   writes (trace DemoMore.kept_state) = []) /\
  (forall e, @Throw DocumindOutput.t DemoMore.ebusy = Throw e ->
     writes (trace DemoMore.kept_state) = [] \/
     (default true (DocumindArgs.cleanup DemoMore.writing) = true /\
      removeError DemoMore.busyEnv
                  (tempDirectoryOf DemoMore.busyEnv DemoMore.writing)
      = Some e /\
      exists outputDir s1 p,
        DocumindArgs.outputDir DemoMore.writing = Some outputDir /\
        prepare Demo.validate Demo.download Demo.toPdf (Demo.toImages 2)
                DemoMore.busyEnv DemoMore.writing (initState DemoMore.world)
        = (s1, Ok p) /\
        writes (trace DemoMore.kept_state)
        = [(path_join outputDir (fileNameOf (localPath p) ++ ".md"),
            JsString.join (String "010" (String "010" ""))
                          (aggregatedMarkdown DemoMore.kept_state))])).
Proof.
  assert (H : DemoMore.kept = (DemoMore.kept_state, Throw DemoMore.ebusy))
    by (vm_compute; reflexivity).
  split; [exact H|].
  exact (output_file_holds_the_pages
           Demo.validate Demo.download Demo.toPdf (Demo.toImages 2)
           (Demo.complete []) Demo.format DemoMore.busyEnv DemoMore.writing []
           DemoMore.world DemoMore.kept_state (Throw DemoMore.ebusy) H).
Defined.

(** That run is rejected, and its file is there. *)
Example kept_file :
  snd DemoMore.kept = Throw DemoMore.ebusy /\
  writes (trace DemoMore.kept_state)
  = [("/out/my_report_v2.md",
      "md page_1.png<>" ++ String "010" (String "010" "")
      ++ "md page_2.png<md page_1.png<>>")%string] /\
  removals (trace DemoMore.kept_state) = [] /\
  fsys DemoMore.kept_state !! "/out" = Some ["old.md"; "my_report_v2.md"] /\
  is_Some (fsys DemoMore.kept_state !! "/tmp/documind-file-4821").
Proof. vm_compute. conjs; eauto. Qed.

(** The file the run that completes has written. *)
Example written_file :
  writes (trace DemoMore.written_state)
  = [("/out/my_report_v2.md",
      "md page_1.png<>" ++ String "010" (String "010" "")
      ++ "md page_2.png<md page_1.png<>>")%string].
Proof. vm_compute. reflexivity. Qed.

Lemma sequential_run_ignores_concurrency_witness :
  default false (DocumindArgs.maintainFormat (Demo.args true None Demo.report))
  = true /\
  Demo.run 3 [] (withConcurrency (Some 0%Z) (Demo.args true None Demo.report))
           Demo.outOfOrder Demo.world
  = Demo.run 3 [] (Demo.args true None Demo.report) [] Demo.world.
Proof.
  split; [reflexivity|].
  exact (sequential_run_ignores_concurrency
           Demo.validate Demo.download Demo.toPdf (Demo.toImages 3)
           (Demo.complete []) Demo.format Demo.env
           (Demo.args true None Demo.report) [] Demo.outOfOrder Demo.world
           (Some 0%Z) eq_refl).
Defined.

Lemma file_name_of_a_path_witness :
  JsString.allChars (fun c => negb (Ascii.eqb c "/")) "My Report (v2)" = true /\
  JsString.allChars (fun c => negb (Ascii.eqb c ".")) "My Report (v2)" = true /\
  JsString.allChars (fun c => negb (Ascii.eqb c "/")) "final.pdf" = true /\
  fileNameOf ("/tmp/documind-file-4821" ++ "/" ++ "My Report (v2)" ++ "."
              ++ "final.pdf")
  = sanitize "My Report (v2)" /\
  fileNameOf ("/tmp/documind-file-4821" ++ "/" ++ "My Report (v2)")
  = sanitize "My Report (v2)".
Proof.
  split; [reflexivity|]. split; [reflexivity|]. split; [reflexivity|].
  exact (file_name_of_a_path "/tmp/documind-file-4821" "My Report (v2)"
           "final.pdf" eq_refl eq_refl eq_refl).
Defined.

Lemma extract_requires_a_file_witness :
  Extract.present
    (Extract.Options.file
       (ExtractDemo.options (Some "") (Some ["total"]) None None
                            Extract.JsUndefined)) = false /\
  ExtractDemo.extract
    (ExtractDemo.options (Some "") (Some ["total"]) None None
                         Extract.JsUndefined)
  = ([Extract.ConsoleError (JsError "Error" "File is required.")],
     inl (JsError "Error" "Failed to process document: File is required.")).
Proof.
  split; [reflexivity|].
  exact (extract_requires_a_file
           (list string) string ExtractDemo.isValidFile ExtractDemo.getTemplate
           ExtractDemo.validateSchema ExtractDemo.extractData
           (ExtractDemo.options (Some "") (Some ["total"]) None None
                                Extract.JsUndefined) eq_refl).
Defined.

Lemma extract_wraps_and_logs_every_failure_witness :
  ExtractDemo.extract
    (ExtractDemo.options (Some "a.pdf") None (Some "receipt") None
                         Extract.JsUndefined)
  = ([Extract.ConsoleError (JsError "Error" "Template receipt not found")],
     inl (JsError "Error"
            "Failed to process document: Template receipt not found")) /\
  exists before cause,
    JsError "Error" "Failed to process document: Template receipt not found"
    = JsError "Error"
        ("Failed to process document: " ++ Extract.messageOf cause) /\
    ([Extract.ConsoleError (JsError "Error" "Template receipt not found")]
     : list (Extract.Event (list string)))
    = before ++ [Extract.ConsoleError cause] /\
    forall c,
      Extract.ConsoleError c
      ∈ ([Extract.ConsoleError
            (JsError "Error" "Template receipt not found")]
         : list (Extract.Event (list string))) ->
      c = cause.
Proof.
  assert (H : ExtractDemo.extract
                (ExtractDemo.options (Some "a.pdf") None (Some "receipt") None
                                     Extract.JsUndefined)
              = ([Extract.ConsoleError
                    (JsError "Error" "Template receipt not found")],
                 inl (JsError "Error"
                        "Failed to process document: Template receipt not found")))
    by (vm_compute; reflexivity).
  split; [exact H|].
  exact (extract_wraps_and_logs_every_failure
           (list string) string ExtractDemo.isValidFile ExtractDemo.getTemplate
           ExtractDemo.validateSchema ExtractDemo.extractData _ _ _ H).
Defined.

Lemma extractData_gets_checked_input_witness :
  ExtractDemo.extract ExtractDemo.invoiceOptions
  = (fst (ExtractDemo.extract ExtractDemo.invoiceOptions),
     snd (ExtractDemo.extract ExtractDemo.invoiceOptions)) /\
  Extract.ExtractData ExtractDemo.invoiceArgs ∈ fst (ExtractDemo.extract ExtractDemo.invoiceOptions) /\
  ExtractDemo.isValidFile (Extract.d_file ExtractDemo.invoiceArgs) = inr true /\
  Extract.d_finalSchema ExtractDemo.invoiceArgs = Some ["number"; "total"].
Proof.
  assert (H : ExtractDemo.extract ExtractDemo.invoiceOptions
              = (fst (ExtractDemo.extract ExtractDemo.invoiceOptions),
                 snd (ExtractDemo.extract ExtractDemo.invoiceOptions)))
    by apply surjective_pairing.
  assert (Hin : Extract.ExtractData ExtractDemo.invoiceArgs
                ∈ fst (ExtractDemo.extract ExtractDemo.invoiceOptions)).
  { apply list_elem_of_lookup. exists 0%nat. vm_compute. reflexivity. }
  split; [exact H|]. split; [exact Hin|].
  destruct (extractData_gets_checked_input
              (list string) string ExtractDemo.isValidFile
              ExtractDemo.getTemplate ExtractDemo.validateSchema
              ExtractDemo.extractData ExtractDemo.invoiceOptions _ _ ExtractDemo.invoiceArgs H Hin)
    as (_ & _ & _ & Hv & _).
  split; [exact Hv|reflexivity].
Defined.

Lemma template_takes_precedence_over_schema_witness :
  Extract.present (Extract.Options.template ExtractDemo.invoiceOptions) = true /\
  ExtractDemo.extract (Extract.withSchema (Some ["other"]) ExtractDemo.invoiceOptions)
  = ExtractDemo.extract ExtractDemo.invoiceOptions.
Proof.
  split; [reflexivity|].
  exact (template_takes_precedence_over_schema
           (list string) string ExtractDemo.isValidFile ExtractDemo.getTemplate
           ExtractDemo.validateSchema ExtractDemo.extractData ExtractDemo.invoiceOptions
           (Some ["other"]) eq_refl).
Defined.

Lemma unusable_schema_is_reported_witness :
  Extract.present (Extract.Options.file ExtractDemo.emptySchemaOptions) = true /\
  ExtractDemo.isValidFile (default "" (Extract.Options.file ExtractDemo.emptySchemaOptions))
  = inr true /\
  Extract.present (Extract.Options.template ExtractDemo.emptySchemaOptions) = false /\
  ExtractDemo.validateSchema []
  = inr (false, ["schema is empty"; "no field to extract"]) /\
  ExtractDemo.extract ExtractDemo.emptySchemaOptions
  = ([Extract.ConsoleError
        (JsError "Error"
           ("Invalid schema format: "
            ++ JsString.join ", " ["schema is empty"; "no field to extract"]))],
     inl (JsError "Error"
            ("Failed to process document: Invalid schema format: "
             ++ JsString.join ", "
                  ["schema is empty"; "no field to extract"]))).
Proof.
  split; [reflexivity|]. split; [reflexivity|]. split; [reflexivity|].
  split; [reflexivity|].
  exact (proj1 (unusable_schema_is_reported
                  (list string) string ExtractDemo.isValidFile
                  ExtractDemo.getTemplate ExtractDemo.validateSchema
                  ExtractDemo.extractData ExtractDemo.emptySchemaOptions
                  eq_refl eq_refl eq_refl)
               [] ["schema is empty"; "no field to extract"] eq_refl eq_refl).
Defined.

Lemma extract_returns_what_extractData_found_witness :
  ExtractDemo.extract ExtractDemo.invoiceOptions
  = ([Extract.ExtractData ExtractDemo.invoiceArgs],
     inr {| Extract.Output.success := true; Extract.Output.pages := 2;
            Extract.Output.data := "number,total";
            Extract.Output.fileName := "a" |}) /\
  exists args result,
    [Extract.ExtractData ExtractDemo.invoiceArgs] = [Extract.ExtractData args] /\
    ExtractDemo.extractData args = inr result /\
    true = true /\
    2%Z = Extract.Result.totalPages result /\
    "number,total" = Extract.Result.event result /\
    "a" = Extract.Result.fileName result.
Proof.
  assert (H : ExtractDemo.extract ExtractDemo.invoiceOptions
              = ([Extract.ExtractData ExtractDemo.invoiceArgs],
                 inr {| Extract.Output.success := true;
                        Extract.Output.pages := 2;
                        Extract.Output.data := "number,total";
                        Extract.Output.fileName := "a" |}))
    by (vm_compute; reflexivity).
  split; [exact H|].
  exact (extract_returns_what_extractData_found
           (list string) string ExtractDemo.isValidFile ExtractDemo.getTemplate
           ExtractDemo.validateSchema ExtractDemo.extractData _ _ _ H).
Defined.

Lemma completed_run_writes_then_removes_witness :
  DemoMore.written
  = (DemoMore.written_state, Ok (Demo.outputOf (snd DemoMore.written))) /\
  exists body,
    trace DemoMore.written_state
    = body ++
      match DocumindArgs.outputDir DemoMore.writing with
      | Some outputDir =>
          if String.eqb outputDir "" then []
          else [EvWriteFile
                  (path_join outputDir
                     (DocumindOutput.fileName
                        (Demo.outputOf (snd DemoMore.written)) ++ ".md"))
                  (JsString.join (String "010" (String "010" ""))
                     (Page.content
                        <$> DocumindOutput.pages
                              (Demo.outputOf (snd DemoMore.written))))]
      | None => []
      end ++
      (if default true (DocumindArgs.cleanup DemoMore.writing)
       then [EvRemove (tempDirectoryOf Demo.env DemoMore.writing)] else []) /\
    writes body = [] /\ removals body = [] /\ failures body = [] /\
    length (calls body)
    = length (DocumindOutput.pages (Demo.outputOf (snd DemoMore.written))) /\
    length (settles body)
    = length (DocumindOutput.pages (Demo.outputOf (snd DemoMore.written))).
Proof.
  assert (H : DemoMore.written
              = (DemoMore.written_state,
                 Ok (Demo.outputOf (snd DemoMore.written))))
    by (vm_compute; reflexivity).
  split; [exact H|].
  exact (completed_run_writes_then_removes
           Demo.validate Demo.download Demo.toPdf (Demo.toImages 2)
           (Demo.complete []) Demo.format Demo.env DemoMore.writing []
           DemoMore.world DemoMore.written_state
           (Demo.outputOf (snd DemoMore.written)) H).
Defined.

(** The log of that run: two calls, then the file, then the removal. *)
Example written_trace_tail :
  drop 4 (trace DemoMore.written_state)
  = [EvWriteFile "/out/my_report_v2.md"
       ("md page_1.png<>" ++ String "010" (String "010" "")
        ++ "md page_2.png<md page_1.png<>>")%string;
     EvRemove "/tmp/documind-file-4821"].
Proof. vm_compute. reflexivity. Qed.

Lemma sequential_prior_page_is_previous_output_witness :
  default false (DocumindArgs.maintainFormat (Demo.args true None Demo.report))
  = true /\
  Demo.sequential3 = (Demo.sequential3_state, snd Demo.sequential3) /\
  Demo.prep 3 (Demo.args true None Demo.report) (initState Demo.world)
  = (fst (Demo.prep 3 (Demo.args true None Demo.report)
                    (initState Demo.world)),
     Ok DemoMore.sequential3_prepared) /\
  images DemoMore.sequential3_prepared !! 2%nat = Some "page_3.png" /\
  (forall k e,
     (k, e) ∈ failures (trace Demo.sequential3_state) -> (2 <= k)%nat) /\
  exists args,
    calls (trace Demo.sequential3_state) !! 2%nat = Some (2%nat, args) /\
    CompletionArgs.imagePath args
    = path_join (tempDirectoryOf Demo.env (Demo.args true None Demo.report))
                "page_3.png" /\
    exists resp,
      settles (trace Demo.sequential3_state) !! 1%nat
      = Some (1%nat, inr resp) /\
      CompletionArgs.priorPage args
      = Demo.format (CompletionResponse.content resp).
Proof.
  assert (H : Demo.sequential3 = (Demo.sequential3_state, snd Demo.sequential3))
    by (vm_compute; reflexivity).
  assert (Hp : Demo.prep 3 (Demo.args true None Demo.report)
                         (initState Demo.world)
               = (fst (Demo.prep 3 (Demo.args true None Demo.report)
                                 (initState Demo.world)),
                  Ok DemoMore.sequential3_prepared))
    by (vm_compute; reflexivity).
  assert (Hnone : forall k e,
             (k, e) ∈ failures (trace Demo.sequential3_state) ->
             (2 <= k)%nat).
  { assert (Hf : failures (trace Demo.sequential3_state) = [])
      by (vm_compute; reflexivity).
    intros k e Hin. rewrite Hf in Hin. now apply elem_of_nil in Hin. }
  split; [reflexivity|]. split; [exact H|]. split; [exact Hp|].
  split; [reflexivity|]. split; [exact Hnone|].
  exact (proj2 (sequential_prior_page_is_previous_output
                  Demo.validate Demo.download Demo.toPdf (Demo.toImages 3)
                  (Demo.complete []) Demo.format Demo.env
                  (Demo.args true None Demo.report) [] Demo.world
                  Demo.sequential3_state (snd Demo.sequential3) eq_refl H)
               _ DemoMore.sequential3_prepared 2%nat "page_3.png"
               Hp eq_refl Hnone).
Defined.

(** In the run of five pages whose second call fails, the two calls that
    were made, with their prior pages. *)
Example sequential5_prior_pages :
  (fun c => (fst c, CompletionArgs.imagePath (snd c),
             CompletionArgs.priorPage (snd c)))
    <$> calls (trace Demo.sequential5_state)
  = [(0%nat, "/tmp/documind-file-4821/page_1.png", "");
     (1%nat, "/tmp/documind-file-4821/page_2.png", "md page_1.png<>")].
Proof. vm_compute. reflexivity. Qed.
